(** * LangGame: the streaming tile world, the player and the word ledger

    A shallow embedding of [main.py]: chunk generation ([Chunk]), the chunk
    registry and its lookups ([World]), movement and facing ([Player]), the
    per-language word ledger ([Player.learn_word]), click interaction and
    save-file loading ([Game]).  Python exceptions are results of type
    [Result]; methods that mutate [self] or the global [random] module are
    written in a state-and-exception monad. *)

From Stdlib Require Import ZArith Floats Uint63 Lia Bool.
From stdpp Require Import base option list gmap strings pretty.

Set Warnings "-inexact-float,-register-all".
Set Default Proof Using "Type*".
Open Scope Z_scope.

(* ================================================================== *)
(** * Python values, exceptions and the state monad *)

Inductive exn :=
  | IndexError | KeyError | AttributeError | TypeError | ValueError
  | StopIteration | OverflowError.

Inductive Result (A : Type) :=
  | Ok (a : A)
  | Raise (e : exn).
Arguments Ok {A} a.
Arguments Raise {A} e.

Definition M (S A : Type) : Type := S -> Result (A * S).

Definition ret {S A} (a : A) : M S A := fun s => Ok (a, s).

Definition bind {S A B} (m : M S A) (k : A -> M S B) : M S B :=
  fun s => match m s with
           | Ok (a, s') => k a s'
           | Raise e => Raise e
           end.

Definition lift {S A} (r : Result A) : M S A :=
  fun s => match r with
           | Ok a => Ok (a, s)
           | Raise e => Raise e
           end.

Notation "x <- m ;; k" := (bind m (fun x => k))
  (at level 100, m at next level, right associativity).
Notation "m ;; k" := (bind m (fun _ => k))
  (at level 100, right associativity).

(** [for x in l: body] *)
Fixpoint for_each {S A} (l : list A) (body : A -> M S unit) : M S unit :=
  match l with
  | [] => ret tt
  | a :: l' => body a ;; for_each l' body
  end.

(** [for x in l: body], where the body may [break]: the body returns [true]
    when it breaks, and the loop returns whether it was left by a break. *)
Fixpoint for_break {S A} (l : list A) (body : A -> M S bool) : M S bool :=
  match l with
  | [] => ret false
  | a :: l' => b <- body a ;; if b then ret true else for_break l' body
  end.

(** [range(a, b)] *)
Definition range (a b : Z) : list Z := seqZ a (b - a).

(** [l[i]], with Python's negative indices. *)
Definition py_index {A} (l : list A) (i : Z) : option nat :=
  let j := if i <? 0 then i + Z.of_nat (length l) else i in
  if (0 <=? j) && (j <? Z.of_nat (length l)) then Some (Z.to_nat j) else None.

Definition py_getitem {A} (l : list A) (i : Z) : Result A :=
  match py_index l i with
  | Some j => match l !! j with Some a => Ok a | None => Raise IndexError end
  | None => Raise IndexError
  end.

(** [l[i] = v] *)
Definition py_setitem {A} (l : list A) (i : Z) (v : A) : Result (list A) :=
  match py_index l i with
  | Some j => Ok (<[j := v]> l)
  | None => Raise IndexError
  end.

(** [s in l] for a list of strings. *)
Definition str_in (s : string) (l : list string) : bool :=
  existsb (String.eqb s) l.

(* ================================================================== *)
(** * Constants and the catalogue of game objects *)

Definition TILE_SIZE : Z := 32.
Definition CHUNK_SIZE : Z := 16.

Definition DIRECTION_UP : Z := 0.
Definition DIRECTION_RIGHT : Z := 1.
Definition DIRECTION_DOWN : Z := 2.
Definition DIRECTION_LEFT : Z := 3.

Definition Color : Type := (Z * Z * Z)%type.

Definition WHITE : Color := (255, 255, 255).
Definition YELLOW : Color := (255, 255, 0).
Definition FOREST_GREEN : Color := (34, 139, 34).
Definition BLUE : Color := (30, 144, 255).
Definition GRAY : Color := (128, 128, 128).
Definition BROWN : Color := (160, 82, 45).
Definition GREEN : Color := (76, 187, 23).
Definition SAND_COLOR : Color := (238, 214, 175).
Definition PINK : Color := (255, 105, 180).
Definition LIGHT_BROWN : Color := (205, 133, 63).
Definition LAVENDER : Color := (230, 230, 250).
Definition ORANGE : Color := (255, 140, 0).

(** One entry of [GAME_OBJECTS]: a dict with exactly these six keys. *)
Record ObjType := {
  name : string;
  english : string;
  spanish : string;
  french : string;
  color : Color;
  passable : bool
}.

Definition mk_obj (n e s f : string) (c : Color) (p : bool) : ObjType :=
  {| name := n; english := e; spanish := s; french := f;
     color := c; passable := p |}.

Definition GAME_OBJECTS : list ObjType :=
  [ mk_obj "tree" "tree" "árbol" "arbre" FOREST_GREEN false;
    mk_obj "water" "water" "agua" "eau" BLUE false;
    mk_obj "stone" "stone" "piedra" "pierre" GRAY false;
    mk_obj "house" "house" "casa" "maison" BROWN false;
    mk_obj "grass" "grass" "hierba" "herbe" GREEN true;
    mk_obj "path" "path" "camino" "chemin" SAND_COLOR true;
    mk_obj "flower" "flower" "flor" "fleur" PINK true;
    mk_obj "mushroom" "mushroom" "hongo" "champignon" (255, 182, 193) true;
    mk_obj "log" "log" "tronco" "bûche" LIGHT_BROWN false;
    mk_obj "bush" "bush" "arbusto" "buisson" GREEN false;
    mk_obj "rabbit" "rabbit" "conejo" "lapin" LAVENDER true;
    mk_obj "bird" "bird" "pájaro" "oiseau" ORANGE true ].

Definition LANGUAGES : list string := ["spanish"; "french"].

(** [next(obj for obj in GAME_OBJECTS if obj["name"] == n)] *)
Definition obj_named (n : string) : Result ObjType :=
  match find (fun obj => String.eqb (name obj) n) GAME_OBJECTS with
  | Some obj => Ok obj
  | None => Raise StopIteration
  end.

(** The value stored under a key of a game-object dict. *)
Inductive PyVal :=
  | VStr (s : string)
  | VColor (c : Color)
  | VBool (b : bool).

(** [obj_type[key]] *)
Definition obj_getitem (obj_type : ObjType) (key : string) : Result PyVal :=
  if String.eqb key "name" then Ok (VStr (name obj_type))
  else if String.eqb key "english" then Ok (VStr (english obj_type))
  else if String.eqb key "spanish" then Ok (VStr (spanish obj_type))
  else if String.eqb key "french" then Ok (VStr (french obj_type))
  else if String.eqb key "color" then Ok (VColor (color obj_type))
  else if String.eqb key "passable" then Ok (VBool (passable obj_type))
  else Raise KeyError.

(* ================================================================== *)
(** * Game objects and chunks *)

Record GameObject := {
  go_x : Z;
  go_y : Z;
  go_width : Z;
  go_height : Z;
  obj_type : ObjType;
  go_color : Color;
  revealed : bool;
  translation_shown : bool;
  mastered : bool;
  variation : float
}.

Record Chunk := {
  chunk_x : Z;
  chunk_y : Z;
  tiles : list (list ObjType);
  objects : list GameObject
}.

(** The global [random] module: the generator state, and the operating
    system's entropy that [random.seed()] draws a fresh state from. *)
Record RandomModule (rng : Type) := {
  rm_state : rng;
  os_entropy : nat -> rng
}.
Arguments rm_state {rng} _.
Arguments os_entropy {rng} _ _.

(** The generator behind [random]: seeding from a string, [random()],
    and [_randbelow(n)], which [randint] and [choice] are built on. *)
Class RandomGen (rng : Type) := {
  seed_str : string -> rng;
  gen_random : rng -> float * rng;
  randbelow : Z -> rng -> Z * rng;
  randbelow_range : forall n g, 0 < n -> 0 <= fst (randbelow n g) < n
}.

(** [random.seed()] *)
Definition random_seed_os {rng} (r : RandomModule rng) : RandomModule rng :=
  {| rm_state := os_entropy r 0%nat;
     os_entropy := fun n => os_entropy r (S n) |}.

(** [random.seed(s)] for a string [s] *)
Definition random_seed_str `{RandomGen rng} (s : string)
    (r : RandomModule rng) : RandomModule rng :=
  {| rm_state := seed_str s; os_entropy := os_entropy r |}.

(* ================================================================== *)
(** * Chunk generation *)

Section Generation.
Context {rng : Type} `{!RandomGen rng}.

(** What the generation methods of [Chunk] read and write: the chunk
    itself and the state of the global generator. *)
Record Heap := {
  self : Chunk;
  mt : rng
}.

Definition set_tiles (t : list (list ObjType)) (c : Chunk) : Chunk :=
  {| chunk_x := chunk_x c; chunk_y := chunk_y c;
     tiles := t; objects := objects c |}.

(** [random.random()] *)
Definition random_random : M Heap float :=
  fun h => let '(u, g) := gen_random (mt h) in
           Ok (u, {| self := self h; mt := g |}).

(** [random.randint(a, b)] *)
Definition random_randint (a b : Z) : M Heap Z :=
  fun h => if b - a + 1 <=? 0 then Raise ValueError
           else let '(k, g) := randbelow (b - a + 1) (mt h) in
                Ok (a + k, {| self := self h; mt := g |}).

(** [random.choice(seq)] *)
Definition random_choice {A} (seq : list A) : M Heap A :=
  fun h => match seq with
           | [] => Raise IndexError
           | _ :: _ =>
               let '(k, g) := randbelow (Z.of_nat (length seq)) (mt h) in
               match py_getitem seq k with
               | Ok a => Ok (a, {| self := self h; mt := g |})
               | Raise e => Raise e
               end
           end.

(** [self.tiles[y][x]] *)
Definition read_tile (y x : Z) : M Heap ObjType :=
  fun h => match py_getitem (tiles (self h)) y with
           | Ok row => match py_getitem row x with
                       | Ok t => Ok (t, h)
                       | Raise e => Raise e
                       end
           | Raise e => Raise e
           end.

(** [self.tiles[y][x] = v] *)
Definition write_tile (y x : Z) (v : ObjType) : M Heap unit :=
  fun h => match py_index (tiles (self h)) y with
           | Some j =>
               match tiles (self h) !! j with
               | Some row =>
                   match py_setitem row x v with
                   | Ok row' =>
                       Ok (tt, {| self := set_tiles (<[j := row']> (tiles (self h)))
                                            (self h);
                                  mt := mt h |})
                   | Raise e => Raise e
                   end
               | None => Raise IndexError
               end
           | None => Raise IndexError
           end.

(** [self.tiles[y][x]["name"]] *)
Definition tile_name (y x : Z) : M Heap string :=
  t <- read_tile y x ;; ret (name t).

Definition generate_path : M Heap unit :=
  path_obj <- lift (obj_named "path") ;;
  path_type <- random_choice ["horizontal"; "vertical"; "both"] ;;
  (if str_in path_type ["horizontal"; "both"] then
     y <- random_randint (CHUNK_SIZE / 4) (3 * CHUNK_SIZE / 4) ;;
     for_each (range 0 CHUNK_SIZE) (fun x => write_tile y x path_obj)
   else ret tt) ;;
  (if str_in path_type ["vertical"; "both"] then
     x <- random_randint (CHUNK_SIZE / 4) (3 * CHUNK_SIZE / 4) ;;
     for_each (range 0 CHUNK_SIZE) (fun y => write_tile y x path_obj)
   else ret tt).

Definition generate_trees : M Heap unit :=
  tree_obj <- lift (obj_named "tree") ;;
  n <- random_randint 1 3 ;;
  for_each (range 0 n) (fun _ =>
    center_x <- random_randint 2 (CHUNK_SIZE - 3) ;;
    center_y <- random_randint 2 (CHUNK_SIZE - 3) ;;
    radius <- random_randint 2 4 ;;
    for_each (range (Z.max 0 (center_y - radius))
                    (Z.min CHUNK_SIZE (center_y + radius))) (fun y =>
      for_each (range (Z.max 0 (center_x - radius))
                      (Z.min CHUNK_SIZE (center_x + radius))) (fun x =>
        nm <- tile_name y x ;;
        if negb (String.eqb nm "grass") then ret tt
        else
          u <- random_random ;;
          if (u <? 0.6)%float
             && ((x - center_x) ^ 2 + (y - center_y) ^ 2 <=? radius ^ 2)
          then write_tile y x tree_obj
          else ret tt))).

Definition generate_water : M Heap unit :=
  water_obj <- lift (obj_named "water") ;;
  center_x <- random_randint 3 (CHUNK_SIZE - 4) ;;
  center_y <- random_randint 3 (CHUNK_SIZE - 4) ;;
  radius <- random_randint 2 5 ;;
  for_each (range (Z.max 0 (center_y - radius))
                  (Z.min CHUNK_SIZE (center_y + radius))) (fun y =>
    for_each (range (Z.max 0 (center_x - radius))
                    (Z.min CHUNK_SIZE (center_x + radius))) (fun x =>
      u <- random_random ;;
      if (u <? 0.7)%float
         && ((x - center_x) ^ 2 + (y - center_y) ^ 2 <=? radius ^ 2)
      then write_tile y x water_obj
      else ret tt)).

(** The search of the 3x3 neighbourhood of [(x, y)] for a tile named
    [nm]: both loops are left as soon as one is found. *)
Definition nearby (nm : string) (y x : Z) : M Heap bool :=
  for_break (range (Z.max 0 (y - 1)) (Z.min CHUNK_SIZE (y + 2))) (fun ny =>
    for_break (range (Z.max 0 (x - 1)) (Z.min CHUNK_SIZE (x + 2))) (fun nx =>
      n <- tile_name ny nx ;;
      ret (String.eqb n nm))).

Definition generate_houses : M Heap unit :=
  house_obj <- lift (obj_named "house") ;;
  flower_obj <- lift (obj_named "flower") ;;
  n <- random_randint 0 3 ;;
  for_each (range 0 n) (fun _ =>
    for_break (range 0 10) (fun attempt =>
      x <- random_randint 1 (CHUNK_SIZE - 2) ;;
      y <- random_randint 1 (CHUNK_SIZE - 2) ;;
      has_path_nearby <- nearby "path" y x ;;
      good <- (if has_path_nearby || (5 <? attempt) then
                 nm <- tile_name y x ;;
                 ret (negb (str_in nm ["water"; "path"; "house"]))
               else ret false) ;;
      if good then
        write_tile y x house_obj ;;
        for_each (range (Z.max 0 (y - 1)) (Z.min CHUNK_SIZE (y + 2))) (fun ny =>
          for_each (range (Z.max 0 (x - 1)) (Z.min CHUNK_SIZE (x + 2))) (fun nx =>
            if negb (nx =? x) || negb (ny =? y) then
              nm <- tile_name ny nx ;;
              if String.eqb nm "grass" then
                u <- random_random ;;
                if (u <? 0.4)%float then write_tile ny nx flower_obj
                else ret tt
              else ret tt
            else ret tt)) ;;
        ret true
      else ret false) ;;
    ret tt).

Definition generate_forest_elements : M Heap unit :=
  log_obj <- lift (obj_named "log") ;;
  bush_obj <- lift (obj_named "bush") ;;
  num_logs <- random_randint 0 3 ;;
  for_each (range 0 num_logs) (fun _ =>
    for_break (range 0 5) (fun attempt =>
      x <- random_randint 0 (CHUNK_SIZE - 1) ;;
      y <- random_randint 0 (CHUNK_SIZE - 1) ;;
      tree_nearby <- nearby "tree" y x ;;
      good <- (if tree_nearby || (3 <? attempt) then
                 nm <- tile_name y x ;;
                 ret (String.eqb nm "grass")
               else ret false) ;;
      if good then write_tile y x log_obj ;; ret true
      else ret false) ;;
    ret tt) ;;
  num_bushes <- random_randint 1 5 ;;
  for_each (range 0 num_bushes) (fun _ =>
    for_break (range 0 5) (fun attempt =>
      x <- random_randint 0 (CHUNK_SIZE - 1) ;;
      y <- random_randint 0 (CHUNK_SIZE - 1) ;;
      nm <- tile_name y x ;;
      if String.eqb nm "grass" then write_tile y x bush_obj ;; ret true
      else ret false) ;;
    ret tt).

Definition generate_animals : M Heap unit :=
  rabbit_obj <- lift (obj_named "rabbit") ;;
  bird_obj <- lift (obj_named "bird") ;;
  num_rabbits <- random_randint 0 2 ;;
  for_each (range 0 num_rabbits) (fun _ =>
    for_break (range 0 5) (fun attempt =>
      x <- random_randint 0 (CHUNK_SIZE - 1) ;;
      y <- random_randint 0 (CHUNK_SIZE - 1) ;;
      nm <- tile_name y x ;;
      if String.eqb nm "grass" then write_tile y x rabbit_obj ;; ret true
      else ret false) ;;
    ret tt) ;;
  num_birds <- random_randint 0 2 ;;
  for_each (range 0 num_birds) (fun _ =>
    u <- random_random ;;
    let bird_in_tree := (u <? 0.5)%float in
    for_break (range 0 5) (fun attempt =>
      x <- random_randint 0 (CHUNK_SIZE - 1) ;;
      y <- random_randint 0 (CHUNK_SIZE - 1) ;;
      in_tree <- (if bird_in_tree then
                    nm <- tile_name y x ;; ret (String.eqb nm "tree")
                  else ret false) ;;
      if in_tree then write_tile y x bird_obj ;; ret true
      else
        on_ground <- (if negb bird_in_tree then
                        nm <- tile_name y x ;; ret (String.eqb nm "grass")
                      else ret false) ;;
        if on_ground then write_tile y x bird_obj ;; ret true
        else ret false) ;;
    ret tt).

(** [if c: body] *)
Definition when {S} (c : bool) (body : M S unit) : M S unit :=
  if c then body else ret tt.

Definition generate_features : M Heap unit :=
  cx <- (fun h => Ok (chunk_x (self h), h)) ;;
  cy <- (fun h => Ok (chunk_y (self h), h)) ;;
  when ((Z.abs cx <=? 2) || (Z.abs cy <=? 2)) generate_path ;;
  u <- random_random ;;
  when (u <? 0.7)%float generate_trees ;;
  u <- random_random ;;
  when (u <? 0.4)%float generate_water ;;
  c <- (if (Z.abs cx <=? 3) && (Z.abs cy <=? 3) then ret true
        else u <- random_random ;; ret (u <? 0.2)%float) ;;
  when c generate_houses ;;
  u <- random_random ;;
  when (u <? 0.6)%float generate_forest_elements ;;
  u <- random_random ;;
  when (u <? 0.4)%float generate_animals.

(** The grid of [CHUNK_SIZE] rows of [CHUNK_SIZE] grass tiles that
    [generate_tiles] starts from. *)
Definition grass_grid : Result (list (list ObjType)) :=
  match obj_named "grass" with
  | Ok grass =>
      Ok ((fun _ => (fun _ => grass) <$> range 0 CHUNK_SIZE)
            <$> range 0 CHUNK_SIZE)
  | Raise e => Raise e
  end.

(** The seed string [f"{self.chunk_x}-{self.chunk_y}"]. *)
Definition seed_of (cx cy : Z) : string :=
  pretty cx +:+ "-" +:+ pretty cy.

(** [Chunk.generate_tiles]: the state is the chunk and the whole
    [random] module, which is seeded from the coordinates before the
    features are placed and reseeded from the system afterwards. *)
Definition generate_tiles : M (Chunk * RandomModule rng) unit :=
  fun '(c, r) =>
    match grass_grid with
    | Ok g =>
        let c := set_tiles g c in
        let r := random_seed_str (seed_of (chunk_x c) (chunk_y c)) r in
        match generate_features {| self := c; mt := rm_state r |} with
        | Ok (_, h) =>
            let r := {| rm_state := mt h; os_entropy := os_entropy r |} in
            Ok (tt, (self h, random_seed_os r))
        | Raise e => Raise e
        end
    | Raise e => Raise e
    end.

(** [Chunk(chunk_x, chunk_y)] *)
Definition Chunk_new (cx cy : Z) : M (RandomModule rng) Chunk :=
  fun r =>
    let c := {| chunk_x := cx; chunk_y := cy; tiles := []; objects := [] |} in
    match generate_tiles (c, r) with
    | Ok (_, (c, r)) => Ok (c, r)
    | Raise e => Raise e
    end.

End Generation.

(* ================================================================== *)
(** * The world: chunk registry and lookups *)

(** A reference to a game object: the chunk that owns it and its index in
    that chunk's [objects] list. *)
Record ObjRef := {
  ref_chunk : Z * Z;
  ref_index : nat
}.

Record World := {
  chunks : gmap (Z * Z) Chunk;
  active_chunks : gset (Z * Z);
  render_distance : Z;
  last_player_chunk : option (Z * Z)
}.

(** [World()]: [last_player_chunk] is an attribute that does not exist
    before the first [update_active_chunks]. *)
Definition World_new : World :=
  {| chunks := ∅; active_chunks := ∅; render_distance := 2;
     last_player_chunk := None |}.

Definition set_chunks (m : gmap (Z * Z) Chunk) (w : World) : World :=
  {| chunks := m; active_chunks := active_chunks w;
     render_distance := render_distance w;
     last_player_chunk := last_player_chunk w |}.

(** [tile // CHUNK_SIZE] and [tile % CHUNK_SIZE]: Python's floor division
    and modulo, which for the positive divisor are [Z.div] and [Z.modulo]. *)
Definition chunk_coord (tile : Z) : Z := tile / CHUNK_SIZE.
Definition local_coord (tile : Z) : Z := tile mod CHUNK_SIZE.

(** [Chunk.get_tile] *)
Definition Chunk_get_tile (c : Chunk) (local_x local_y : Z)
    : Result (option ObjType) :=
  if (0 <=? local_x) && (local_x <? CHUNK_SIZE)
     && (0 <=? local_y) && (local_y <? CHUNK_SIZE)
  then match py_getitem (tiles c) local_y with
       | Ok row => match py_getitem row local_x with
                   | Ok t => Ok (Some t)
                   | Raise e => Raise e
                   end
       | Raise e => Raise e
       end
  else Ok None.

(** [Chunk.get_world_position] *)
Definition get_world_position (c : Chunk) (local_x local_y : Z) : Z * Z :=
  (chunk_x c * CHUNK_SIZE + local_x, chunk_y c * CHUNK_SIZE + local_y).

(** [GameObject(x, y, obj_type)], drawing [variation] from the generator *)
Definition GameObject_new (x y : Z) (t : ObjType) (v : float) : GameObject :=
  {| go_x := x; go_y := y; go_width := TILE_SIZE; go_height := TILE_SIZE;
     obj_type := t; go_color := color t;
     revealed := false; translation_shown := false; mastered := false;
     variation := v |}.

(** [GameObject.get_tile_position] *)
Definition get_tile_position (o : GameObject) : Z * Z :=
  (go_x o / TILE_SIZE, go_y o / TILE_SIZE).

Definition set_objects (l : list GameObject) (c : Chunk) : Chunk :=
  {| chunk_x := chunk_x c; chunk_y := chunk_y c;
     tiles := tiles c; objects := l |}.

Section World.
Context {rng : Type} `{!RandomGen rng}.

(** The state that the methods of [World] read and write. *)
Definition WState : Type := (World * RandomModule rng)%type.

(** [World.get_chunk] *)
Definition get_chunk (cx cy : Z) : M WState Chunk :=
  fun '(w, r) =>
    match chunks w !! (cx, cy) with
    | Some c => Ok (c, (w, r))
    | None =>
        match Chunk_new cx cy r with
        | Ok (c, r') => Ok (c, (set_chunks (<[(cx, cy) := c]> (chunks w)) w, r'))
        | Raise e => Raise e
        end
    end.

(** [World.get_tile] *)
Definition World_get_tile (tile_x tile_y : Z) : M WState (option ObjType) :=
  let cx := chunk_coord tile_x in
  let cy := chunk_coord tile_y in
  let local_x := local_coord tile_x in
  let local_y := local_coord tile_y in
  chunk <- get_chunk cx cy ;;
  lift (Chunk_get_tile chunk local_x local_y).

(** [World.is_tile_passable]: a game-object dict is never empty, so
    [if tile:] only tests for [None]. *)
Definition is_tile_passable (tile_x tile_y : Z) : M WState bool :=
  tile <- World_get_tile tile_x tile_y ;;
  match tile with
  | Some t => ret (passable t)
  | None => ret false
  end.

(** [Chunk.create_game_objects] *)
Definition create_game_objects : M (@Heap rng) (list GameObject) :=
  (fun h => Ok (tt, {| self := set_objects [] (self h); mt := mt h |})) ;;
  for_each (range 0 CHUNK_SIZE) (fun y =>
    for_each (range 0 CHUNK_SIZE) (fun x =>
      c <- (fun h => Ok (self h, h)) ;;
      let '(world_x, world_y) := get_world_position c x y in
      t <- read_tile y x ;;
      v <- random_random ;;
      let o := GameObject_new (world_x * TILE_SIZE) (world_y * TILE_SIZE) t v in
      fun h => Ok (tt, {| self := set_objects (objects (self h) ++ [o]) (self h);
                          mt := mt h |}))) ;;
  fun h => Ok (objects (self h), h).

(** Whether [manhattan_dist > self.render_distance * 1.5] is false for the
chunk [(x, y)], decided exactly on the integers. *)
Definition within_view (w : World) (pcx pcy x y : Z) : bool :=
  negb (3 * render_distance w <? 2 * (Z.abs (x - pcx) + Z.abs (y - pcy))).

(** The chunk keys that the two loops of [update_active_chunks] keep, in
the order in which they visit them. *)
Definition view_keys (w : World) (pcx pcy : Z) : list (Z * Z) :=
  let rd := render_distance w in
  y ← range (pcy - rd) (pcy + rd + 1);
  x ← range (pcx - rd) (pcx + rd + 1);
  if within_view w pcx pcy x y then [(x, y)] else [].

(** [World.update_active_chunks] *)
Definition update_active_chunks (pcx pcy : Z) : M WState unit :=
  fun '(w, r) =>
    if decide (last_player_chunk w = Some (pcx, pcy)) then Ok (tt, (w, r))
    else
      let keys := view_keys w pcx pcy in
      let old_active := active_chunks w in
      let w := {| chunks := chunks w; active_chunks := active_chunks w;
                  render_distance := render_distance w;
                  last_player_chunk := Some (pcx, pcy) |} in
      match for_each keys (fun '(x, y) =>
                if decide ((x, y) ∈ old_active) then ret tt
                else get_chunk x y ;; ret tt) (w, r) with
      | Ok (_, (w, r)) =>
          Ok (tt, ({| chunks := chunks w; active_chunks := list_to_set keys;
                      render_distance := render_distance w;
                      last_player_chunk := last_player_chunk w |}, r))
      | Raise e => Raise e
      end.

(** The loop of [get_objects_in_active_chunks] over the active chunk
coordinates [coords], with the list [acc] collected so far. *)
Fixpoint collect_objects (coords : list (Z * Z)) (acc : list GameObject)
    : M WState (list GameObject) :=
  match coords with
  | [] => ret acc
  | chunk_coord :: rest =>
      fun '(w, r) =>
        match chunks w !! chunk_coord with
        | None => Raise KeyError
        | Some chunk =>
            match objects chunk with
            | _ :: _ => collect_objects rest (acc ++ objects chunk) (w, r)
            | [] =>
                match create_game_objects {| self := chunk; mt := rm_state r |} with
                | Ok (objs, h) =>
                    collect_objects rest (acc ++ objs)
                      (set_chunks (<[chunk_coord := self h]> (chunks w)) w,
                       {| rm_state := mt h; os_entropy := os_entropy r |})
                | Raise e => Raise e
                end
            end
        end
  end.

(** [World.get_objects_in_active_chunks]; the set of active chunks is
visited in the order of [elements]. *)
Definition get_objects_in_active_chunks : M WState (list GameObject) :=
  fun '(w, r) => collect_objects (elements (active_chunks w)) [] (w, r).

End World.

(** [World.get_object_at_tile]: the first object of the owning chunk whose
    tile position is the queried one, as a reference into the world.  The
    method is written over the world as its state, like the methods that
    do change it. *)
Definition get_object_at_tile (tile_x tile_y : Z) : M World (option ObjRef) :=
  fun w =>
    let chunk_key := (chunk_coord tile_x, chunk_coord tile_y) in
    match chunks w !! chunk_key with
    | Some chunk =>
        match list_find (fun obj => get_tile_position obj = (tile_x, tile_y))
                        (objects chunk) with
        | Some (i, _) => Ok (Some {| ref_chunk := chunk_key; ref_index := i |}, w)
        | None => Ok (None, w)
        end
    | None => Ok (None, w)
    end.

(** The object a reference points to. *)
Definition deref (w : World) (ref : ObjRef) : option GameObject :=
  c ← chunks w !! ref_chunk ref; objects c !! ref_index ref.

(** [obj.field = ...] through a reference. *)
Definition update_obj (ref : ObjRef) (f : GameObject -> GameObject)
    (w : World) : World :=
  match chunks w !! ref_chunk ref with
  | Some c =>
      match objects c !! ref_index ref with
      | Some o =>
          set_chunks (<[ref_chunk ref :=
                         set_objects (<[ref_index ref := f o]> (objects c)) c]>
                        (chunks w)) w
      | None => w
      end
  | None => w
  end.

(* ================================================================== *)
(** * The player: movement, facing and the word ledger *)

(** One entry of [Player.words_learned[language]]. *)
Record WordData := {
  word : PyVal;
  wd_english : string;
  views : Z;
  wd_mastered : bool
}.

Module Player.

Record t := {
  x : Z;
  y : Z;
  width : Z;
  height : Z;
  normal_speed : Z;
  sprint_speed : Z;
  speed : Z;
  score : Z;
  words_learned : gmap string (gmap string WordData);
  direction : Z;
  tile_x : Z;
  tile_y : Z;
  chunk_x : Z;
  chunk_y : Z;
  animation_frame : Z;
  is_moving : bool;
  animation_speed : Z;
  animation_counter : Z;
  interaction_target : option ObjRef;
  camera_offset_x : Z;
  camera_offset_y : Z;
  (** set by [update_interaction_target] only: the attribute does not
      exist on a player that has not moved yet *)
  interaction_range : option Z
}.

(** [Player(x, y)] *)
Definition new (x0 y0 : Z) : t :=
  {| x := x0; y := y0; width := TILE_SIZE; height := TILE_SIZE;
     normal_speed := 3; sprint_speed := 8; speed := 3;
     score := 0; words_learned := ∅; direction := DIRECTION_DOWN;
     tile_x := x0 / TILE_SIZE; tile_y := y0 / TILE_SIZE;
     chunk_x := x0 / TILE_SIZE / CHUNK_SIZE;
     chunk_y := y0 / TILE_SIZE / CHUNK_SIZE;
     animation_frame := 0; is_moving := false; animation_speed := 8;
     animation_counter := 0; interaction_target := None;
     camera_offset_x := 0; camera_offset_y := 0;
     interaction_range := None |}.

Definition set_motion (sp : Z) (moving : bool) (counter frame dir : Z)
    (p : t) : t :=
  {| x := x p; y := y p; width := width p; height := height p;
     normal_speed := normal_speed p; sprint_speed := sprint_speed p;
     speed := sp;
     score := score p; words_learned := words_learned p;
     direction := dir;
     tile_x := tile_x p; tile_y := tile_y p;
     chunk_x := chunk_x p; chunk_y := chunk_y p;
     animation_frame := frame; is_moving := moving;
     animation_speed := animation_speed p;
     animation_counter := counter;
     interaction_target := interaction_target p;
     camera_offset_x := camera_offset_x p;
     camera_offset_y := camera_offset_y p;
     interaction_range := interaction_range p |}.

Definition set_direction (dir : Z) (p : t) : t :=
  set_motion (speed p) (is_moving p) (animation_counter p)
             (animation_frame p) dir p.

Definition set_position (nx ny ntx nty : Z) (p : t) : t :=
  {| x := nx; y := ny; width := width p; height := height p;
     normal_speed := normal_speed p; sprint_speed := sprint_speed p;
     speed := speed p;
     score := score p; words_learned := words_learned p;
     direction := direction p;
     tile_x := ntx; tile_y := nty;
     chunk_x := ntx / CHUNK_SIZE; chunk_y := nty / CHUNK_SIZE;
     animation_frame := animation_frame p; is_moving := is_moving p;
     animation_speed := animation_speed p;
     animation_counter := animation_counter p;
     interaction_target := interaction_target p;
     camera_offset_x := camera_offset_x p;
     camera_offset_y := camera_offset_y p;
     interaction_range := interaction_range p |}.

Definition set_target (target : option ObjRef) (rg : option Z) (p : t) : t :=
  {| x := x p; y := y p; width := width p; height := height p;
     normal_speed := normal_speed p; sprint_speed := sprint_speed p;
     speed := speed p;
     score := score p; words_learned := words_learned p;
     direction := direction p;
     tile_x := tile_x p; tile_y := tile_y p;
     chunk_x := chunk_x p; chunk_y := chunk_y p;
     animation_frame := animation_frame p; is_moving := is_moving p;
     animation_speed := animation_speed p;
     animation_counter := animation_counter p;
     interaction_target := target;
     camera_offset_x := camera_offset_x p;
     camera_offset_y := camera_offset_y p;
     interaction_range := rg |}.

Definition set_progress (sc : Z) (wl : gmap string (gmap string WordData))
    (p : t) : t :=
  {| x := x p; y := y p; width := width p; height := height p;
     normal_speed := normal_speed p; sprint_speed := sprint_speed p;
     speed := speed p;
     score := sc; words_learned := wl;
     direction := direction p;
     tile_x := tile_x p; tile_y := tile_y p;
     chunk_x := chunk_x p; chunk_y := chunk_y p;
     animation_frame := animation_frame p; is_moving := is_moving p;
     animation_speed := animation_speed p;
     animation_counter := animation_counter p;
     interaction_target := interaction_target p;
     camera_offset_x := camera_offset_x p;
     camera_offset_y := camera_offset_y p;
     interaction_range := interaction_range p |}.

(** The [if dx > 0 ... elif dy < 0] chain of [move]: the facing that the
    requested delta asks for, given the facing so far. *)
Definition move_direction (dx dy : Z) (dir : Z) : Z :=
  if 0 <? dx then DIRECTION_RIGHT
  else if dx <? 0 then DIRECTION_LEFT
  else if 0 <? dy then DIRECTION_DOWN
  else if dy <? 0 then DIRECTION_UP
  else dir.

(** The facing that [get_facing_tile_position] derives from the offset of
    the pointer from the player's centre. *)
Definition pointer_direction (dx dy : Z) : Z :=
  if Z.abs dy <? Z.abs dx then
    if 0 <? dx then DIRECTION_RIGHT else DIRECTION_LEFT
  else
    if 0 <? dy then DIRECTION_DOWN else DIRECTION_UP.

(** [Player.get_facing_tile_position]; [mouse] is what
    [pygame.mouse.get_pos()] returns. *)
Definition get_facing_tile_position (mouse : Z * Z) (p : t) : (Z * Z) * t :=
  let '(mouse_x, mouse_y) := mouse in
  let world_mouse_x := mouse_x + camera_offset_x p in
  let world_mouse_y := mouse_y + camera_offset_y p in
  let dx := world_mouse_x - (x p + width p / 2) in
  let dy := world_mouse_y - (y p + height p / 2) in
  let p := set_direction (pointer_direction dx dy) p in
  ((world_mouse_x / TILE_SIZE, world_mouse_y / TILE_SIZE), p).

(** The steps of [move] before the passability test: speed tier,
    animation bookkeeping and the facing asked for by the delta. *)
Definition begin_move (dx dy : Z) (is_sprinting : bool) (p : t) : t :=
  let sp := if is_sprinting then sprint_speed p else normal_speed p in
  let moving := negb (dx =? 0) || negb (dy =? 0) in
  let '(counter, frame) :=
    if moving then
      let c := animation_counter p + 1 in
      if animation_speed p <=? c then (0, (animation_frame p + 1) mod 4)
      else (c, animation_frame p)
    else (0, 0) in
  set_motion sp moving counter frame (move_direction dx dy (direction p)) p.

Section Methods.
Context {rng : Type} `{!RandomGen rng}.

(** [Player.update_interaction_target] *)
Definition update_interaction_target (mouse : Z * Z) (p : t)
    : M (@WState rng) t :=
  let '((facing_x, facing_y), p) := get_facing_tile_position mouse p in
  fun '(w, r) =>
    match get_object_at_tile facing_x facing_y w with
    | Ok (target, w') => Ok (set_target target (Some 150) p, (w', r))
    | Raise e => Raise e
    end.

(** [Player.move] *)
Definition move (dx dy : Z) (is_sprinting : bool) (mouse : Z * Z) (p : t)
    : M (@WState rng) t :=
  let p := begin_move dx dy is_sprinting p in
  let new_x := x p + dx in
  let new_y := y p + dy in
  let new_tile_x := new_x / TILE_SIZE in
  let new_tile_y := new_y / TILE_SIZE in
  ok <- is_tile_passable new_tile_x new_tile_y ;;
  let p := if ok then set_position new_x new_y new_tile_x new_tile_y p
           else p in
  update_interaction_target mouse p.

End Methods.

(** [self.words_learned[language]] on the [defaultdict(dict)]: a missing
    language is inserted with an empty dict. *)
Definition language_words (language : string)
    (wl : gmap string (gmap string WordData)) : gmap string WordData :=
  default ∅ (wl !! language).

(** [Player.learn_word]: the entry it returns, and the player after. *)
Definition learn_word (obj_type : ObjType) (language : string) (p : t)
    : Result (WordData * t) :=
  match obj_getitem obj_type language with
  | Raise e => Raise e
  | Ok w =>
      let eng := english obj_type in
      let nm := name obj_type in
      let words := language_words language (words_learned p) in
      match words !! nm with
      | None =>
          let entry := {| word := w; wd_english := eng; views := 1;
                          wd_mastered := false |} in
          Ok (entry,
              set_progress (score p + 10)
                (<[language := <[nm := entry]> words]> (words_learned p)) p)
      | Some e =>
          let v := views e + 1 in
          let '(entry, sc) :=
            if (5 <=? v) && negb (wd_mastered e) then
              ({| word := word e; wd_english := wd_english e; views := v;
                  wd_mastered := true |}, score p + 50)
            else if negb (wd_mastered e) then
              ({| word := word e; wd_english := wd_english e; views := v;
                  wd_mastered := wd_mastered e |}, score p + 2)
            else
              ({| word := word e; wd_english := wd_english e; views := v;
                  wd_mastered := wd_mastered e |}, score p) in
          Ok (entry,
              set_progress sc
                (<[language := <[nm := entry]> words]> (words_learned p)) p)
      end
  end.

End Player.

(* ================================================================== *)
(** * Drawing: the only writer of an object's [mastered] flag *)

(** The test at the end of [GameObject.draw]: is there a mastered entry for
    this name in the ledger of the language being learned? *)
Definition is_mastered (words_learned : gmap string (gmap string WordData))
    (target_language nm : string) : bool :=
  match words_learned !! target_language with
  | Some words =>
      match words !! nm with
      | Some e => wd_mastered e
      | None => false
      end
  | None => false
  end.

Definition set_mastered (b : bool) (o : GameObject) : GameObject :=
  {| go_x := go_x o; go_y := go_y o; go_width := go_width o;
     go_height := go_height o; obj_type := obj_type o;
     go_color := go_color o; revealed := revealed o;
     translation_shown := translation_shown o; mastered := b;
     variation := variation o |}.

(** Whether [draw] returns early because the object is off the screen. *)
Definition off_screen (o : GameObject) (offset_x offset_y screen_w screen_h : Z)
    : bool :=
  let screen_x := go_x o - offset_x in
  let screen_y := go_y o - offset_y in
  (screen_x + go_width o <? 0) || (screen_w <? screen_x)
  || (screen_y + go_height o <? 0) || (screen_h <? screen_y).

(** [GameObject.draw], as far as it changes the object; the pixels it
    paints are not modelled.  [screen_w] and [screen_h] are the display
    size that pygame reports. *)
Definition GameObject_draw (offset_x offset_y : Z) (target_language : string)
    (words_learned : gmap string (gmap string WordData))
    (screen_w screen_h : Z) (o : GameObject) : GameObject :=
  if off_screen o offset_x offset_y screen_w screen_h then o
  else if is_mastered words_learned target_language (name (obj_type o))
       then set_mastered true o
       else o.

(** What [draw] paints over a revealed object: the value it renders as
    text and the background colour of the text. *)
Record Label := {
  label_text : PyVal;
  label_bg : Color
}.

(** The end of [GameObject.draw]: the label of an object that is on the
    screen and revealed.  [is_mastered] is the local variable of that
    name, computed from the ledger passed to this call; the background is
    yellow for a mastered word and white otherwise.  The text is the
    English word when the translation is shown, and otherwise
    [obj_type[target_language]], a [KeyError] when the object type has no
    such key.  The shapes painted for the tile itself are not modelled. *)
Definition draw_label (offset_x offset_y : Z) (target_language : string)
    (words_learned : gmap string (gmap string WordData))
    (screen_w screen_h : Z) (o : GameObject) : Result (option Label) :=
  if off_screen o offset_x offset_y screen_w screen_h then Ok None
  else
    let is_mastered :=
      is_mastered words_learned target_language (name (obj_type o)) in
    if revealed o then
      let bg_color := if is_mastered then YELLOW else WHITE in
      if translation_shown o then
        match obj_getitem (obj_type o) "english" with
        | Ok text => Ok (Some {| label_text := text; label_bg := bg_color |})
        | Raise e => Raise e
        end
      else
        match obj_getitem (obj_type o) target_language with
        | Ok text => Ok (Some {| label_text := text; label_bg := bg_color |})
        | Raise e => Raise e
        end
    else Ok None.

(** [GameObject.toggle_translation] *)
Definition toggle_translation (o : GameObject) : GameObject :=
  {| go_x := go_x o; go_y := go_y o; go_width := go_width o;
     go_height := go_height o; obj_type := obj_type o;
     go_color := go_color o; revealed := revealed o;
     translation_shown := negb (translation_shown o); mastered := mastered o;
     variation := variation o |}.

Definition set_revealed (b : bool) (o : GameObject) : GameObject :=
  {| go_x := go_x o; go_y := go_y o; go_width := go_width o;
     go_height := go_height o; obj_type := obj_type o;
     go_color := go_color o; revealed := b;
     translation_shown := translation_shown o; mastered := mastered o;
     variation := variation o |}.

(* ================================================================== *)
(** * The game: click interaction *)

(** [float(n)] for an int [n]: the double nearest to [n], ties to even,
    and an [OverflowError] when [n] is too large for a double. *)
Definition float_of_int (n : Z) : Result float :=
  let x := SF2Prim (binary_normalize prec emax n 0 false) in
  if PrimFloat.is_infinity x then Raise OverflowError else Ok x.

(** [math.sqrt(n)] for an int [n]: the argument is converted to a double,
    a negative one is a [ValueError], and the root is the correctly
    rounded one of IEEE 754. *)
Definition math_sqrt (n : Z) : Result float :=
  match float_of_int n with
  | Raise e => Raise e
  | Ok x =>
      if PrimFloat.ltb x 0%float then Raise ValueError
      else Ok (PrimFloat.sqrt x)
  end.

(** [x <= r] for a float [x] and an int [r].  An int of at most 48 bits is
    converted to a double, which is exact, and the doubles are compared;
    a longer one is compared with the value of [x]. *)
Definition float_le_int (x : float) (r : Z) : bool :=
  if Z.log2 (Z.abs r) <? 48 then
    PrimFloat.leb x (SF2Prim (binary_normalize prec emax r 0 false))
  else
    match Prim2SF x with
    | S754_nan => false
    | S754_infinity s => s
    | S754_zero _ => 0 <=? r
    | S754_finite s m e =>
        let v := if s then Z.neg m else Z.pos m in
        if 0 <=? e then v * 2 ^ e <=? r else v <=? r * 2 ^ (- e)
    end.

(** Whether, for the double of the 63-bit integer [i], the conversion is
    finite and not negative and the test [math.sqrt(i) <= 150] is the
    test [i <= 150 * 150]. *)
Definition sqrt_150_agrees (i : int) : bool :=
  let x := PrimFloat.of_uint63 i in
  negb (PrimFloat.is_infinity x) && negb (PrimFloat.ltb x 0%float)
  && Bool.eqb (PrimFloat.leb (PrimFloat.sqrt x) 150%float)
              (Uint63.leb i 22500%uint63).

(** [sqrt_150_agrees] on the [2 ^ d] integers from [lo] on, where [step]
    is [2 ^ d]. *)
Fixpoint all_from (d : nat) (lo step : int) : bool :=
  match d with
  | O => sqrt_150_agrees lo
  | S d' =>
      let half := Uint63.lsr step 1%uint63 in
      all_from d' lo half && all_from d' (Uint63.add lo half) half
  end.

Module Game.

(** The fields of [Game] that interaction reads and writes.
    [current_word_data] is a reference to a ledger entry: the language
    and the name it is stored under. *)
Record t := {
  player : Player.t;
  world : World;
  target_language : string;
  show_word_display : bool;
  word_display_timer : Z;
  current_word_data : option (string * string);
  word_display_showing_translation : bool;
  camera_x : Z;
  camera_y : Z
}.

(** The squared distance from the player's centre to the pointer's
    world position. *)
Definition click_distance2 (mouse : Z * Z) (g : t) : Z :=
  let '(mouse_x, mouse_y) := mouse in
  let world_mouse_x := mouse_x + camera_x g in
  let world_mouse_y := mouse_y + camera_y g in
  let player_center_x := Player.x (player g) + Player.width (player g) / 2 in
  let player_center_y := Player.y (player g) + Player.height (player g) / 2 in
  (world_mouse_x - player_center_x) ^ 2 + (world_mouse_y - player_center_y) ^ 2.

(** [Game.handle_mouse_interaction]; [mouse] is what
    [pygame.mouse.get_pos()] returns.  The distance is computed first, and
    the player's [interaction_range] is read when it is compared. *)
Definition handle_mouse_interaction (mouse : Z * Z) (g : t) : Result t :=
  let '(mouse_x, mouse_y) := mouse in
  let world_mouse_x := mouse_x + camera_x g in
  let world_mouse_y := mouse_y + camera_y g in
  match math_sqrt (click_distance2 mouse g) with
  | Raise e => Raise e
  | Ok distance =>
  match Player.interaction_range (player g) with
  | None => Raise AttributeError
  | Some interaction_range =>
      if float_le_int distance interaction_range then
        let tile_x := world_mouse_x / TILE_SIZE in
        let tile_y := world_mouse_y / TILE_SIZE in
        match get_object_at_tile tile_x tile_y (world g) with
        | Raise e => Raise e
        | Ok (None, w) =>
            Ok {| player := player g; world := w;
                  target_language := target_language g;
                  show_word_display := show_word_display g;
                  word_display_timer := word_display_timer g;
                  current_word_data := current_word_data g;
                  word_display_showing_translation :=
                    word_display_showing_translation g;
                  camera_x := camera_x g; camera_y := camera_y g |}
        | Ok (Some ref, w) =>
            match deref w ref with
            | None => Raise IndexError   (* a reference just returned is valid *)
            | Some obj =>
                if revealed obj then
                  let w := update_obj ref toggle_translation w in
                  let word_key := name (obj_type obj) in
                  let wl := Player.words_learned (player g) in
                  let words := Player.language_words (target_language g) wl in
                  let p := Player.set_progress (Player.score (player g))
                             (<[target_language g := words]> wl) (player g) in
                  match words !! word_key with
                  | Some _ =>
                      Ok {| player := p; world := w;
                            target_language := target_language g;
                            show_word_display := true;
                            word_display_timer := 180;
                            current_word_data :=
                              Some (target_language g, word_key);
                            word_display_showing_translation :=
                              negb (translation_shown obj);
                            camera_x := camera_x g; camera_y := camera_y g |}
                  | None =>
                      Ok {| player := p; world := w;
                            target_language := target_language g;
                            show_word_display := show_word_display g;
                            word_display_timer := word_display_timer g;
                            current_word_data := current_word_data g;
                            word_display_showing_translation :=
                              word_display_showing_translation g;
                            camera_x := camera_x g; camera_y := camera_y g |}
                  end
                else
                  let w := update_obj ref (set_revealed true) w in
                  match Player.learn_word (obj_type obj) (target_language g)
                                          (player g) with
                  | Raise e => Raise e
                  | Ok (_, p) =>
                      Ok {| player := p; world := w;
                            target_language := target_language g;
                            show_word_display := true;
                            word_display_timer := 432;
                            current_word_data :=
                              Some (target_language g, name (obj_type obj));
                            word_display_showing_translation := false;
                            camera_x := camera_x g; camera_y := camera_y g |}
                  end
            end
        end
      else Ok g
  end
  end.

End Game.

(* ================================================================== *)
(** * Loading the save file *)

(** A value that [json.load] returns. *)
Inductive json :=
  | JNull
  | JBool (b : bool)
  | JInt (n : Z)
  | JFloat (f : float)
  | JStr (s : string)
  | JArr (items : list json)
  | JObj (fields : list (string * json)).

(** What opening and parsing [save_game.json] comes to. *)
Inductive SaveFile :=
  | NoFile                      (* [open] raises [FileNotFoundError] *)
  | NotJSON                     (* [json.load] raises [JSONDecodeError] *)
  | Parsed (save_data : json).

Fixpoint assoc (key : string) (fields : list (string * json)) : option json :=
  match fields with
  | [] => None
  | (k, v) :: rest => if String.eqb k key then Some v else assoc key rest
  end.

(** [d.get(key, dflt)] *)
Definition json_get (d : json) (key : string) (dflt : json) : Result json :=
  match d with
  | JObj fields => Ok (default dflt (assoc key fields))
  | _ => Raise AttributeError
  end.

(** [d[key]] for a string key *)
Definition json_getitem (d : json) (key : string) : Result json :=
  match d with
  | JObj fields =>
      match assoc key fields with
      | Some v => Ok v
      | None => Raise KeyError
      end
  | _ => Raise TypeError
  end.

(** [d.items()] *)
Definition json_items (d : json) : Result (list (string * json)) :=
  match d with
  | JObj fields => Ok fields
  | _ => Raise AttributeError
  end.

(** [key in d], where [d] is known to be a dict: the value found. *)
Definition json_member (key : string) (d : json) : option json :=
  match d with
  | JObj fields => assoc key fields
  | _ => None
  end.

(** [x // TILE_SIZE] is defined on numbers only. *)
Definition is_number (j : json) : bool :=
  match j with
  | JInt _ | JFloat _ | JBool _ => true
  | _ => false
  end.

Module Loader.

(** The player that [load_progress] builds: [Player(pos_x, pos_y)] with
    the score and the ledger entries stored as they were parsed. *)
Record LoadedPlayer := {
  pos_x : json;
  pos_y : json;
  score : json;
  words_learned : gmap string (gmap string json)
}.

(** What [load_progress] may assign: [self.player] (absent until
    assigned), [self.target_language] and [CURRENT_WINDOW_MODE]. *)
Record t := {
  player : option LoadedPlayer;
  target_language : json;
  window_mode : json
}.

Definition WINDOW_MODE_FULLSCREEN : Z := 1.

(** The state in which [Game.__init__] calls [load_progress]. *)
Definition initial : t :=
  {| player := None; target_language := JStr "spanish";
     window_mode := JInt WINDOW_MODE_FULLSCREEN |}.

(** [Player(0, 0)] *)
Definition fresh_player : LoadedPlayer :=
  {| pos_x := JInt 0; pos_y := JInt 0; score := JInt 0; words_learned := ∅ |}.

(** [for word, data in words.items(): ledger[language][word] = data] *)
Definition load_words (language : string) (words : list (string * json))
    (ledger : gmap string (gmap string json)) : gmap string (gmap string json) :=
  fold_left (fun ledger '(w, data) =>
               <[language := <[w := data]> (default ∅ (ledger !! language))]> ledger)
            words ledger.

(** [for language, words in save_data["words_learned"].items(): ...] *)
Fixpoint load_ledger (langs : list (string * json))
    (ledger : gmap string (gmap string json))
    : Result (gmap string (gmap string json)) :=
  match langs with
  | [] => Ok ledger
  | (language, words) :: rest =>
      match json_items words with
      | Ok ws => load_ledger rest (load_words language ws ledger)
      | Raise e => Raise e
      end
  end.

(** The body of the [try] in [load_progress], after [json.load]. *)
Definition load_saved (save_data : json) (g : t) : Result t :=
  match json_get save_data "position" (JObj []) with
  | Raise e => Raise e
  | Ok position =>
  match json_get position "x" (JInt 0) with
  | Raise e => Raise e
  | Ok px =>
  match json_get position "y" (JInt 0) with
  | Raise e => Raise e
  | Ok py =>
  if negb (is_number px && is_number py) then Raise TypeError else
  match json_getitem save_data "score" with
  | Raise e => Raise e
  | Ok sc =>
  match json_getitem save_data "words_learned" with
  | Raise e => Raise e
  | Ok wl =>
  match json_items wl with
  | Raise e => Raise e
  | Ok langs =>
  match load_ledger langs ∅ with
  | Raise e => Raise e
  | Ok ledger =>
      let p := {| pos_x := px; pos_y := py; score := sc;
                  words_learned := ledger |} in
      match json_member "settings" save_data with
      | Some settings =>
          match json_get settings "language" (JStr "spanish") with
          | Raise e => Raise e
          | Ok lang =>
          match json_get settings "window_mode" (JInt WINDOW_MODE_FULLSCREEN) with
          | Raise e => Raise e
          | Ok wm =>
              Ok {| player := Some p; target_language := lang;
                    window_mode := wm |}
          end
          end
      | None =>
          Ok {| player := Some p; target_language := target_language g;
                window_mode := window_mode g |}
      end
  end end end end end end end.

(** [Game.load_progress]: only [FileNotFoundError] and [JSONDecodeError]
    are caught; both are raised before anything is assigned. *)
Definition load_progress (f : SaveFile) (g : t) : Result t :=
  match f with
  | NoFile | NotJSON => Ok g
  | Parsed save_data => load_saved save_data g
  end.

(** [self.player = Player(0, 0) if not hasattr(self, 'player') else
    self.player], after [load_progress] in [Game.__init__]. *)
Definition init_player (g : t) : LoadedPlayer :=
  default fresh_player (player g).

End Loader.

(* ================================================================== *)
(** * A concrete generator

    A 64-bit linear congruential generator, to run the model on. *)

Definition lcg_next (s : Z) : Z :=
  (s * 6364136223846793005 + 1442695040888963407) mod 2 ^ 64.

Definition lcg_seed (s : string) : Z :=
  fold_left (fun h c => (h * 31 + Z.of_N (Ascii.N_of_ascii c)) mod 2 ^ 64)
            (String.list_ascii_of_string s) 7.

Definition lcg_random (s : Z) : float * Z :=
  let s' := lcg_next s in
  ((PrimFloat.of_uint63 (Uint63.of_Z (s' / 2 ^ 11)) / 9007199254740992)%float, s').

Definition lcg_randbelow (n s : Z) : Z * Z :=
  let s' := lcg_next s in ((s' / 2 ^ 32) mod n, s').

#[export] Instance lcg_RandomGen : RandomGen Z := {|
  seed_str := lcg_seed;
  gen_random := lcg_random;
  randbelow := lcg_randbelow;
  randbelow_range := fun n g Hn => Z.mod_pos_bound (lcg_next g / 2 ^ 32) n Hn
|}.

(** A [random] module in some state, with some entropy to come. *)
Definition lcg_module : RandomModule Z :=
  {| rm_state := 2024; os_entropy := fun n => Z.of_nat n * 7919 + 1 |}.

(** A save file that has every field but the score. *)
Definition save_without_score : json :=
  JObj [ ("words_learned", JObj []);
         ("position", JObj [("x", JInt 96); ("y", JInt 64)]);
         ("settings", JObj [("language", JStr "french");
                            ("window_mode", JInt 0)]) ].

(** A save file that has every field but the position. *)
Definition save_without_position : json :=
  JObj [ ("score", JInt 12);
         ("words_learned", JObj []);
         ("settings", JObj [("language", JStr "french");
                            ("window_mode", JInt 0)]) ].

(** A game whose player has moved once (so that its interaction range is
    set) and stands at the origin of an empty world. *)
Definition game_at_origin : Game.t :=
  {| Game.player := Player.set_target None (Some 150) (Player.new 0 0);
     Game.world := World_new;
     Game.target_language := "spanish";
     Game.show_word_display := false;
     Game.word_display_timer := 0;
     Game.current_word_data := None;
     Game.word_display_showing_translation := false;
     Game.camera_x := -400;
     Game.camera_y := -300 |}.

(** A world to try the theorems on: the chunks around the origin have been
    made active and their objects have been built. *)
Definition streamed_world : World :=
  match (update_active_chunks 0 0 ;; get_objects_in_active_chunks)
          (World_new, lcg_module) with
  | Ok (_, (w, _)) => w
  | Raise _ => World_new
  end.

(** A game on [streamed_world]: the player has moved once and stands at
    the origin, with the camera centred on an 800 by 600 screen. *)
Definition streamed_game : Game.t :=
  {| Game.player := Player.set_target None (Some 150) (Player.new 0 0);
     Game.world := streamed_world;
     Game.target_language := "spanish";
     Game.show_word_display := false;
     Game.word_display_timer := 0;
     Game.current_word_data := None;
     Game.word_display_showing_translation := false;
     Game.camera_x := -400;
     Game.camera_y := -300 |}.

(** The game as [Game.__init__] leaves it when there is no save file: a
    new player at the origin, the camera at the origin, and the chunks
    around the player's chunk active (generated here with the stand-in
    generator). *)
Definition Game_initial : Game.t :=
  {| Game.player := Player.new 0 0;
     Game.world :=
       match update_active_chunks (Player.chunk_x (Player.new 0 0))
               (Player.chunk_y (Player.new 0 0)) (World_new, lcg_module) with
       | Ok (_, (w, _)) => w
       | Raise _ => World_new
       end;
     Game.target_language := "spanish";
     Game.show_word_display := false;
     Game.word_display_timer := 0;
     Game.current_word_data := None;
     Game.word_display_showing_translation := false;
     Game.camera_x := 0;
     Game.camera_y := 0 |}.

(** What a lookup found, and the score after a click, for stating the
    outcome of a run on a concrete game. *)
Definition found_ref (r : Result (option ObjRef * World)) : option ObjRef :=
  match r with
  | Ok (res, _) => res
  | Raise _ => None
  end.

Definition score_after (r : Result Game.t) : option Z :=
  match r with
  | Ok g => Some (Player.score (Game.player g))
  | Raise _ => None
  end.

(** The object [o] stands on the tile [(tile_x, tile_y)]: its pixel
    position lies in the square of [TILE_SIZE] pixels of that tile. *)
Definition stands_on (o : GameObject) (tile_x tile_y : Z) : Prop :=
  tile_x * TILE_SIZE <= go_x o < (tile_x + 1) * TILE_SIZE
  /\ tile_y * TILE_SIZE <= go_y o < (tile_y + 1) * TILE_SIZE.

(* ================================================================== *)
(** * Specifications *)

(** [m] returns normally from state [s], with a result and a final state
    that satisfy [Q]. *)
Definition total {S A} (m : M S A) (s : S) (Q : A -> S -> Prop) : Prop :=
  exists a s', m s = Ok (a, s') /\ Q a s'.

(** A grid of [CHUNK_SIZE] rows of [CHUNK_SIZE] tiles. *)
Definition grid_ok (t : list (list ObjType)) : Prop :=
  length t = Z.to_nat CHUNK_SIZE
  /\ Forall (fun row => length row = Z.to_nat CHUNK_SIZE) t.

(** Every registered chunk has a full grid. *)
Definition World_ok (w : World) : Prop :=
  forall k c, chunks w !! k = Some c -> grid_ok (tiles c).

(** From a heap whose chunk has a full grid, [m] returns normally with a
    result satisfying [P], and the chunk still has a full grid. *)
Definition spec {rng A} (m : M (@Heap rng) A) (P : A -> Prop) : Prop :=
  forall h, grid_ok (tiles (self h)) ->
            total m h (fun a h' => P a /\ grid_ok (tiles (self h'))).

(** The ledger entry for a name in a language, if any. *)
Definition ledger_entry (p : Player.t) (language nm : string) : option WordData :=
  Player.words_learned p !! language ≫= (.!! nm).

(** [n] reveals of [obj_type] in [language], one after the other. *)
Fixpoint learn_times (n : nat) (obj_type : ObjType) (language : string)
    (p : Player.t) : Result Player.t :=
  match n with
  | O => Ok p
  | S n' =>
      match learn_times n' obj_type language p with
      | Ok p' =>
          match Player.learn_word obj_type language p' with
          | Ok (_, p'') => Ok p''
          | Raise e => Raise e
          end
      | Raise e => Raise e
      end
  end.

(** Chunks generated one after the other, as [World.get_chunk] does for
    each coordinate it has not seen: the [random] module afterwards. *)
Fixpoint generate_all {rng} `{!RandomGen rng} (coords : list (Z * Z))
    (r : RandomModule rng) : Result (RandomModule rng) :=
  match coords with
  | [] => Ok r
  | (cx, cy) :: rest =>
      match Chunk_new cx cy r with
      | Ok (_, r') => generate_all rest r'
      | Raise e => Raise e
      end
  end.

(* ================================================================== *)
(** * Further specifications *)

(** Every tile of a grid satisfies [P]. *)
Definition all_tiles (P : ObjType -> Prop) (t : list (list ObjType)) : Prop :=
  Forall (Forall P) t.

(** What generation keeps of the chunk [c0] it started from: the
    coordinates and the object list, a full grid, and [P] on every tile. *)
Definition gen_inv {rng} (c0 : Chunk) (P : ObjType -> Prop) (h : @Heap rng)
    : Prop :=
  chunk_x (self h) = chunk_x c0
  /\ chunk_y (self h) = chunk_y c0
  /\ objects (self h) = objects c0
  /\ grid_ok (tiles (self h))
  /\ all_tiles P (tiles (self h)).

(** From a heap satisfying [gen_inv], [m] returns normally with a result
    satisfying [Q], and [gen_inv] still holds. *)
Definition keeps {rng A} (c0 : Chunk) (P : ObjType -> Prop)
    (m : M (@Heap rng) A) (Q : A -> Prop) : Prop :=
  forall h, gen_inv c0 P h -> total m h (fun a h' => Q a /\ gen_inv c0 P h').

(** Every active chunk is registered. *)
Definition Active_ok (w : World) : Prop :=
  forall k, k ∈ active_chunks w -> is_Some (chunks w !! k).


(** The cell of a chunk's grid at local [(x, y)]. *)
Definition cell (c : Chunk) (y x : Z) : option ObjType :=
  tiles c !! Z.to_nat y ≫= (.!! Z.to_nat x).

(** [o] is the object for local [(x, y)] of [c]: it stands at the pixel
    position of that tile and has that cell's type. *)
Definition object_at (c : Chunk) (y x : Z) (o : GameObject) : Prop :=
  go_x o = (chunk_x c * CHUNK_SIZE + x) * TILE_SIZE
  /\ go_y o = (chunk_y c * CHUNK_SIZE + y) * TILE_SIZE
  /\ go_width o = TILE_SIZE /\ go_height o = TILE_SIZE
  /\ cell c y x = Some (obj_type o).

(** [o] is as [GameObject.__init__] leaves an object. *)
Definition fresh_object (o : GameObject) : Prop :=
  revealed o = false /\ translation_shown o = false /\ mastered o = false
  /\ go_color o = color (obj_type o).

(** [objs] is one object per cell of [c], row after row: the object for
    local [(x, y)] is at index [y * CHUNK_SIZE + x]. *)
Definition objects_built (c : Chunk) (objs : list GameObject) : Prop :=
  length objs = Z.to_nat (CHUNK_SIZE * CHUNK_SIZE)
  /\ forall y x, 0 <= y < CHUNK_SIZE -> 0 <= x < CHUNK_SIZE ->
       exists o, objs !! Z.to_nat (y * CHUNK_SIZE + x) = Some o
                 /\ object_at c y x o.

(** A registered chunk carries its key as its coordinates, has a full grid,
    and either no objects yet or one object per cell. *)
Definition Chunk_wf (k : Z * Z) (c : Chunk) : Prop :=
  chunk_x c = k.1 /\ chunk_y c = k.2
  /\ grid_ok (tiles c)
  /\ (objects c = [] \/ objects_built c (objects c)).

Definition World_wf (w : World) : Prop :=
  forall k c, chunks w !! k = Some c -> Chunk_wf k c.

(** The tile and chunk coordinates a player carries are those of its
    position. *)
Definition Player_ok (p : Player.t) : Prop :=
  Player.tile_x p = Player.x p / TILE_SIZE
  /\ Player.tile_y p = Player.y p / TILE_SIZE
  /\ Player.chunk_x p = Player.tile_x p / CHUNK_SIZE
  /\ Player.chunk_y p = Player.tile_y p / CHUNK_SIZE.

(** Reveals one after the other, each of a cell type in a language. *)
Fixpoint learn_all (reveals : list (ObjType * string)) (p : Player.t)
    : Result Player.t :=
  match reveals with
  | [] => Ok p
  | (obj, language) :: rest =>
      match Player.learn_word obj language p with
      | Ok (_, p') => learn_all rest p'
      | Raise e => Raise e
      end
  end.

(** Every ledger entry has been viewed at least once, and is mastered
    exactly when it has been viewed five times or more. *)
Definition Ledger_ok (p : Player.t) : Prop :=
  forall language nm e,
    ledger_entry p language nm = Some e ->
    1 <= views e /\ (wd_mastered e = true <-> 5 <= views e).

(** [streamed_game] after a click on the tile under the player. *)
Definition clicked_game : Game.t :=
  match Game.handle_mouse_interaction (420, 320) streamed_game
        return Game.t with
  | Ok g => g
  | Raise _ => streamed_game
  end.

(** The dict that [Game.save_progress] dumps, for a player and settings
    whose values are JSON values; [json.dump] followed by [json.load] gives
    the dict back.  The ledger's dicts are listed in the order of
    [map_to_list]. *)
Definition ledger_json (ledger : gmap string (gmap string json)) : json :=
  JObj (map_to_list ((fun words => JObj (map_to_list words)) <$> ledger)).

Definition save_data (p : Loader.LoadedPlayer) (language window_mode : json)
    : json :=
  JObj [ ("score", Loader.score p);
         ("words_learned", ledger_json (Loader.words_learned p));
         ("position", JObj [("x", Loader.pos_x p); ("y", Loader.pos_y p)]);
         ("settings", JObj [("language", language);
                            ("window_mode", window_mode)]) ].

(** What loading makes of a language's dict: an empty one is not stored. *)
Definition nonempty_words (words : gmap string json)
    : option (gmap string json) :=
  if decide (size words = 0%nat) then None else Some words.

Definition Player_set_camera (cx cy : Z) (p : Player.t) : Player.t :=
  {| Player.x := Player.x p; Player.y := Player.y p;
     Player.width := Player.width p; Player.height := Player.height p;
     Player.normal_speed := Player.normal_speed p;
     Player.sprint_speed := Player.sprint_speed p;
     Player.speed := Player.speed p;
     Player.score := Player.score p;
     Player.words_learned := Player.words_learned p;
     Player.direction := Player.direction p;
     Player.tile_x := Player.tile_x p; Player.tile_y := Player.tile_y p;
     Player.chunk_x := Player.chunk_x p; Player.chunk_y := Player.chunk_y p;
     Player.animation_frame := Player.animation_frame p;
     Player.is_moving := Player.is_moving p;
     Player.animation_speed := Player.animation_speed p;
     Player.animation_counter := Player.animation_counter p;
     Player.interaction_target := Player.interaction_target p;
     Player.camera_offset_x := cx;
     Player.camera_offset_y := cy;
     Player.interaction_range := Player.interaction_range p |}.

(** [Game.update]: the camera follows the player, the active chunks are
    recomputed around the player's chunk, and the word display counts
    down.  [screen_width] and [screen_height] are the display size. *)
Definition Game_update {rng} `{!RandomGen rng} (screen_width screen_height : Z)
    (g : Game.t) : M (RandomModule rng) Game.t :=
  fun r =>
    let camera_x := Player.x (Game.player g) - screen_width / 2 in
    let camera_y := Player.y (Game.player g) - screen_height / 2 in
    let p := Player_set_camera camera_x camera_y (Game.player g) in
    let player_chunk_x := Player.x p / (CHUNK_SIZE * TILE_SIZE) in
    let player_chunk_y := Player.y p / (CHUNK_SIZE * TILE_SIZE) in
    match update_active_chunks player_chunk_x player_chunk_y (Game.world g, r) with
    | Ok (_, (w, r')) =>
        let '(show, timer) :=
          if Game.show_word_display g && (0 <? Game.word_display_timer g) then
            let timer := Game.word_display_timer g - 1 in
            if timer <=? 0 then (false, timer)
            else (Game.show_word_display g, timer)
          else (Game.show_word_display g, Game.word_display_timer g) in
        Ok ({| Game.player := p; Game.world := w;
               Game.target_language := Game.target_language g;
               Game.show_word_display := show;
               Game.word_display_timer := timer;
               Game.current_word_data := Game.current_word_data g;
               Game.word_display_showing_translation :=
                 Game.word_display_showing_translation g;
               Game.camera_x := camera_x; Game.camera_y := camera_y |}, r')
    | Raise e => Raise e
    end.

(** [n] calls of [Game.update], one per frame. *)
Fixpoint updates {rng} `{!RandomGen rng} (n : nat)
    (screen_width screen_height : Z) (g : Game.t)
    : M (RandomModule rng) Game.t :=
  match n with
  | O => ret g
  | S n' =>
      g' <- Game_update screen_width screen_height g ;;
      updates n' screen_width screen_height g'
  end.

(** [game_at_origin] while a word is displayed for three more frames. *)
Definition displaying_game : Game.t :=
  {| Game.player := Game.player game_at_origin;
     Game.world := World_new;
     Game.target_language := "spanish";
     Game.show_word_display := true;
     Game.word_display_timer := 3;
     Game.current_word_data := Some ("spanish", "tree");
     Game.word_display_showing_translation := false;
     Game.camera_x := -400;
     Game.camera_y := -300 |}.

(** Some reveals: a tree five times in Spanish, then a house in French. *)
Definition some_reveals : list (ObjType * string) :=
  let tree := mk_obj "tree" "tree" "árbol" "arbre" FOREST_GREEN false in
  let house := mk_obj "house" "house" "casa" "maison" BROWN false in
  [(tree, "spanish"); (tree, "spanish"); (tree, "spanish");
   (tree, "spanish"); (tree, "spanish"); (house, "french")].

(** A player to save: one Spanish word, and French selected but empty. *)
Definition saved_player : Loader.LoadedPlayer :=
  {| Loader.pos_x := JInt 96; Loader.pos_y := JInt 64;
     Loader.score := JInt 12;
     Loader.words_learned :=
       {[ "spanish" := {[ "tree" := JInt 1 ]}; "french" := ∅ ]} |}.

(** The cell types that later placement steps leave alone. *)
Definition protected (t : ObjType) : Prop :=
  name t = "water" \/ name t = "path" \/ name t = "house".

(** Every water, path or house cell of [c0] is the same cell in [c]. *)
Definition protects (c0 c : Chunk) : Prop :=
  forall y x t,
    0 <= y < CHUNK_SIZE -> 0 <= x < CHUNK_SIZE ->
    cell c0 y x = Some t -> protected t -> cell c y x = Some t.

(** From a heap whose chunk has a full grid and satisfies [P], [m] returns
    normally, with a full grid, and its result and the chunk satisfy [Q]. *)
Definition hoare {rng A} (P : Chunk -> Prop) (m : M (@Heap rng) A)
    (Q : A -> Chunk -> Prop) : Prop :=
  forall h, grid_ok (tiles (self h)) -> P (self h) ->
            total m h (fun a h' => grid_ok (tiles (self h')) /\ Q a (self h')).

(** [m] returns normally without touching the chunk, with a result
    satisfying [phi]. *)
Definition pure_op {rng A} (m : M (@Heap rng) A) (phi : A -> Prop) : Prop :=
  forall h, exists a g, m h = Ok (a, {| self := self h; mt := g |}) /\ phi a.

(** A game whose world has the chunk at the origin registered, as after a
    tile lookup, but no objects built yet. *)
Definition unbuilt_game : Game.t :=
  {| Game.player := Player.set_target None (Some 150) (Player.new 0 0);
     Game.world :=
       match World_get_tile 0 0 (World_new, lcg_module) with
       | Ok (_, (w, _)) => w
       | Raise _ => World_new
       end;
     Game.target_language := "spanish";
     Game.show_word_display := false;
     Game.word_display_timer := 0;
     Game.current_word_data := None;
     Game.word_display_showing_translation := false;
     Game.camera_x := -400;
     Game.camera_y := -300 |}.

(* ================================================================== *)
(** * The state monad: rules for normal termination *)

Section Rules.
Context {S : Type}.

Lemma total_ret {A} (a : A) (s : S) Q : Q a s -> total (ret a) s Q.
Proof. intros HQ. exists a, s. split; [reflexivity | exact HQ]. Qed.

Lemma total_bind {A B} (m : M S A) (k : A -> M S B) s Q :
  total m s (fun a s' => total (k a) s' Q) -> total (bind m k) s Q.
Proof.
  intros (a & s' & Hm & b & s'' & Hk & HQ).
  exists b, s''. unfold bind. rewrite Hm. auto.
Qed.

Lemma total_conseq {A} (m : M S A) s (Q Q' : A -> S -> Prop) :
  total m s Q -> (forall a s', Q a s' -> Q' a s') -> total m s Q'.
Proof. intros (a & s' & Hm & HQ) Himp. exists a, s'. auto. Qed.

Lemma total_lift {A} (r : Result A) a (s : S) Q :
  r = Ok a -> Q a s -> total (lift r) s Q.
Proof. intros -> HQ. exists a, s. auto. Qed.

Lemma total_for_each {A} (I : S -> Prop) (l : list A) body s :
  I s ->
  (forall a s0, a ∈ l -> I s0 -> total (body a) s0 (fun _ s' => I s')) ->
  total (for_each l body) s (fun _ s' => I s').
Proof.
  revert s. induction l as [|a l IH]; intros s Hs Hbody; simpl.
  - apply total_ret. exact Hs.
  - apply total_bind.
    eapply total_conseq; [apply Hbody; [left | exact Hs] |].
    intros ? s' Hs'. apply IH; [exact Hs' |].
    intros a' s0 Hin. apply Hbody. right. exact Hin.
Qed.

Lemma total_for_break {A} (I : S -> Prop) (l : list A) body s :
  I s ->
  (forall a s0, a ∈ l -> I s0 -> total (body a) s0 (fun _ s' => I s')) ->
  total (for_break l body) s (fun _ s' => I s').
Proof.
  revert s. induction l as [|a l IH]; intros s Hs Hbody; simpl.
  - apply total_ret. exact Hs.
  - apply total_bind.
    eapply total_conseq; [apply Hbody; [left | exact Hs] |].
    intros [|] s' Hs'.
    + apply total_ret. exact Hs'.
    + apply IH; [exact Hs' |].
      intros a' s0 Hin. apply Hbody. right. exact Hin.
Qed.

End Rules.

Lemma elem_of_range (a b k : Z) : k ∈ range a b <-> a <= k < b.
Proof. unfold range. rewrite elem_of_seqZ. lia. Qed.

Lemma py_index_Some {A} (l : list A) (i : Z) :
  0 <= i < Z.of_nat (length l) -> py_index l i = Some (Z.to_nat i).
Proof.
  intros Hi. unfold py_index.
  destruct (Z.ltb_spec i 0) as [?|_]; [lia |].
  destruct (Z.leb_spec 0 i) as [_|?]; [| lia].
  destruct (Z.ltb_spec i (Z.of_nat (length l))) as [_|?]; [| lia].
  reflexivity.
Qed.

Lemma py_getitem_Ok {A} (l : list A) (i : Z) :
  0 <= i < Z.of_nat (length l) -> exists a, py_getitem l i = Ok a /\ a ∈ l.
Proof.
  intros Hi. unfold py_getitem. rewrite py_index_Some by exact Hi.
  destruct (lookup_lt_is_Some_2 l (Z.to_nat i)) as [a Ha]; [lia |].
  rewrite Ha. exists a. split; [reflexivity |].
  apply list_elem_of_lookup. eauto.
Qed.

Lemma grid_ok_row t row :
  grid_ok t -> row ∈ t -> length row = Z.to_nat CHUNK_SIZE.
Proof.
  intros [_ Hrows] Hin. rewrite Forall_forall in Hrows. apply Hrows, Hin.
Qed.

(* ================================================================== *)
(** * Generation never fails and keeps the grid full *)

Section GenerationSpecs.
Context {rng : Type} `{!RandomGen rng}.

Lemma spec_ret {A} (a : A) (P : A -> Prop) : P a -> spec (rng:=rng) (ret a) P.
Proof. intros HP h Hh. apply total_ret. auto. Qed.

Lemma spec_bind {A B} (m : M (@Heap rng) A) (k : A -> M Heap B) P Q :
  spec m P -> (forall a, P a -> spec (k a) Q) -> spec (bind m k) Q.
Proof.
  intros Hm Hk h Hh. apply total_bind.
  eapply total_conseq; [apply Hm, Hh |].
  intros a h' [HP Hh']. apply Hk; assumption.
Qed.

Lemma spec_weaken {A} (m : M (@Heap rng) A) (P Q : A -> Prop) :
  spec m P -> (forall a, P a -> Q a) -> spec m Q.
Proof.
  intros Hm HPQ h Hh. eapply total_conseq; [apply Hm, Hh |].
  intros a h' [HP Hh']. auto.
Qed.

Lemma spec_lift {A} (r : Result A) (a : A) :
  r = Ok a -> spec (rng:=rng) (lift r) (fun _ => True).
Proof. intros Hr h Hh. eapply total_lift; [exact Hr | auto]. Qed.

Lemma spec_for_each {A} (l : list A) (body : A -> M (@Heap rng) unit) :
  (forall a, a ∈ l -> spec (body a) (fun _ => True)) ->
  spec (for_each l body) (fun _ => True).
Proof.
  intros Hbody h Hh.
  eapply total_conseq.
  - apply (total_for_each (fun h => grid_ok (tiles (self h)))); [exact Hh |].
    intros a s0 Hin Hs0.
    eapply total_conseq; [apply (Hbody a Hin), Hs0 |].
    intros ? ? [_ ?]. assumption.
  - simpl. auto.
Qed.

Lemma spec_for_break {A} (l : list A) (body : A -> M (@Heap rng) bool) :
  (forall a, a ∈ l -> spec (body a) (fun _ => True)) ->
  spec (for_break l body) (fun _ => True).
Proof.
  intros Hbody h Hh.
  eapply total_conseq.
  - apply (total_for_break (fun h => grid_ok (tiles (self h)))); [exact Hh |].
    intros a s0 Hin Hs0.
    eapply total_conseq; [apply (Hbody a Hin), Hs0 |].
    intros ? ? [_ ?]. assumption.
  - simpl. auto.
Qed.

Lemma spec_when (c : bool) (body : M (@Heap rng) unit) :
  spec body (fun _ => True) -> spec (when c body) (fun _ => True).
Proof. intros Hb. destruct c; simpl; [exact Hb | apply spec_ret; exact I]. Qed.

Lemma random_random_spec : spec (rng:=rng) random_random (fun _ => True).
Proof.
  intros h Hh. unfold random_random, total.
  destruct (gen_random (mt h)) as [u g].
  eexists _, _. split; [reflexivity |]. simpl. auto.
Qed.

Lemma random_randint_spec (a b : Z) :
  a <= b -> spec (rng:=rng) (random_randint a b) (fun k => a <= k <= b).
Proof.
  intros Hab h Hh. unfold random_randint, total.
  destruct (Z.leb_spec (b - a + 1) 0) as [?|Hpos]; [lia |].
  pose proof (randbelow_range (b - a + 1) (mt h) Hpos) as Hr.
  destruct (randbelow (b - a + 1) (mt h)) as [k g]. simpl in Hr.
  eexists _, _. split; [reflexivity |]. simpl. split; [lia | exact Hh].
Qed.

Lemma random_choice_spec {A} (seq : list A) :
  seq <> [] -> spec (rng:=rng) (random_choice seq) (fun a => a ∈ seq).
Proof.
  intros Hne h Hh. unfold random_choice, total.
  destruct seq as [|a0 seq']; [congruence |].
  assert (Hpos : 0 < Z.of_nat (length (a0 :: seq'))) by (simpl; lia).
  pose proof (randbelow_range _ (mt h) Hpos) as Hr.
  destruct (randbelow (Z.of_nat (length (a0 :: seq'))) (mt h)) as [k g].
  simpl fst in Hr.
  destruct (py_getitem_Ok (a0 :: seq') k Hr) as (a & -> & Hin).
  eexists _, _. split; [reflexivity |]. simpl. auto.
Qed.

Lemma read_tile_spec (y x : Z) :
  0 <= y < CHUNK_SIZE -> 0 <= x < CHUNK_SIZE ->
  spec (rng:=rng) (read_tile y x) (fun _ => True).
Proof.
  intros Hy Hx h Hh. unfold read_tile, total.
  destruct (py_getitem_Ok (tiles (self h)) y) as (row & -> & Hrow).
  { destruct Hh as [-> _]. unfold CHUNK_SIZE in *. lia. }
  destruct (py_getitem_Ok row x) as (t & -> & _).
  { rewrite (grid_ok_row _ _ Hh Hrow). unfold CHUNK_SIZE in *. lia. }
  eexists _, _. split; [reflexivity |]. auto.
Qed.

Lemma write_tile_spec (y x : Z) (v : ObjType) :
  0 <= y < CHUNK_SIZE -> 0 <= x < CHUNK_SIZE ->
  spec (rng:=rng) (write_tile y x v) (fun _ => True).
Proof.
  intros Hy Hx h Hh. unfold write_tile, total.
  rewrite py_index_Some
    by (destruct Hh as [-> _]; unfold CHUNK_SIZE in *; lia).
  destruct (lookup_lt_is_Some_2 (tiles (self h)) (Z.to_nat y)) as [row Hrow].
  { destruct Hh as [-> _]. unfold CHUNK_SIZE in *. lia. }
  rewrite Hrow.
  assert (Hlen : length row = Z.to_nat CHUNK_SIZE).
  { apply (grid_ok_row _ _ Hh). apply list_elem_of_lookup. eauto. }
  unfold py_setitem.
  rewrite py_index_Some by (rewrite Hlen; unfold CHUNK_SIZE in *; lia).
  eexists _, _. split; [reflexivity |]. simpl. split; [exact I |].
  destruct Hh as [Hl Hrows]. split.
  - rewrite length_insert. exact Hl.
  - apply Forall_insert; [exact Hrows |]. rewrite length_insert. exact Hlen.
Qed.

Lemma tile_name_spec (y x : Z) :
  0 <= y < CHUNK_SIZE -> 0 <= x < CHUNK_SIZE ->
  spec (rng:=rng) (tile_name y x) (fun _ => True).
Proof.
  intros Hy Hx. unfold tile_name.
  eapply spec_bind; [apply read_tile_spec; assumption |].
  intros t _. apply spec_ret. exact I.
Qed.

Lemma self_field_spec {A} (f : Chunk -> A) :
  spec (rng:=rng) (fun h => Ok (f (self h), h)) (fun _ => True).
Proof. intros h Hh. eexists _, _. split; [reflexivity |]. auto. Qed.

(** One step of a proof that a generator returns normally: split a
    sequence, enter a loop or a branch, or close a primitive call. *)
Ltac bounds := unfold CHUNK_SIZE in *; lia.

Ltac leaf :=
  lazymatch goal with
  | |- spec (ret _) _ => apply spec_ret; exact I
  | |- spec (lift _) _ => eapply spec_lift; reflexivity
  | |- spec random_random _ => apply random_random_spec
  | |- spec (read_tile _ _) _ => apply read_tile_spec; bounds
  | |- spec (write_tile _ _ _) _ => apply write_tile_spec; bounds
  | |- spec (tile_name _ _) _ => apply tile_name_spec; bounds
  end.

Ltac step :=
  lazymatch goal with
  | |- spec (bind (random_randint _ _) _) _ =>
      eapply spec_bind;
      [apply random_randint_spec; bounds | intros ? ?]
  | |- spec (bind _ _) _ =>
      eapply (spec_bind _ _ (fun _ => True)); [| intros ? _]
  | |- spec (for_each _ _) _ =>
      apply spec_for_each; intros ? ?%elem_of_range
  | |- spec (for_break _ _) _ =>
      apply spec_for_break; intros ? ?%elem_of_range
  | |- spec (if ?c then _ else _) _ => destruct c
  | |- spec (let _ := _ in _) _ => cbv zeta
  | |- _ => leaf
  end.

Lemma nearby_spec (nm : string) (y x : Z) :
  spec (rng:=rng) (nearby nm y x) (fun _ => True).
Proof. unfold nearby. repeat step. Qed.

Lemma generate_path_spec : spec (rng:=rng) generate_path (fun _ => True).
Proof.
  unfold generate_path.
  change (CHUNK_SIZE / 4) with 4. change (3 * CHUNK_SIZE / 4) with 12.
  step; [leaf |].
  eapply spec_bind; [apply random_choice_spec; discriminate |].
  intros path_type _.
  repeat step.
Qed.

Lemma generate_trees_spec : spec (rng:=rng) generate_trees (fun _ => True).
Proof. unfold generate_trees. repeat step. Qed.

Lemma generate_water_spec : spec (rng:=rng) generate_water (fun _ => True).
Proof. unfold generate_water. repeat step. Qed.

Lemma generate_houses_spec : spec (rng:=rng) generate_houses (fun _ => True).
Proof.
  unfold generate_houses.
  repeat first [apply nearby_spec | step].
Qed.

Lemma generate_forest_elements_spec :
  spec (rng:=rng) generate_forest_elements (fun _ => True).
Proof.
  unfold generate_forest_elements.
  repeat first [apply nearby_spec | step].
Qed.

Lemma generate_animals_spec : spec (rng:=rng) generate_animals (fun _ => True).
Proof. unfold generate_animals. repeat step. Qed.

Lemma generate_features_spec : spec (rng:=rng) generate_features (fun _ => True).
Proof.
  unfold generate_features.
  repeat first
    [ apply self_field_spec
    | apply spec_when
    | apply generate_path_spec | apply generate_trees_spec
    | apply generate_water_spec | apply generate_houses_spec
    | apply generate_forest_elements_spec | apply generate_animals_spec
    | step ].
Qed.

End GenerationSpecs.

(* ================================================================== *)
(** * Chunks: determinism of generation *)

Lemma grass_grid_ok : exists g, grass_grid = Ok g /\ grid_ok g.
Proof.
  eexists. split; [reflexivity |].
  split; [reflexivity | repeat constructor].
Qed.

Section ChunkTheorems.
Context {rng : Type} `{!RandomGen rng}.

(** [Chunk(cx, cy)] returns normally, with a full grid, and the chunk it
    builds is the same whatever state the [random] module is in. *)
Lemma Chunk_new_total (cx cy : Z) :
  exists c : Chunk,
    grid_ok (tiles c)
    /\ forall r : RandomModule rng, exists r', Chunk_new cx cy r = Ok (c, r').
Proof.
  destruct grass_grid_ok as (g & Hg & Hgok).
  pose (c0 := {| chunk_x := cx; chunk_y := cy; tiles := []; objects := [] |}).
  pose (h0 := {| self := set_tiles g c0; mt := seed_str (seed_of cx cy) |}).
  destruct (generate_features_spec h0 Hgok) as (u & h' & Hrun & _ & Hok).
  exists (self h'). split; [exact Hok |].
  intros r. unfold Chunk_new, generate_tiles. rewrite Hg. simpl.
  fold c0. fold h0. rewrite Hrun. eexists. reflexivity.
Qed.

Lemma generate_all_total (coords : list (Z * Z)) (r : RandomModule rng) :
  exists r', generate_all coords r = Ok r'.
Proof.
  revert r. induction coords as [|[cx cy] rest IH]; intros r; simpl.
  - eauto.
  - destruct (Chunk_new_total cx cy) as (c & _ & Hc).
    destruct (Hc r) as [r1 ->]. apply IH.
Qed.

(** C1: generating the chunk at a coordinate yields one and the same
chunk (hence grid) from every state of the [random] module.  In
particular generating it, then generating any other chunks, then
generating it again yields the same grid; and so does [get_chunk] on any
world from whose registry the coordinate has been evicted. *)
Theorem generation_deterministic (cx cy : Z) :
  exists c : Chunk,
    (forall r : RandomModule rng,
        exists r', Chunk_new cx cy r = Ok (c, r'))
    /\ (forall (others : list (Z * Z)) (r : RandomModule rng),
          exists r1 r2 r3,
            Chunk_new cx cy r = Ok (c, r1)
            /\ generate_all others r1 = Ok r2
            /\ Chunk_new cx cy r2 = Ok (c, r3))
    /\ (forall (w : World) (r : RandomModule rng),
          exists w' r',
            get_chunk cx cy
              (set_chunks (delete (cx, cy) (chunks w)) w, r)
            = Ok (c, (w', r'))).
Proof.
  destruct (Chunk_new_total cx cy) as (c & _ & Hc).
  exists c. split; [exact Hc |]. split.
  - intros others r.
    destruct (Hc r) as [r1 H1].
    destruct (generate_all_total others r1) as [r2 H2].
    destruct (Hc r2) as [r3 H3].
    exists r1, r2, r3. auto.
  - intros w r. unfold get_chunk. simpl.
    rewrite lookup_delete_eq.
    destruct (Hc r) as [r' ->]. eauto.
Qed.

End ChunkTheorems.

(* ================================================================== *)
(** * Tiles, chunks and local coordinates *)

Lemma local_coord_range (t : Z) : 0 <= local_coord t < CHUNK_SIZE.
Proof. unfold local_coord, CHUNK_SIZE. apply Z.mod_pos_bound. lia. Qed.

Lemma chunk_local_compose (t : Z) :
  chunk_coord t * CHUNK_SIZE + local_coord t = t.
Proof.
  unfold chunk_coord, local_coord, CHUNK_SIZE.
  pose proof (Z.div_mod t 16). lia.
Qed.

(** C2: for every integer tile coordinate, the chunk coordinate and the
    local coordinate that [World.get_tile] computes compose back to the
    tile through [Chunk.get_world_position], the local coordinate lies in
    [0, 16), and tile (-1, -1) is local (15, 15) of chunk (-1, -1). *)
Theorem tile_region_mapping (tx ty : Z) :
  get_world_position
    {| chunk_x := chunk_coord tx; chunk_y := chunk_coord ty;
       tiles := []; objects := [] |}
    (local_coord tx) (local_coord ty) = (tx, ty)
  /\ 0 <= local_coord tx < CHUNK_SIZE
  /\ 0 <= local_coord ty < CHUNK_SIZE
  /\ (chunk_coord (-1), chunk_coord (-1)) = (-1, -1)
  /\ (local_coord (-1), local_coord (-1)) = (15, 15).
Proof.
  split.
  - unfold get_world_position. simpl.
    rewrite !chunk_local_compose. reflexivity.
  - split; [apply local_coord_range |].
    split; [apply local_coord_range |].
    split; reflexivity.
Qed.

(* ================================================================== *)
(** * The world: tile lookup is total *)

Lemma World_ok_new : World_ok World_new.
Proof. intros k c Hk. simpl in Hk. rewrite lookup_empty in Hk. discriminate. Qed.

(** Writing to an object through a reference leaves every grid alone. *)
Lemma update_obj_World_ok (ref : ObjRef) (f : GameObject -> GameObject)
    (w : World) :
  World_ok w -> World_ok (update_obj ref f w).
Proof.
  intros Hw. unfold update_obj.
  destruct (chunks w !! ref_chunk ref) as [c|] eqn:Hc; [| exact Hw].
  destruct (objects c !! ref_index ref) as [o|]; [| exact Hw].
  intros k c' Hk. simpl in Hk.
  destruct (decide (ref_chunk ref = k)) as [<-|Hne].
  - rewrite lookup_insert_eq in Hk. injection Hk as <-. simpl. eauto.
  - rewrite lookup_insert_ne in Hk by exact Hne. eauto.
Qed.

Lemma Chunk_get_tile_Some (c : Chunk) (lx ly : Z) :
  grid_ok (tiles c) ->
  0 <= lx < CHUNK_SIZE -> 0 <= ly < CHUNK_SIZE ->
  exists t, Chunk_get_tile c lx ly = Ok (Some t).
Proof.
  intros Hok Hx Hy. unfold Chunk_get_tile.
  destruct (Z.leb_spec 0 lx); [| lia].
  destruct (Z.ltb_spec lx CHUNK_SIZE); [| lia].
  destruct (Z.leb_spec 0 ly); [| lia].
  destruct (Z.ltb_spec ly CHUNK_SIZE); [| lia].
  simpl.
  destruct (py_getitem_Ok (tiles c) ly) as (row & -> & Hrow).
  { destruct Hok as [-> _]. unfold CHUNK_SIZE in *. lia. }
  destruct (py_getitem_Ok row lx) as (t & -> & _).
  { rewrite (grid_ok_row _ _ Hok Hrow). unfold CHUNK_SIZE in *. lia. }
  eauto.
Qed.

Section WorldTheorems.
Context {rng : Type} `{!RandomGen rng}.

(** [get_chunk] returns the registered chunk, or registers a new one. *)
Lemma get_chunk_total (w : World) (r : RandomModule rng) (cx cy : Z) :
  World_ok w ->
  exists c w' r',
    get_chunk cx cy (w, r) = Ok (c, (w', r'))
    /\ chunks w' !! (cx, cy) = Some c
    /\ grid_ok (tiles c)
    /\ World_ok w'.
Proof.
  intros Hw. unfold get_chunk.
  destruct (chunks w !! (cx, cy)) as [c|] eqn:Hc.
  - exists c, w, r. eauto.
  - destruct (Chunk_new_total cx cy) as (c & Hgrid & Hnew).
    destruct (Hnew r) as [r' ->].
    eexists _, _, _. split; [reflexivity |]. simpl.
    split; [apply lookup_insert_eq |]. split; [exact Hgrid |].
    intros k c' Hk. simpl in Hk.
    destruct (decide ((cx, cy) = k)) as [<-|Hne].
    + rewrite lookup_insert_eq in Hk. congruence.
    + rewrite lookup_insert_ne in Hk by exact Hne. eauto.
Qed.

(** [World.get_tile] finds a cell type for every tile, and
    [is_tile_passable] returns its [passable] attribute. *)
Lemma World_get_tile_total (w : World) (r : RandomModule rng) (tx ty : Z) :
  World_ok w ->
  exists t w' r',
    World_get_tile tx ty (w, r) = Ok (Some t, (w', r'))
    /\ is_tile_passable tx ty (w, r) = Ok (passable t, (w', r'))
    /\ is_Some (chunks w' !! (chunk_coord tx, chunk_coord ty))
    /\ World_ok w'.
Proof.
  intros Hw.
  destruct (get_chunk_total w r (chunk_coord tx) (chunk_coord ty) Hw)
    as (c & w' & r' & Hget & Hreg & Hgrid & Hw').
  destruct (Chunk_get_tile_Some c (local_coord tx) (local_coord ty) Hgrid
              (local_coord_range tx) (local_coord_range ty)) as [t Ht].
  assert (Htile : World_get_tile tx ty (w, r) = Ok (Some t, (w', r'))).
  { unfold World_get_tile, bind. rewrite Hget. unfold lift. rewrite Ht.
    reflexivity. }
  exists t, w', r'. split; [exact Htile |].
  split.
  { unfold is_tile_passable, bind. rewrite Htile. reflexivity. }
  split; [eauto | exact Hw'].
Qed.

(** C10: from a world whose registered chunks have full grids,
    [World.get_tile] returns a cell type for every integer tile, after
    registering the owning chunk if it was missing; the local coordinate
    is within the grid; and [is_tile_passable] returns that cell type's
    [passable] attribute, never the fall-back [False]. *)
Theorem get_tile_total (w : World) (r : RandomModule rng) (tx ty : Z) :
  World_ok w ->
  exists t w' r',
    World_get_tile tx ty (w, r) = Ok (Some t, (w', r'))
    /\ is_tile_passable tx ty (w, r) = Ok (passable t, (w', r'))
    /\ is_Some (chunks w' !! (chunk_coord tx, chunk_coord ty))
    /\ 0 <= local_coord tx < CHUNK_SIZE
    /\ 0 <= local_coord ty < CHUNK_SIZE
    /\ World_ok w'.
Proof.
  intros Hw.
  destruct (World_get_tile_total w r tx ty Hw)
    as (t & w' & r' & Htile & Hpass & Hreg & Hw').
  exists t, w', r'.
  split; [exact Htile |]. split; [exact Hpass |]. split; [exact Hreg |].
  split; [apply local_coord_range |].
  split; [apply local_coord_range | exact Hw'].
Qed.

End WorldTheorems.

Lemma get_tile_total_witness :
  World_ok World_new
  /\ exists t w' r',
       World_get_tile (-1) 40 (World_new, lcg_module) = Ok (Some t, (w', r'))
       /\ is_tile_passable (-1) 40 (World_new, lcg_module)
          = Ok (passable t, (w', r'))
       /\ is_Some (chunks w' !! (chunk_coord (-1), chunk_coord 40))
       /\ 0 <= local_coord (-1) < CHUNK_SIZE
       /\ 0 <= local_coord 40 < CHUNK_SIZE
       /\ World_ok w'.
Proof.
  split; [exact World_ok_new |].
  exact (get_tile_total World_new lcg_module (-1) 40 World_ok_new).
Defined.

(* ================================================================== *)
(** * The player: movement and facing *)

Lemma begin_move_position (dx dy : Z) (sprint : bool) (p : Player.t) :
  let q := Player.begin_move dx dy sprint p in
  Player.x q = Player.x p /\ Player.y q = Player.y p
  /\ Player.tile_x q = Player.tile_x p /\ Player.tile_y q = Player.tile_y p
  /\ Player.chunk_x q = Player.chunk_x p /\ Player.chunk_y q = Player.chunk_y p
  /\ Player.direction q = Player.move_direction dx dy (Player.direction p).
Proof.
  unfold Player.begin_move.
  destruct (negb (dx =? 0) || negb (dy =? 0));
    [destruct (Player.animation_speed p <=? Player.animation_counter p + 1) |];
    simpl; auto 10.
Qed.

Section PlayerTheorems.
Context {rng : Type} `{!RandomGen rng}.

(** [update_interaction_target] returns normally, leaves the world and
    the position alone, and sets the facing from the pointer. *)
Lemma update_interaction_target_total (mouse : Z * Z) (p : Player.t)
    (w : World) (r : RandomModule rng) :
  exists p',
    Player.update_interaction_target mouse p (w, r) = Ok (p', (w, r))
    /\ Player.x p' = Player.x p /\ Player.y p' = Player.y p
    /\ Player.tile_x p' = Player.tile_x p /\ Player.tile_y p' = Player.tile_y p
    /\ Player.chunk_x p' = Player.chunk_x p
    /\ Player.chunk_y p' = Player.chunk_y p
    /\ Player.direction p'
       = Player.pointer_direction
           (fst mouse + Player.camera_offset_x p
            - (Player.x p + Player.width p / 2))
           (snd mouse + Player.camera_offset_y p
            - (Player.y p + Player.height p / 2)).
Proof.
  destruct mouse as [mx my].
  unfold Player.update_interaction_target, Player.get_facing_tile_position,
    get_object_at_tile.
  destruct (chunks w !! _) as [c|]; [destruct (list_find _ _) as [[i o]|] |];
    (eexists; split; [reflexivity | simpl; auto 10]).
Qed.

(** C4, as the code has it: [move] tests the one tile of the combined
    destination; the position and the tile and chunk coordinates derived
    from it change exactly when that tile is passable.  The facing asked
    for by the delta is assigned before the test, passable or not, and the
    recomputation of the interaction target that ends [move] then sets the
    facing from the pointer. *)
Theorem move_commits_iff_passable (dx dy : Z) (sprint : bool)
    (mouse : Z * Z) (p : Player.t) (w : World) (r : RandomModule rng) :
  World_ok w ->
  let new_x := Player.x p + dx in
  let new_y := Player.y p + dy in
  let q := Player.begin_move dx dy sprint p in
  exists (ok : bool) p' w' r',
    is_tile_passable (new_x / TILE_SIZE) (new_y / TILE_SIZE) (w, r)
      = Ok (ok, (w', r'))
    /\ Player.move dx dy sprint mouse p (w, r) = Ok (p', (w', r'))
    /\ Player.direction q = Player.move_direction dx dy (Player.direction p)
    /\ Player.update_interaction_target mouse
         (if ok then Player.set_position new_x new_y (new_x / TILE_SIZE)
                       (new_y / TILE_SIZE) q else q) (w', r')
       = Ok (p', (w', r'))
    /\ (Player.x p', Player.y p')
       = (if ok then (new_x, new_y) else (Player.x p, Player.y p))
    /\ (Player.tile_x p', Player.tile_y p')
       = (if ok then (new_x / TILE_SIZE, new_y / TILE_SIZE)
          else (Player.tile_x p, Player.tile_y p))
    /\ (Player.chunk_x p', Player.chunk_y p')
       = (if ok then (new_x / TILE_SIZE / CHUNK_SIZE,
                      new_y / TILE_SIZE / CHUNK_SIZE)
          else (Player.chunk_x p, Player.chunk_y p))
    /\ Player.direction p'
       = Player.pointer_direction
           (fst mouse + Player.camera_offset_x p
            - (Player.x p' + Player.width p / 2))
           (snd mouse + Player.camera_offset_y p
            - (Player.y p' + Player.height p / 2)).
Proof.
  intros Hw new_x new_y q.
  destruct (begin_move_position dx dy sprint p)
    as (Hx & Hy & Htx & Hty & Hcx & Hcy & Hdir).
  fold q in Hx, Hy, Htx, Hty, Hcx, Hcy, Hdir.
  destruct (World_get_tile_total w r (new_x / TILE_SIZE) (new_y / TILE_SIZE) Hw)
    as (t & w' & r' & _ & Hpass & _).
  set (q' := if passable t
             then Player.set_position new_x new_y (new_x / TILE_SIZE)
                    (new_y / TILE_SIZE) q else q).
  destruct (update_interaction_target_total mouse q' w' r')
    as (p' & Hupd & Hx' & Hy' & Htx' & Hty' & Hcx' & Hcy' & Hdir').
  exists (passable t), p', w', r'.
  split; [exact Hpass |].
  split.
  { unfold Player.move, bind. fold q. rewrite Hx, Hy.
    fold new_x new_y. rewrite Hpass. exact Hupd. }
  split; [exact Hdir |].
  split; [exact Hupd |].
  assert (Hcam : Player.camera_offset_x q' = Player.camera_offset_x p
                 /\ Player.camera_offset_y q' = Player.camera_offset_y p
                 /\ Player.width q' = Player.width p
                 /\ Player.height q' = Player.height p).
  { unfold q', q, Player.begin_move.
    destruct (passable t);
      destruct (negb (dx =? 0) || negb (dy =? 0));
      try destruct (Player.animation_speed p <=? Player.animation_counter p + 1);
      simpl; auto. }
  destruct Hcam as (Hox & Hoy & Hwd & Hht).
  rewrite Hdir', Hx', Hy', Htx', Hty', Hcx', Hcy', Hox, Hoy, Hwd, Hht.
  unfold q'. destruct (passable t); simpl.
  - auto.
  - rewrite Hx, Hy, Htx, Hty, Hcx, Hcy. auto.
Qed.

End PlayerTheorems.

Lemma move_commits_iff_passable_witness :
  World_ok World_new
  /\ exists (ok : bool) p' w' r',
       is_tile_passable ((-290 + 3) / TILE_SIZE) ((390 + 0) / TILE_SIZE)
         (World_new, lcg_module) = Ok (ok, (w', r'))
       /\ Player.move 3 0 false (0, 0) (Player.new (-290) 390)
            (World_new, lcg_module) = Ok (p', (w', r'))
       /\ (Player.x p', Player.y p')
          = (if ok then (-290 + 3, 390 + 0) else (-290, 390)).
Proof.
  split; [exact World_ok_new |].
  destruct (move_commits_iff_passable 3 0 false (0, 0) (Player.new (-290) 390)
              World_new lcg_module World_ok_new)
    as (ok & p' & w' & r' & Hpass & Hmove & _ & _ & Hpos & _).
  exists ok, p', w', r'. auto.
Defined.

(** C4, as stated, fails: the player stands on the path tile (-10, 12) and
    asks to move right, onto the water tile (-9, 12), with the pointer up
    and to the right of it.  The position is unchanged, but the facing after
    the call is the pointer's (up), not the delta's (right). *)
Lemma move_facing_counterexample :
  match Player.move 3 0 false (0, 0) (Player.new (-290) 390)
          (World_new, lcg_module),
        World_get_tile (-9) 12 (World_new, lcg_module) with
  | Ok (p', _), Ok (Some t, _) =>
      name t = "water" /\ passable t = false
      /\ Player.x p' = -290 /\ Player.y p' = 390
      /\ Player.move_direction 3 0 (Player.direction (Player.new (-290) 390))
         = DIRECTION_RIGHT
      /\ Player.direction p' = DIRECTION_UP
      /\ DIRECTION_UP <> DIRECTION_RIGHT
  | _, _ => False
  end.
Proof. vm_compute. repeat split; discriminate. Qed.

(** C5, as the code has it: the facing assigned by [move] from the delta is
    right or left by the sign of [dx] whenever [dx] is not zero, whatever
    [dy] is; down or up by the sign of [dy] when [dx] is zero; and the old
    facing when both are zero.  Magnitudes are never compared. *)
Theorem move_facing_horizontal_first (dx dy : Z) (sprint : bool) (p : Player.t) :
  Player.direction (Player.begin_move dx dy sprint p)
  = match dx ?= 0, dy ?= 0 with
    | Gt, _ => DIRECTION_RIGHT
    | Lt, _ => DIRECTION_LEFT
    | Eq, Gt => DIRECTION_DOWN
    | Eq, Lt => DIRECTION_UP
    | Eq, Eq => Player.direction p
    end.
Proof.
  destruct (begin_move_position dx dy sprint p) as (_ & _ & _ & _ & _ & _ & ->).
  unfold Player.move_direction.
  destruct (Z.compare_spec dx 0); destruct (Z.compare_spec dy 0);
    repeat match goal with
           | |- context [?a <? ?b] => destruct (Z.ltb_spec a b); try lia
           end; reflexivity.
Qed.

(** C5, as stated, fails: with deltas that tie in magnitude the facing is
    not left unchanged (it becomes right), and with a vertical delta of
    larger magnitude the facing still follows the horizontal one. *)
Lemma move_facing_dominant_counterexample :
  Z.abs 3 = Z.abs 3
  /\ Player.direction (Player.new 0 0) = DIRECTION_DOWN
  /\ Player.direction (Player.begin_move 3 3 false (Player.new 0 0))
     = DIRECTION_RIGHT
  /\ DIRECTION_RIGHT <> DIRECTION_DOWN
  /\ Z.abs 3 < Z.abs (-8)
  /\ Player.direction (Player.begin_move 3 (-8) false (Player.new 0 0))
     = DIRECTION_RIGHT
  /\ DIRECTION_RIGHT <> DIRECTION_UP.
Proof. vm_compute. repeat split; try discriminate; reflexivity. Qed.

(* ================================================================== *)
(** * The word ledger *)

Lemma language_words_lookup (p : Player.t) (language nm : string) :
  Player.language_words language (Player.words_learned p) !! nm
  = ledger_entry p language nm.
Proof.
  unfold Player.language_words, ledger_entry.
  destruct (Player.words_learned p !! language) as [d|]; simpl; [reflexivity |].
  apply lookup_empty.
Qed.

Lemma ledger_entry_set_progress (p : Player.t) sc wl language nm d e :
  wl = <[language := <[nm := e]> d]> (Player.words_learned p) ->
  ledger_entry (Player.set_progress sc wl p) language nm = Some e.
Proof.
  intros ->. unfold ledger_entry. simpl.
  rewrite lookup_insert_eq. simpl. apply lookup_insert_eq.
Qed.

(** The first reveal of a name in a language. *)
Lemma learn_word_first (obj : ObjType) (language : string) (w : PyVal)
    (p : Player.t) :
  obj_getitem obj language = Ok w ->
  ledger_entry p language (name obj) = None ->
  let entry := {| word := w; wd_english := english obj; views := 1;
                  wd_mastered := false |} in
  exists p',
    Player.learn_word obj language p = Ok (entry, p')
    /\ ledger_entry p' language (name obj) = Some entry
    /\ Player.score p' = Player.score p + 10.
Proof.
  intros Hw Hnone entry. unfold Player.learn_word.
  rewrite Hw, language_words_lookup, Hnone.
  eexists. split; [reflexivity |].
  split; [eapply ledger_entry_set_progress; reflexivity | reflexivity].
Qed.

(** A later reveal. *)
Lemma learn_word_again (obj : ObjType) (language : string) (w : PyVal)
    (p : Player.t) (e : WordData) :
  obj_getitem obj language = Ok w ->
  ledger_entry p language (name obj) = Some e ->
  let promoted := (5 <=? views e + 1) && negb (wd_mastered e) in
  let entry := {| word := word e; wd_english := wd_english e;
                  views := views e + 1;
                  wd_mastered := promoted || wd_mastered e |} in
  exists p',
    Player.learn_word obj language p = Ok (entry, p')
    /\ ledger_entry p' language (name obj) = Some entry
    /\ Player.score p'
       = Player.score p
         + (if promoted then 50 else if wd_mastered e then 0 else 2).
Proof.
  intros Hw Hsome promoted entry. unfold Player.learn_word.
  rewrite Hw, language_words_lookup, Hsome.
  subst entry promoted.
  destruct (5 <=? views e + 1); destruct (wd_mastered e); simpl;
    (eexists; split; [reflexivity |];
     split; [eapply ledger_entry_set_progress; reflexivity | simpl; lia]).
Qed.

(** C3: a reveal in a language the cell type has a label for returns the
    ledger entry it leaves behind.  With no entry before, that entry has one
    view, is not mastered, and the score grows by 10.  With an entry before,
    the view count grows by one; if it is now at least 5 and the entry was
    not mastered, the entry becomes mastered and the score grows by 50; if
    the entry was not mastered otherwise, the score grows by 2; if it was
    mastered, it stays so and the score is unchanged.  Five reveals from no
    entry leave a mastered entry with five views, four do not. *)
Theorem learn_word_spec (obj : ObjType) (language : string) (w : PyVal)
    (p : Player.t) :
  obj_getitem obj language = Ok w ->
  (exists entry p',
      Player.learn_word obj language p = Ok (entry, p')
      /\ ledger_entry p' language (name obj) = Some entry
      /\ match ledger_entry p language (name obj) with
         | None =>
             entry = {| word := w; wd_english := english obj; views := 1;
                        wd_mastered := false |}
             /\ Player.score p' = Player.score p + 10
         | Some e =>
             views entry = views e + 1
             /\ word entry = word e /\ wd_english entry = wd_english e
             /\ if wd_mastered e then
                  wd_mastered entry = true
                  /\ Player.score p' = Player.score p
                else if 5 <=? views e + 1 then
                  wd_mastered entry = true
                  /\ Player.score p' = Player.score p + 50
                else
                  wd_mastered entry = false
                  /\ Player.score p' = Player.score p + 2
         end)
  /\ (ledger_entry p language (name obj) = None ->
      exists p4 p5 e4,
        learn_times 4 obj language p = Ok p4
        /\ ledger_entry p4 language (name obj) = Some e4
        /\ views e4 = 4 /\ wd_mastered e4 = false
        /\ learn_times 5 obj language p = Ok p5
        /\ ledger_entry p5 language (name obj)
           = Some {| word := w; wd_english := english obj; views := 5;
                     wd_mastered := true |}
        /\ Player.score p5 = Player.score p + 66).
Proof.
  intros Hw. split.
  - destruct (ledger_entry p language (name obj)) as [e|] eqn:He.
    + destruct (learn_word_again obj language w p e Hw He) as (p' & Hl & He' & Hs).
      eexists _, p'. split; [exact Hl |]. split; [exact He' |]. simpl.
      split; [reflexivity |]. split; [reflexivity |]. split; [reflexivity |].
      destruct (wd_mastered e); destruct (5 <=? views e + 1);
        simpl in *; split; try reflexivity; lia.
    + destruct (learn_word_first obj language w p Hw He) as (p' & Hl & He' & Hs).
      eexists _, p'. split; [exact Hl |]. split; [exact He' |].
      split; [reflexivity | exact Hs].
  - intros He0.
    destruct (learn_word_first obj language w p Hw He0) as (p1 & Hl1 & He1 & Hs1).
    destruct (learn_word_again obj language w p1 _ Hw He1) as (p2 & Hl2 & He2 & Hs2).
    destruct (learn_word_again obj language w p2 _ Hw He2) as (p3 & Hl3 & He3 & Hs3).
    destruct (learn_word_again obj language w p3 _ Hw He3) as (p4 & Hl4 & He4 & Hs4).
    destruct (learn_word_again obj language w p4 _ Hw He4) as (p5 & Hl5 & He5 & Hs5).
    simpl in *.
    eexists p4, p5, _. simpl.
    rewrite Hl1, Hl2, Hl3, Hl4, Hl5.
    split; [reflexivity |]. split; [exact He4 |].
    split; [reflexivity |]. split; [reflexivity |].
    split; [reflexivity |]. split; [exact He5 | lia].
Qed.

Lemma learn_word_spec_witness :
  obj_getitem (mk_obj "tree" "tree" "árbol" "arbre" FOREST_GREEN false)
              "spanish" = Ok (VStr "árbol")
  /\ ledger_entry (Player.new 0 0) "spanish" "tree" = None
  /\ exists p5,
       learn_times 5 (mk_obj "tree" "tree" "árbol" "arbre" FOREST_GREEN false)
                   "spanish" (Player.new 0 0) = Ok p5
       /\ ledger_entry p5 "spanish" "tree"
          = Some {| word := VStr "árbol"; wd_english := "tree"; views := 5;
                    wd_mastered := true |}
       /\ Player.score p5 = 66.
Proof.
  split; [reflexivity |]. split; [reflexivity |].
  destruct (learn_word_spec
              (mk_obj "tree" "tree" "árbol" "arbre" FOREST_GREEN false)
              "spanish" (VStr "árbol") (Player.new 0 0) eq_refl)
    as [_ Hfive].
  destruct (Hfive eq_refl) as (p4 & p5 & e4 & _ & _ & _ & _ & H5 & He5 & Hs5).
  exists p5. auto.
Defined.

(* ================================================================== *)
(** * The [mastered] flag of a game object *)

(** C6, as the code has it: an object is created with [mastered] false;
    [draw] is the only writer of the flag, and what it writes is the old
    flag or-ed with the ledger's answer for the language being learned,
    and only when the object is on the screen; revealing an object and
    toggling its translation leave the flag alone.  The flag is thus a
    latch that is never cleared, not a projection of the ledger.  What
    [draw] displays does not read the flag: the label it paints is the
    same whatever the flag holds, and the background of every label it
    paints is yellow or white as the ledger passed to that call has the
    word mastered or not; for an object on the screen that is revealed
    and shows its translation the label is painted, with the English
    word. *)
Theorem mastered_is_a_latch (o : GameObject) (x y : Z) (t : ObjType)
    (v : float) (offset_x offset_y screen_w screen_h : Z)
    (target_language : string)
    (words_learned : gmap string (gmap string WordData)) (b : bool) :
  mastered (GameObject_new x y t v) = false
  /\ mastered (GameObject_draw offset_x offset_y target_language words_learned
                 screen_w screen_h o)
     = mastered o
       || (negb (off_screen o offset_x offset_y screen_w screen_h)
           && is_mastered words_learned target_language (name (obj_type o)))
  /\ mastered (set_revealed true o) = mastered o
  /\ mastered (toggle_translation o) = mastered o
  /\ draw_label offset_x offset_y target_language words_learned
       screen_w screen_h (set_mastered b o)
     = draw_label offset_x offset_y target_language words_learned
         screen_w screen_h o
  /\ (forall l,
        draw_label offset_x offset_y target_language words_learned
          screen_w screen_h o = Ok (Some l) ->
        label_bg l
        = if is_mastered words_learned target_language (name (obj_type o))
          then YELLOW else WHITE)
  /\ (off_screen o offset_x offset_y screen_w screen_h = false ->
      revealed o = true -> translation_shown o = true ->
      draw_label offset_x offset_y target_language words_learned
        screen_w screen_h o
      = Ok (Some {| label_text := VStr (english (obj_type o));
                    label_bg :=
                      if is_mastered words_learned target_language
                           (name (obj_type o))
                      then YELLOW else WHITE |})).
Proof.
  split; [reflexivity |]. split; [| split; [reflexivity |]].
  { unfold GameObject_draw.
    destruct (off_screen o offset_x offset_y screen_w screen_h); simpl.
    - rewrite orb_false_r. reflexivity.
    - destruct (is_mastered words_learned target_language (name (obj_type o)));
        simpl; [rewrite orb_true_r | rewrite orb_false_r]; reflexivity. }
  split; [reflexivity |]. split; [reflexivity |]. split.
  - intros l. unfold draw_label.
    destruct (off_screen o offset_x offset_y screen_w screen_h);
      [discriminate |].
    destruct (revealed o); [| discriminate].
    destruct (translation_shown o).
    + destruct (obj_getitem (obj_type o) "english"); [| discriminate].
      intros [= <-]. reflexivity.
    + destruct (obj_getitem (obj_type o) target_language); [| discriminate].
      intros [= <-]. reflexivity.
  - intros Hon Hrev Hshown. unfold draw_label.
    rewrite Hon, Hrev, Hshown. reflexivity.
Qed.

(** The label at work, on the objects of the counterexample below: after
    five reveals of a tree in Spanish, a revealed tree object that has
    never been drawn (flag false) is labelled on yellow, and one whose
    flag is set is labelled on white once the language is French. *)
Example draw_label_reads_the_ledger :
  match learn_times 5 (mk_obj "tree" "tree" "árbol" "arbre" FOREST_GREEN false)
                    "spanish" (Player.new 0 0) with
  | Ok p =>
      let ledger := Player.words_learned p in
      let o := set_revealed true
                 (GameObject_new 64 64
                    (mk_obj "tree" "tree" "árbol" "arbre" FOREST_GREEN false)
                    0.5) in
      mastered o = false
      /\ draw_label 0 0 "spanish" ledger 800 600 o
         = Ok (Some {| label_text := VStr "árbol"; label_bg := YELLOW |})
      /\ mastered (set_mastered true o) = true
      /\ draw_label 0 0 "french" ledger 800 600 (set_mastered true o)
         = Ok (Some {| label_text := VStr "arbre"; label_bg := WHITE |})
  | Raise _ => False
  end.
Proof. vm_compute. repeat split; reflexivity. Qed.

(** C6, as stated, fails both ways.  After five reveals of a tree in
    Spanish the ledger has it mastered, yet a tree object that is created
    then, or drawn off the screen, has [mastered] false; and once an
    object has been drawn on the screen, its flag stays true after the
    language is switched to French, where the ledger has no entry. *)
Lemma mastered_projection_counterexample :
  match learn_times 5 (mk_obj "tree" "tree" "árbol" "arbre" FOREST_GREEN false)
                    "spanish" (Player.new 0 0) with
  | Ok p =>
      let ledger := Player.words_learned p in
      let o := GameObject_new 64 64
                 (mk_obj "tree" "tree" "árbol" "arbre" FOREST_GREEN false) 0.5 in
      let far := GameObject_draw 5000 5000 "spanish" ledger 800 600 o in
      let seen := GameObject_draw 0 0 "spanish" ledger 800 600 o in
      let later := GameObject_draw 0 0 "french" ledger 800 600 seen in
      is_mastered ledger "spanish" "tree" = true
      /\ mastered o = false
      /\ mastered far = false
      /\ is_mastered ledger "french" "tree" = false
      /\ mastered later = true
  | Raise _ => False
  end.
Proof. vm_compute. repeat split; reflexivity. Qed.

(* ================================================================== *)
(** * Loading the save file *)

(** C7, on the code: a missing file and a file that is not JSON leave the
    game as it was, so that it starts fresh, and a missing position falls
    back to the origin; but a missing score is a [KeyError], which
    [load_progress] does not catch. *)
Theorem load_progress_missing_score (g : Loader.t) :
  Loader.load_progress NoFile g = Ok g
  /\ Loader.load_progress NotJSON g = Ok g
  /\ Loader.init_player Loader.initial = Loader.fresh_player
  /\ Loader.load_progress (Parsed save_without_position) g
     = Ok {| Loader.player :=
               Some {| Loader.pos_x := JInt 0; Loader.pos_y := JInt 0;
                       Loader.score := JInt 12;
                       Loader.words_learned := ∅ |};
             Loader.target_language := JStr "french";
             Loader.window_mode := JInt 0 |}
  /\ Loader.load_progress (Parsed save_without_score) g = Raise KeyError.
Proof. repeat split. Qed.

(* ================================================================== *)
(** * Looking up the object at a tile *)

(** The tile position that an object reports is the tile on which it
    stands. *)
Lemma get_tile_position_stands_on (o : GameObject) (tile_x tile_y : Z) :
  get_tile_position o = (tile_x, tile_y) <-> stands_on o tile_x tile_y.
Proof.
  unfold get_tile_position, stands_on, TILE_SIZE. split.
  - intros [= <- <-]. split; Z.div_mod_to_equations; lia.
  - intros [Hx Hy]. f_equal; Z.div_mod_to_equations; lia.
Qed.

(** C8: [get_object_at_tile] always returns normally and leaves the world
    as it was, so it registers no chunk.  When the owning chunk is not
    registered the answer is [None].  When it is, the answer is the first
    object of that chunk's list whose tile position is the queried tile,
    or [None] when the list has no such object.  The tile position is that
    of the object's pixel position: the object returned stands on the
    queried tile and no object before it in the list does, and [None] is
    the answer only when no object of the chunk stands on the tile. *)
Theorem get_object_at_tile_spec (w : World) (tile_x tile_y : Z) :
  let key := (chunk_coord tile_x, chunk_coord tile_y) in
  exists res,
    get_object_at_tile tile_x tile_y w = Ok (res, w)
    /\ match chunks w !! key, res with
       | None, res => res = None
       | Some c, None =>
           Forall (fun o => get_tile_position o <> (tile_x, tile_y)) (objects c)
           /\ Forall (fun o => ~ stands_on o tile_x tile_y) (objects c)
       | Some c, Some ref =>
           ref_chunk ref = key
           /\ exists o,
                deref w ref = Some o
                /\ objects c !! ref_index ref = Some o
                /\ get_tile_position o = (tile_x, tile_y)
                /\ Forall (fun o' => get_tile_position o' <> (tile_x, tile_y))
                          (take (ref_index ref) (objects c))
                /\ stands_on o tile_x tile_y
                /\ Forall (fun o' => ~ stands_on o' tile_x tile_y)
                          (take (ref_index ref) (objects c))
       end.
Proof.
  intros key. unfold get_object_at_tile. fold key.
  destruct (chunks w !! key) as [c|] eqn:Hc; [| eauto].
  destruct (list_find _ (objects c)) as [[i o]|] eqn:Hfind.
  - apply list_find_Some in Hfind as (Hi & Ho & Hbefore).
    assert (Hearlier : Forall (fun o' => get_tile_position o' <> (tile_x, tile_y))
                         (take i (objects c))).
    { apply Forall_forall. intros o' Hin.
      apply list_elem_of_lookup in Hin as [j Hj].
      apply lookup_take_Some in Hj as [Hj Hlt]. eauto. }
    eexists. split; [reflexivity |]. simpl. split; [reflexivity |].
    exists o. unfold deref. simpl. rewrite Hc. simpl.
    split; [exact Hi |]. split; [exact Hi |]. split; [exact Ho |].
    split; [exact Hearlier |].
    split; [apply get_tile_position_stands_on, Ho |].
    eapply Forall_impl; [exact Hearlier |].
    intros o' Hne Hst. apply Hne, get_tile_position_stands_on, Hst.
  - apply list_find_None in Hfind.
    eexists. split; [reflexivity |]. split; [exact Hfind |].
    eapply Forall_impl; [exact Hfind |].
    intros o' Hne Hst. apply Hne, get_tile_position_stands_on, Hst.
Qed.

(** The lookup at work: once the chunks around the origin are active and
    their objects have been built, the object at tile (5, 1) is the tree
    that generation put there, and a tile of a chunk that was never
    registered has no object. *)
Example get_object_at_tile_after_streaming :
  match (update_active_chunks 0 0 ;; get_objects_in_active_chunks)
          (World_new, lcg_module) with
  | Ok (_, (w, _)) =>
      match get_object_at_tile 5 1 w, get_object_at_tile 500 500 w with
      | Ok (Some ref, _), Ok (None, _) =>
          (fun o => (name (obj_type o), get_tile_position o, go_x o, go_y o))
            <$> deref w ref
          = Some ("tree", (5, 1), 160, 32)
      | _, _ => False
      end
  | Raise _ => False
  end.
Proof. vm_compute. reflexivity. Qed.

(* ================================================================== *)
(** * Clicks out of range *)

(** The squared distance of a click is not negative. *)
Lemma click_distance2_nonneg (mouse : Z * Z) (g : Game.t) :
  0 <= Game.click_distance2 mouse g.
Proof.
  unfold Game.click_distance2. destruct mouse as [mouse_x mouse_y].
  cbv zeta. nia.
Qed.

(** [all_from] checks every integer of its interval. *)
Lemma all_from_spec (d : nat) (lo step : int) :
  all_from d lo step = true ->
  Uint63.to_Z step = 2 ^ Z.of_nat d ->
  Uint63.to_Z lo + 2 ^ Z.of_nat d <= 2 ^ 62 ->
  forall i,
    Uint63.to_Z lo <= Uint63.to_Z i < Uint63.to_Z lo + 2 ^ Z.of_nat d ->
    sqrt_150_agrees i = true.
Proof.
  revert lo step.
  induction d as [|d IH]; intros lo step Hall Hstep Hbound i Hi.
  - simpl in *. replace i with lo; [exact Hall |].
    apply Uint63.to_Z_inj. lia.
  - simpl in Hall. apply andb_true_iff in Hall as [Hlo Hhi].
    rewrite Nat2Z.inj_succ, Z.pow_succ_r in Hbound, Hi, Hstep by lia.
    pose proof (Uint63.to_Z_bounded lo) as Hlo_b.
    assert (Hpow : 0 < 2 ^ Z.of_nat d) by (apply Z.pow_pos_nonneg; lia).
    assert (Hw : Uint63.wB = 2 * 2 ^ 62) by reflexivity.
    assert (Hhalf : Uint63.to_Z (Uint63.lsr step 1%uint63) = 2 ^ Z.of_nat d).
    { rewrite Uint63.lsr_spec, Hstep. change (Uint63.to_Z 1) with 1.
      change (2 ^ 1) with 2. rewrite Z.mul_comm. apply Z.div_mul. lia. }
    assert (Hadd : Uint63.to_Z (Uint63.add lo (Uint63.lsr step 1%uint63))
                   = Uint63.to_Z lo + 2 ^ Z.of_nat d).
    { rewrite Uint63.add_spec, Hhalf. apply Z.mod_small. lia. }
    destruct (Z.lt_ge_cases (Uint63.to_Z i)
                (Uint63.to_Z lo + 2 ^ Z.of_nat d)) as [Hlt|Hge].
    + apply (IH lo _ Hlo Hhalf); lia.
    + apply (IH _ _ Hhi Hhalf); rewrite Hadd; lia.
Qed.

(** The double-precision test agrees with the exact one on every squared
    distance below [2 ^ 25]: each of them is tried. *)
Lemma all_from_25 : all_from 25 0%uint63 33554432%uint63 = true.
Proof. vm_compute. reflexivity. Qed.

(** For a squared distance below [2 ^ 25], which covers a pointer within
    four thousand pixels of the player on each axis, [math.sqrt] returns
    normally and the comparison with the range 150 that the program
    assigns is the exact one. *)
Lemma math_sqrt_150 (n : Z) :
  0 <= n < 2 ^ 25 ->
  exists d, math_sqrt n = Ok d /\ float_le_int d 150 = (n <=? 150 * 150).
Proof.
  intros Hn.
  assert (Hi : Uint63.to_Z (Uint63.of_Z n) = n).
  { rewrite Uint63.of_Z_spec. apply Z.mod_small.
    change Uint63.wB with (2 ^ 63).
    assert (2 ^ 25 < 2 ^ 63) by reflexivity. lia. }
  pose proof (all_from_spec 25 0%uint63 _ all_from_25 eq_refl) as Hall.
  specialize (Hall ltac:(vm_compute; discriminate) (Uint63.of_Z n)).
  rewrite Hi in Hall. change (Uint63.to_Z 0) with 0 in Hall.
  specialize (Hall ltac:(simpl; lia)).
  unfold sqrt_150_agrees in Hall.
  apply andb_true_iff in Hall as [Hall Hle].
  apply andb_true_iff in Hall as [Hinf Hneg].
  apply negb_true_iff in Hinf, Hneg. apply Bool.eqb_prop in Hle.
  assert (Hx : SF2Prim (binary_normalize prec emax n 0 false)
               = PrimFloat.of_uint63 (Uint63.of_Z n)).
  { rewrite <- Hi at 1. rewrite <- of_uint63_spec. apply SF2Prim_Prim2SF. }
  unfold math_sqrt, float_of_int. rewrite Hx, Hinf, Hneg.
  eexists. split; [reflexivity |].
  unfold float_le_int.
  change (Z.log2 (Z.abs 150) <? 48) with true. cbv iota.
  change (SF2Prim (binary_normalize prec emax 150 0 false)) with 150%float.
  rewrite Hle. change (150 * 150) with 22500.
  destruct (Z.leb_spec n 22500) as [H1|H1].
  - apply Uint63.leb_spec. rewrite Hi. exact H1.
  - apply not_true_is_false. intros H2%Uint63.leb_spec.
    rewrite Hi in H2. change (Uint63.to_Z 22500) with 22500 in H2. lia.
Qed.

(** Once the range is the 150 that [update_interaction_target] assigns, a
    click farther than that from the player's centre returns the game
    unchanged. *)
Lemma click_out_of_range_150 (mouse : Z * Z) (g : Game.t) :
  Player.interaction_range (Game.player g) = Some 150 ->
  Game.click_distance2 mouse g < 2 ^ 25 ->
  150 * 150 < Game.click_distance2 mouse g ->
  Game.handle_mouse_interaction mouse g = Ok g.
Proof.
  intros Hrange Hsmall Hfar.
  destruct (math_sqrt_150 (Game.click_distance2 mouse g)) as (d & Hd & Hle).
  { split; [apply click_distance2_nonneg | exact Hsmall]. }
  unfold Game.handle_mouse_interaction.
  destruct mouse as [mouse_x mouse_y]. rewrite Hd, Hrange, Hle.
  destruct (Z.leb_spec (Game.click_distance2 (mouse_x, mouse_y) g) (150 * 150));
    [lia | reflexivity].
Qed.

(** Without a range, the comparison of the distance with it raises. *)
Lemma click_without_range (mouse : Z * Z) (g : Game.t) :
  Game.click_distance2 mouse g < 2 ^ 25 ->
  Player.interaction_range (Game.player g) = None ->
  Game.handle_mouse_interaction mouse g = Raise AttributeError.
Proof.
  intros Hsmall Hnone.
  destruct (math_sqrt_150 (Game.click_distance2 mouse g)) as (d & Hd & _).
  { split; [apply click_distance2_nonneg | exact Hsmall]. }
  unfold Game.handle_mouse_interaction.
  destruct mouse as [mouse_x mouse_y]. rewrite Hd, Hnone. reflexivity.
Qed.

(** C9, on the code.  The handler does guard on the distance: once the
    player has a range, which is the 150 that [update_interaction_target]
    assigns, a click farther than that from the player's centre returns
    the game unchanged, so the ledger, the score and every object are as
    they were.  But [Player.__init__] does not create the attribute, and
    [move] is only called while a movement key is down: on the game as
    [Game.__init__] leaves it, the click at (700, 500), which is out of
    range, is not a no-op but an [AttributeError], as is every click on a
    player that has no range yet. *)
Theorem click_out_of_range :
  150 * 150 < Game.click_distance2 (700, 500) Game_initial
  /\ Game.handle_mouse_interaction (700, 500) Game_initial
     = Raise AttributeError
  /\ (forall mouse g,
        Game.click_distance2 mouse g < 2 ^ 25 ->
        Player.interaction_range (Game.player g) = None ->
        Game.handle_mouse_interaction mouse g = Raise AttributeError)
  /\ (forall mouse g,
        Player.interaction_range (Game.player g) = Some 150 ->
        Game.click_distance2 mouse g < 2 ^ 25 ->
        150 * 150 < Game.click_distance2 mouse g ->
        Game.handle_mouse_interaction mouse g = Ok g).
Proof.
  split; [reflexivity |]. split.
  { apply click_without_range; reflexivity. }
  split.
  - exact click_without_range.
  - exact click_out_of_range_150.
Qed.

(** The guard at work on [streamed_game], whose player has moved and whose
    chunks around the origin have their objects: the click at (700, 500)
    is out of range and has an object under it, and the game is returned
    unchanged, while the click at (420, 320), in range, reveals the
    object there and scores ten points. *)
Lemma click_out_of_range_witness :
  Player.interaction_range (Game.player streamed_game) = Some 150
  /\ Game.click_distance2 (700, 500) streamed_game < 2 ^ 25
  /\ 150 * 150 < Game.click_distance2 (700, 500) streamed_game
  /\ found_ref (get_object_at_tile 9 6 (Game.world streamed_game))
     = Some {| ref_chunk := (0, 0); ref_index := 105 |}
  /\ Game.handle_mouse_interaction (700, 500) streamed_game = Ok streamed_game
  /\ Player.score (Game.player streamed_game) = 0
  /\ score_after (Game.handle_mouse_interaction (420, 320) streamed_game)
     = Some 10.
Proof.
  split; [reflexivity |].
  split; [reflexivity |].
  split; [reflexivity |].
  split; [vm_compute; reflexivity |].
  split.
  - destruct click_out_of_range as (_ & _ & _ & Hfar).
    apply (Hfar (700, 500) streamed_game); reflexivity.
  - split; [reflexivity |]. vm_compute. reflexivity.
Defined.

(* ================================================================== *)
(** * What generation places, and where *)

Lemma obj_named_elem (s : string) (o : ObjType) :
  obj_named s = Ok o -> o ∈ GAME_OBJECTS /\ name o = s.
Proof.
  unfold obj_named.
  destruct (find _ GAME_OBJECTS) as [o'|] eqn:Hfind; [| discriminate].
  intros [= <-]. apply find_some in Hfind as [Hin Heq].
  split; [apply list_elem_of_In, Hin | apply String.eqb_eq, Heq].
Qed.

Section GenerationInvariants.
Context {rng : Type} `{!RandomGen rng}.
Variable c0 : Chunk.
Variable P : ObjType -> Prop.

Lemma keeps_ret {A} (a : A) (Q : A -> Prop) :
  Q a -> keeps (rng:=rng) c0 P (ret a) Q.
Proof. intros HQ h Hh. apply total_ret. auto. Qed.

Lemma keeps_bind {A B} (m : M (@Heap rng) A) (k : A -> M Heap B) Q1 Q2 :
  keeps c0 P m Q1 -> (forall a, Q1 a -> keeps c0 P (k a) Q2) ->
  keeps c0 P (bind m k) Q2.
Proof.
  intros Hm Hk h Hh. apply total_bind.
  eapply total_conseq; [apply Hm, Hh |].
  intros a h' [HQ Hh']. apply Hk; assumption.
Qed.

Lemma keeps_lift {A} (r : Result A) (a : A) :
  r = Ok a -> keeps (rng:=rng) c0 P (lift r) (fun x => r = Ok x).
Proof. intros Hr h Hh. eapply total_lift; [exact Hr | auto]. Qed.

Lemma keeps_for_each {A} (l : list A) (body : A -> M (@Heap rng) unit) :
  (forall a, a ∈ l -> keeps c0 P (body a) (fun _ => True)) ->
  keeps c0 P (for_each l body) (fun _ => True).
Proof.
  intros Hbody h Hh.
  eapply total_conseq.
  - apply (total_for_each (gen_inv c0 P)); [exact Hh |].
    intros a s0 Hin Hs0.
    eapply total_conseq; [apply (Hbody a Hin), Hs0 |].
    intros ? ? [_ ?]. assumption.
  - simpl. auto.
Qed.

Lemma keeps_for_break {A} (l : list A) (body : A -> M (@Heap rng) bool) :
  (forall a, a ∈ l -> keeps c0 P (body a) (fun _ => True)) ->
  keeps c0 P (for_break l body) (fun _ => True).
Proof.
  intros Hbody h Hh.
  eapply total_conseq.
  - apply (total_for_break (gen_inv c0 P)); [exact Hh |].
    intros a s0 Hin Hs0.
    eapply total_conseq; [apply (Hbody a Hin), Hs0 |].
    intros ? ? [_ ?]. assumption.
  - simpl. auto.
Qed.

Lemma keeps_when (c : bool) (body : M (@Heap rng) unit) :
  (c = true -> keeps c0 P body (fun _ => True)) ->
  keeps c0 P (when c body) (fun _ => True).
Proof.
  intros Hb. destruct c; simpl; [apply Hb; reflexivity | apply keeps_ret; exact I].
Qed.

Lemma random_random_keeps : keeps (rng:=rng) c0 P random_random (fun _ => True).
Proof.
  intros h Hh. unfold random_random, total.
  destruct (gen_random (mt h)) as [u g].
  eexists _, _. split; [reflexivity |]. simpl. auto.
Qed.

Lemma random_randint_keeps (a b : Z) :
  a <= b -> keeps (rng:=rng) c0 P (random_randint a b) (fun k => a <= k <= b).
Proof.
  intros Hab h Hh. unfold random_randint, total.
  destruct (Z.leb_spec (b - a + 1) 0) as [?|Hpos]; [lia |].
  pose proof (randbelow_range (b - a + 1) (mt h) Hpos) as Hr.
  destruct (randbelow (b - a + 1) (mt h)) as [k g]. simpl in Hr.
  eexists _, _. split; [reflexivity |]. simpl. split; [lia | exact Hh].
Qed.

Lemma random_choice_keeps {A} (seq : list A) :
  seq <> [] -> keeps (rng:=rng) c0 P (random_choice seq) (fun _ => True).
Proof.
  intros Hne h Hh. unfold random_choice, total.
  destruct seq as [|a0 seq']; [congruence |].
  assert (Hpos : 0 < Z.of_nat (length (a0 :: seq'))) by (simpl; lia).
  pose proof (randbelow_range _ (mt h) Hpos) as Hr.
  destruct (randbelow (Z.of_nat (length (a0 :: seq'))) (mt h)) as [k g].
  simpl fst in Hr.
  destruct (py_getitem_Ok (a0 :: seq') k Hr) as (a & -> & Hin).
  eexists _, _. split; [reflexivity |]. simpl. auto.
Qed.

Lemma read_tile_keeps (y x : Z) :
  0 <= y < CHUNK_SIZE -> 0 <= x < CHUNK_SIZE ->
  keeps (rng:=rng) c0 P (read_tile y x) P.
Proof.
  intros Hy Hx h Hh. unfold read_tile, total.
  destruct Hh as (Hcx & Hcy & Hobj & Hgrid & Hall).
  destruct (py_getitem_Ok (tiles (self h)) y) as (row & -> & Hrow).
  { destruct Hgrid as [-> _]. unfold CHUNK_SIZE in *. lia. }
  destruct (py_getitem_Ok row x) as (t & -> & Ht).
  { rewrite (grid_ok_row _ _ Hgrid Hrow). unfold CHUNK_SIZE in *. lia. }
  eexists _, _. split; [reflexivity |].
  split; [| exact (conj Hcx (conj Hcy (conj Hobj (conj Hgrid Hall))))].
  unfold all_tiles in Hall. rewrite Forall_forall in Hall.
  specialize (Hall row Hrow). rewrite Forall_forall in Hall. auto.
Qed.

Lemma write_tile_keeps (y x : Z) (v : ObjType) :
  0 <= y < CHUNK_SIZE -> 0 <= x < CHUNK_SIZE -> P v ->
  keeps (rng:=rng) c0 P (write_tile y x v) (fun _ => True).
Proof.
  intros Hy Hx Hv h Hh. unfold write_tile, total.
  destruct Hh as (Hcx & Hcy & Hobj & Hgrid & Hall).
  rewrite py_index_Some
    by (destruct Hgrid as [-> _]; unfold CHUNK_SIZE in *; lia).
  destruct (lookup_lt_is_Some_2 (tiles (self h)) (Z.to_nat y)) as [row Hrow].
  { destruct Hgrid as [-> _]. unfold CHUNK_SIZE in *. lia. }
  rewrite Hrow.
  assert (Hin : row ∈ tiles (self h)) by (apply list_elem_of_lookup; eauto).
  assert (Hlen : length row = Z.to_nat CHUNK_SIZE)
    by (apply (grid_ok_row _ _ Hgrid Hin)).
  unfold py_setitem.
  rewrite py_index_Some by (rewrite Hlen; unfold CHUNK_SIZE in *; lia).
  eexists _, _. split; [reflexivity |]. split; [exact I |].
  unfold gen_inv. simpl.
  split; [exact Hcx |]. split; [exact Hcy |]. split; [exact Hobj |].
  destruct Hgrid as [Hl Hrows]. split; [split |].
  - rewrite length_insert. exact Hl.
  - apply Forall_insert; [exact Hrows |]. rewrite length_insert. exact Hlen.
  - apply Forall_insert; [exact Hall |].
    apply Forall_insert; [| exact Hv].
    unfold all_tiles in Hall. rewrite Forall_forall in Hall. auto.
Qed.

Lemma tile_name_keeps (y x : Z) :
  0 <= y < CHUNK_SIZE -> 0 <= x < CHUNK_SIZE ->
  keeps (rng:=rng) c0 P (tile_name y x) (fun _ => True).
Proof.
  intros Hy Hx. unfold tile_name.
  eapply keeps_bind; [apply read_tile_keeps; assumption |].
  intros t _. apply keeps_ret. exact I.
Qed.

Lemma chunk_x_keeps :
  keeps (rng:=rng) c0 P (fun h => Ok (chunk_x (self h), h))
        (fun a => a = chunk_x c0).
Proof.
  intros h Hh. eexists _, _. split; [reflexivity |].
  split; [apply Hh | exact Hh].
Qed.

Lemma chunk_y_keeps :
  keeps (rng:=rng) c0 P (fun h => Ok (chunk_y (self h), h))
        (fun a => a = chunk_y c0).
Proof.
  intros h Hh. eexists _, _. split; [reflexivity |].
  split; [apply Hh | exact Hh].
Qed.

Ltac kbounds := unfold CHUNK_SIZE in *; lia.

Ltac kleaf :=
  lazymatch goal with
  | |- keeps _ _ (ret _) _ => apply keeps_ret; exact I
  | |- keeps _ _ random_random _ => apply random_random_keeps
  | |- keeps _ _ (write_tile _ _ _) _ =>
      apply write_tile_keeps; [kbounds | kbounds | eauto]
  | |- keeps _ _ (tile_name _ _) _ => apply tile_name_keeps; kbounds
  end.

Ltac kstep :=
  lazymatch goal with
  | |- keeps _ _ (bind (lift (obj_named _)) _) _ =>
      eapply keeps_bind; [eapply keeps_lift; reflexivity | intros ? ?]
  | |- keeps _ _ (bind (random_randint _ _) _) _ =>
      eapply keeps_bind;
      [apply random_randint_keeps; kbounds | intros ? ?]
  | |- keeps _ _ (bind _ _) _ =>
      eapply (keeps_bind _ _ (fun _ => True)); [| intros ? _]
  | |- keeps _ _ (for_each _ _) _ =>
      apply keeps_for_each; intros ? ?%elem_of_range
  | |- keeps _ _ (for_break _ _) _ =>
      apply keeps_for_break; intros ? ?%elem_of_range
  | |- keeps _ _ (if ?c then _ else _) _ => destruct c
  | |- keeps _ _ (let _ := _ in _) _ => cbv zeta
  | |- _ => kleaf
  end.

Lemma nearby_keeps (nm : string) (y x : Z) :
  keeps (rng:=rng) c0 P (nearby nm y x) (fun _ => True).
Proof. unfold nearby. repeat kstep. Qed.

Lemma generate_path_keeps :
  (forall o, obj_named "path" = Ok o -> P o) ->
  keeps (rng:=rng) c0 P generate_path (fun _ => True).
Proof.
  intros Hpath. unfold generate_path.
  change (CHUNK_SIZE / 4) with 4. change (3 * CHUNK_SIZE / 4) with 12.
  kstep.
  eapply keeps_bind; [apply random_choice_keeps; discriminate |].
  intros path_type _.
  repeat kstep.
Qed.

Lemma generate_trees_keeps :
  (forall o, obj_named "tree" = Ok o -> P o) ->
  keeps (rng:=rng) c0 P generate_trees (fun _ => True).
Proof. intros Htree. unfold generate_trees. repeat kstep. Qed.

Lemma generate_water_keeps :
  (forall o, obj_named "water" = Ok o -> P o) ->
  keeps (rng:=rng) c0 P generate_water (fun _ => True).
Proof. intros Hwater. unfold generate_water. repeat kstep. Qed.

Lemma generate_houses_keeps :
  (forall o, obj_named "house" = Ok o -> P o) ->
  (forall o, obj_named "flower" = Ok o -> P o) ->
  keeps (rng:=rng) c0 P generate_houses (fun _ => True).
Proof.
  intros Hhouse Hflower. unfold generate_houses.
  repeat first [apply nearby_keeps | kstep].
Qed.

Lemma generate_forest_elements_keeps :
  (forall o, obj_named "log" = Ok o -> P o) ->
  (forall o, obj_named "bush" = Ok o -> P o) ->
  keeps (rng:=rng) c0 P generate_forest_elements (fun _ => True).
Proof.
  intros Hlog Hbush. unfold generate_forest_elements.
  repeat first [apply nearby_keeps | kstep].
Qed.

Lemma generate_animals_keeps :
  (forall o, obj_named "rabbit" = Ok o -> P o) ->
  (forall o, obj_named "bird" = Ok o -> P o) ->
  keeps (rng:=rng) c0 P generate_animals (fun _ => True).
Proof. intros Hrabbit Hbird. unfold generate_animals. repeat kstep. Qed.

(** [generate_features] keeps [P] when [P] holds of whatever it places: of
    a path only when the chunk is within two chunks of an axis. *)
Lemma generate_features_keeps :
  ((Z.abs (chunk_x c0) <=? 2) || (Z.abs (chunk_y c0) <=? 2) = true ->
   forall o, obj_named "path" = Ok o -> P o) ->
  (forall s o,
      s ∈ ["tree"; "water"; "house"; "flower"; "log"; "bush"; "rabbit"; "bird"] ->
      obj_named s = Ok o -> P o) ->
  keeps (rng:=rng) c0 P generate_features (fun _ => True).
Proof.
  intros Hpath Hrest. unfold generate_features.
  eapply keeps_bind; [apply chunk_x_keeps |]. intros cx ->.
  eapply keeps_bind; [apply chunk_y_keeps |]. intros cy ->.
  eapply (keeps_bind _ _ (fun _ => True)).
  { apply keeps_when. intros Hnear. apply generate_path_keeps, Hpath, Hnear. }
  intros _ _.
  repeat first
    [ apply keeps_when; intros _
    | apply generate_trees_keeps | apply generate_water_keeps
    | apply generate_houses_keeps | apply generate_forest_elements_keeps
    | apply generate_animals_keeps
    | kstep ];
    intros o; apply Hrest; set_solver.
Qed.

End GenerationInvariants.

Lemma grass_grid_all :
  exists g, grass_grid = Ok g /\ grid_ok g
            /\ all_tiles (fun t => obj_named "grass" = Ok t) g.
Proof.
  eexists. split; [reflexivity |].
  split; [split; [reflexivity | repeat constructor] |].
  repeat constructor.
Qed.

Lemma all_tiles_impl (P Q : ObjType -> Prop) (t : list (list ObjType)) :
  all_tiles P t -> (forall o, P o -> Q o) -> all_tiles Q t.
Proof.
  intros Hall HPQ. unfold all_tiles in *.
  eapply Forall_impl; [exact Hall |].
  intros row Hrow. eapply Forall_impl; [exact Hrow | exact HPQ].
Qed.

Section GeneratedChunks.
Context {rng : Type} `{!RandomGen rng}.

(** [Chunk(cx, cy)] keeps its coordinates and an empty object list, fills
    a full grid on which [P] holds if it holds of everything that may be
    placed, and leaves the [random] module reseeded from the system. *)
Lemma Chunk_new_keeps (P : ObjType -> Prop) (cx cy : Z) (r : RandomModule rng) :
  (forall o, obj_named "grass" = Ok o -> P o) ->
  ((Z.abs cx <=? 2) || (Z.abs cy <=? 2) = true ->
   forall o, obj_named "path" = Ok o -> P o) ->
  (forall s o,
      s ∈ ["tree"; "water"; "house"; "flower"; "log"; "bush"; "rabbit"; "bird"] ->
      obj_named s = Ok o -> P o) ->
  exists c r',
    Chunk_new cx cy r = Ok (c, r')
    /\ chunk_x c = cx /\ chunk_y c = cy /\ objects c = []
    /\ grid_ok (tiles c) /\ all_tiles P (tiles c)
    /\ r' = random_seed_os r.
Proof.
  intros Hgrass Hpath Hrest.
  destruct grass_grid_all as (g & Hg & Hgok & Hgall).
  pose (c0 := {| chunk_x := cx; chunk_y := cy; tiles := []; objects := [] |}).
  pose (h0 := {| self := set_tiles g c0; mt := seed_str (seed_of cx cy) |}).
  assert (Hinv : gen_inv c0 P h0).
  { repeat split; try reflexivity; try apply Hgok.
    eapply all_tiles_impl; [exact Hgall | exact Hgrass]. }
  destruct (generate_features_keeps c0 P Hpath Hrest h0 Hinv)
    as (u & h' & Hrun & _ & Hx & Hy & Hobj & Hgrid & Hall).
  exists (self h'), (random_seed_os r).
  split.
  { unfold Chunk_new, generate_tiles. rewrite Hg. simpl.
    fold c0. fold h0. rewrite Hrun. reflexivity. }
  auto 10.
Qed.

(** X1. Whatever its coordinates and the state of the random module,
    [Chunk(cx, cy)] is constructed without an exception.  The chunk carries
    the coordinates it was given, has no game objects yet, has a grid of
    [CHUNK_SIZE] rows of [CHUNK_SIZE] tiles, and every tile is an entry of
    [GAME_OBJECTS] other than stone and mushroom: these two are defined but
    no generation step places them. *)
Theorem generated_chunk_contents (cx cy : Z) (r : RandomModule rng) :
  exists c r',
    Chunk_new cx cy r = Ok (c, r')
    /\ chunk_x c = cx /\ chunk_y c = cy /\ objects c = []
    /\ grid_ok (tiles c)
    /\ all_tiles (fun t => t ∈ GAME_OBJECTS
                           /\ name t <> "stone" /\ name t <> "mushroom")
                 (tiles c).
Proof.
  destruct (Chunk_new_keeps
              (fun t => t ∈ GAME_OBJECTS
                        /\ name t <> "stone" /\ name t <> "mushroom")
              cx cy r)
    as (c & r' & Hnew & Hx & Hy & Hobj & Hgrid & Hall & _).
  - intros o [Hin Hnm]%obj_named_elem. rewrite Hnm.
    split; [exact Hin |]. split; discriminate.
  - intros _ o [Hin Hnm]%obj_named_elem. rewrite Hnm.
    split; [exact Hin |]. split; discriminate.
  - intros s o Hs [Hin Hnm]%obj_named_elem. rewrite Hnm.
    split; [exact Hin |].
    repeat (apply elem_of_cons in Hs as [->|Hs]; [split; discriminate |]).
    apply elem_of_nil in Hs. contradiction.
  - exists c, r'. auto 10.
Qed.

(** X2. [generate_features] lays a path only in chunks with [|cx| <= 2] or
    [|cy| <= 2], and no other step places path tiles: a chunk that is more
    than two chunks from the origin on both axes has no path tile at all. *)
Theorem far_chunk_has_no_path (cx cy : Z) (r : RandomModule rng) :
  2 < Z.abs cx -> 2 < Z.abs cy ->
  exists c r',
    Chunk_new cx cy r = Ok (c, r')
    /\ all_tiles (fun t => name t <> "path") (tiles c).
Proof.
  intros Hcx Hcy.
  destruct (Chunk_new_keeps (fun t => name t <> "path") cx cy r)
    as (c & r' & Hnew & _ & _ & _ & _ & Hall & _).
  - intros o [_ Hnm]%obj_named_elem. rewrite Hnm. discriminate.
  - intros Hnear. exfalso.
    apply orb_true_iff in Hnear as [H|H]; apply Z.leb_le in H; lia.
  - intros s o Hs [_ Hnm]%obj_named_elem. rewrite Hnm.
    repeat (apply elem_of_cons in Hs as [->|Hs]; [discriminate |]).
    apply elem_of_nil in Hs. contradiction.
  - exists c, r'. auto.
Qed.

End GeneratedChunks.

Lemma far_chunk_has_no_path_witness :
  2 < Z.abs 3 /\ 2 < Z.abs (-5)
  /\ exists c r',
       Chunk_new 3 (-5) lcg_module = Ok (c, r')
       /\ all_tiles (fun t => name t <> "path") (tiles c).
Proof.
  split; [reflexivity |]. split; [reflexivity |].
  apply (far_chunk_has_no_path 3 (-5) lcg_module); reflexivity.
Defined.

(* ================================================================== *)
(** * The chunk registry: caching, growth and independence of history *)



Section Registry.
Context {rng : Type} `{!RandomGen rng}.

(** All that [get_chunk] does. *)
Lemma get_chunk_full (w : World) (r : RandomModule rng) (cx cy : Z) :
  World_ok w ->
  exists c w' r',
    get_chunk cx cy (w, r) = Ok (c, (w', r'))
    /\ chunks w' !! (cx, cy) = Some c
    /\ grid_ok (tiles c)
    /\ World_ok w'
    /\ (forall k c', chunks w !! k = Some c' -> chunks w' !! k = Some c')
    /\ (forall k, k <> (cx, cy) -> chunks w' !! k = chunks w !! k)
    /\ (is_Some (chunks w !! (cx, cy)) -> w' = w /\ r' = r)
    /\ (chunks w !! (cx, cy) = None ->
        Chunk_new cx cy r = Ok (c, r')
        /\ chunk_x c = cx /\ chunk_y c = cy /\ objects c = [])
    /\ active_chunks w' = active_chunks w
    /\ render_distance w' = render_distance w
    /\ last_player_chunk w' = last_player_chunk w.
Proof.
  intros Hw. unfold get_chunk.
  destruct (chunks w !! (cx, cy)) as [c|] eqn:Hc.
  - exists c, w, r. split; [reflexivity |]. split; [exact Hc |].
    split; [eauto |]. split; [exact Hw |]. split; [auto |]. split; [auto |].
    split; [auto |]. split; [discriminate |]. auto.
  - destruct (Chunk_new_keeps (fun _ => True) cx cy r)
      as (c & r' & Hnew & Hx & Hy & Hobj & Hgrid & _); auto.
    rewrite Hnew. eexists _, _, _. split; [reflexivity |]. simpl.
    split; [apply lookup_insert_eq |]. split; [exact Hgrid |].
    split.
    { intros k c' Hk. simpl in Hk.
      destruct (decide ((cx, cy) = k)) as [<-|Hne].
      - rewrite lookup_insert_eq in Hk. congruence.
      - rewrite lookup_insert_ne in Hk by exact Hne. eauto. }
    split.
    { intros k c' Hk. destruct (decide ((cx, cy) = k)) as [<-|Hne];
        [congruence | rewrite lookup_insert_ne by exact Hne; exact Hk]. }
    split; [intros k Hk; apply lookup_insert_ne; congruence |].
    split; [intros [? ?]; discriminate |].
    split; [auto |]. auto.
Qed.

Lemma World_get_tile_full (w : World) (r : RandomModule rng) (tx ty : Z) :
  World_ok w ->
  exists t w' r',
    World_get_tile tx ty (w, r) = Ok (Some t, (w', r'))
    /\ (forall r2, World_get_tile tx ty (w', r2) = Ok (Some t, (w', r2)))
    /\ (forall k c, chunks w !! k = Some c -> chunks w' !! k = Some c)
    /\ (is_Some (chunks w !! (chunk_coord tx, chunk_coord ty)) ->
        w' = w /\ r' = r).
Proof.
  intros Hw.
  destruct (get_chunk_full w r (chunk_coord tx) (chunk_coord ty) Hw)
    as (c & w' & r' & Hget & Hreg & Hgrid & Hw' & Hmono & _ & Hhit & _).
  destruct (Chunk_get_tile_Some c (local_coord tx) (local_coord ty) Hgrid
              (local_coord_range tx) (local_coord_range ty)) as [t Ht].
  exists t, w', r'. split.
  { unfold World_get_tile, bind. rewrite Hget. unfold lift. rewrite Ht.
    reflexivity. }
  split; [| auto].
  intros r2. unfold World_get_tile, bind, get_chunk. rewrite Hreg.
  unfold lift. rewrite Ht. reflexivity.
Qed.

(** X3. [World.get_tile] on a world whose chunks have full grids returns
    a tile and never [None].  Asking again for the same tile on the world it
    leaves gives the same tile and changes nothing, whatever the random
    module has become in between.  A lookup never changes or removes a chunk
    that is registered, and when the tile's chunk is registered already the
    lookup changes neither the world nor the random module. *)
Theorem tile_lookup_is_cached (w : World) (r : RandomModule rng) (tx ty : Z) :
  World_ok w ->
  exists t w' r',
    World_get_tile tx ty (w, r) = Ok (Some t, (w', r'))
    /\ (forall r2, World_get_tile tx ty (w', r2) = Ok (Some t, (w', r2)))
    /\ (forall k c, chunks w !! k = Some c -> chunks w' !! k = Some c)
    /\ (is_Some (chunks w !! (chunk_coord tx, chunk_coord ty)) ->
        w' = w /\ r' = r).
Proof. apply World_get_tile_full. Qed.





End Registry.

(* ================================================================== *)
(** * The active set *)

Lemma elem_of_view_keys (w : World) (pcx pcy x y : Z) :
  (x, y) ∈ view_keys w pcx pcy
  <-> Z.abs (x - pcx) <= render_distance w
      /\ Z.abs (y - pcy) <= render_distance w
      /\ 2 * (Z.abs (x - pcx) + Z.abs (y - pcy)) <= 3 * render_distance w.
Proof.
  unfold view_keys. rewrite list_elem_of_bind. split.
  - intros (y' & Hin & Hy%elem_of_range).
    apply list_elem_of_bind in Hin as (x' & Hin & Hx%elem_of_range).
    unfold within_view in Hin.
    destruct (Z.ltb_spec (3 * render_distance w)
                (2 * (Z.abs (x' - pcx) + Z.abs (y' - pcy)))); simpl in Hin.
    + apply elem_of_nil in Hin. contradiction.
    + apply list_elem_of_singleton in Hin. injection Hin as -> ->. lia.
  - intros (Hx & Hy & Hm). exists y. split; [| apply elem_of_range; lia].
    apply list_elem_of_bind. exists x. split; [| apply elem_of_range; lia].
    unfold within_view.
    destruct (Z.ltb_spec (3 * render_distance w)
                (2 * (Z.abs (x - pcx) + Z.abs (y - pcy)))); [lia |].
    simpl. apply list_elem_of_singleton. reflexivity.
Qed.

Section ActiveSet.
Context {rng : Type} `{!RandomGen rng}.

(** The loop of [update_active_chunks]: every visited key that was not
    active before is registered afterwards, and nothing is evicted. *)
Lemma ensure_chunks_total (old : gset (Z * Z)) (keys : list (Z * Z))
    (w : World) (r : RandomModule rng) :
  World_ok w ->
  exists w' r',
    for_each keys (fun '(x, y) =>
        if decide ((x, y) ∈ old) then ret tt
        else get_chunk x y ;; ret tt) (w, r) = Ok (tt, (w', r'))
    /\ World_ok w'
    /\ (forall k c, chunks w !! k = Some c -> chunks w' !! k = Some c)
    /\ (forall k, k ∈ keys -> k ∉ old -> is_Some (chunks w' !! k))
    /\ active_chunks w' = active_chunks w
    /\ render_distance w' = render_distance w
    /\ last_player_chunk w' = last_player_chunk w.
Proof.
  revert w r. induction keys as [|[x y] keys IH]; intros w r Hw.
  - exists w, r. simpl. split; [reflexivity |]. split; [exact Hw |].
    split; [auto |]. split; [| auto].
    intros k Hk. apply elem_of_nil in Hk. contradiction.
  - simpl. unfold bind at 1.
    destruct (decide ((x, y) ∈ old)) as [Hin|Hnin].
    + simpl. destruct (IH w r Hw)
        as (w' & r' & Hrun & Hw' & Hmono & Hreg & Ha & Hrd & Hl).
      exists w', r'. split; [exact Hrun |]. split; [exact Hw' |].
      split; [exact Hmono |]. split; [| auto].
      intros k [->|Hk]%elem_of_cons Hk'; [contradiction | auto].
    + destruct (get_chunk_full w r x y Hw)
        as (c & w1 & r1 & Hget & Hc & _ & Hw1 & Hmono1 & _ & _ & _ & Ha1 & Hrd1 & Hl1).
      unfold bind at 1. rewrite Hget. simpl.
      destruct (IH w1 r1 Hw1)
        as (w' & r' & Hrun & Hw' & Hmono & Hreg & Ha & Hrd & Hl).
      exists w', r'. split; [exact Hrun |]. split; [exact Hw' |].
      split; [auto |]. split; [| split; [congruence | split; congruence]].
      intros k [->|Hk]%elem_of_cons Hk'; [eauto | auto].
Qed.

Lemma update_active_chunks_full (w : World) (r : RandomModule rng)
    (pcx pcy : Z) :
  World_ok w -> Active_ok w ->
  last_player_chunk w <> Some (pcx, pcy) ->
  exists w' r',
    update_active_chunks pcx pcy (w, r) = Ok (tt, (w', r'))
    /\ World_ok w' /\ Active_ok w'
    /\ last_player_chunk w' = Some (pcx, pcy)
    /\ (forall x y,
          (x, y) ∈ active_chunks w'
          <-> Z.abs (x - pcx) <= render_distance w
              /\ Z.abs (y - pcy) <= render_distance w
              /\ 2 * (Z.abs (x - pcx) + Z.abs (y - pcy))
                 <= 3 * render_distance w)
    /\ (forall k c, chunks w !! k = Some c -> chunks w' !! k = Some c).
Proof.
  intros Hw Ha Hlast. unfold update_active_chunks.
  destruct (decide (last_player_chunk w = Some (pcx, pcy))) as [?|_];
    [contradiction |].
  set (w0 := {| chunks := chunks w; active_chunks := active_chunks w;
                render_distance := render_distance w;
                last_player_chunk := Some (pcx, pcy) |}).
  destruct (ensure_chunks_total (active_chunks w) (view_keys w pcx pcy) w0 r Hw)
    as (w' & r' & Hrun & Hw' & Hmono & Hreg & Hact & Hrd & Hl).
  rewrite Hrun. eexists _, _. split; [reflexivity |]. simpl.
  split; [exact Hw' |].
  split.
  { intros k Hk. simpl in Hk. apply elem_of_list_to_set in Hk.
    destruct (decide (k ∈ active_chunks w)) as [Hin|Hnin].
    - destruct (Ha k Hin) as [c Hc]. exists c. apply Hmono. exact Hc.
    - apply Hreg; assumption. }
  split; [exact Hl |].
  split; [| exact Hmono].
  intros x y. rewrite elem_of_list_to_set. apply elem_of_view_keys.
Qed.

(** X6. When the player's chunk is not the one recorded by the last
    call, [World.update_active_chunks] returns normally, records the new
    chunk, and makes active exactly the chunks [(x, y)] within
    [render_distance] of the player's chunk on each axis whose Manhattan
    distance from it is at most one and a half times [render_distance].
    Every active chunk is registered afterwards, and no chunk registered
    before is changed or removed. *)
Theorem update_active_chunks_spec (w : World) (r : RandomModule rng)
    (pcx pcy : Z) :
  World_ok w -> Active_ok w ->
  last_player_chunk w <> Some (pcx, pcy) ->
  exists w' r',
    update_active_chunks pcx pcy (w, r) = Ok (tt, (w', r'))
    /\ World_ok w' /\ Active_ok w'
    /\ last_player_chunk w' = Some (pcx, pcy)
    /\ (forall x y,
          (x, y) ∈ active_chunks w'
          <-> Z.abs (x - pcx) <= render_distance w
              /\ Z.abs (y - pcy) <= render_distance w
              /\ 2 * (Z.abs (x - pcx) + Z.abs (y - pcy))
                 <= 3 * render_distance w)
    /\ (forall k c, chunks w !! k = Some c -> chunks w' !! k = Some c).
Proof. apply update_active_chunks_full. Qed.

(** X7. [World.update_active_chunks] is idempotent: a second call for
    the same player chunk returns at once, changing neither the world nor
    the random module. *)
Theorem update_active_chunks_memo (w : World) (r : RandomModule rng)
    (pcx pcy : Z) :
  World_ok w ->
  exists w' r',
    update_active_chunks pcx pcy (w, r) = Ok (tt, (w', r'))
    /\ forall r2, update_active_chunks pcx pcy (w', r2) = Ok (tt, (w', r2)).
Proof.
  intros Hw. unfold update_active_chunks at 1.
  destruct (decide (last_player_chunk w = Some (pcx, pcy))) as [Heq|Hne].
  - exists w, r. split; [reflexivity |]. intros r2.
    unfold update_active_chunks. rewrite decide_True by exact Heq. reflexivity.
  - set (w0 := {| chunks := chunks w; active_chunks := active_chunks w;
                  render_distance := render_distance w;
                  last_player_chunk := Some (pcx, pcy) |}).
    destruct (ensure_chunks_total (active_chunks w) (view_keys w pcx pcy) w0 r Hw)
      as (w' & r' & Hrun & _ & _ & _ & _ & _ & Hl).
    rewrite Hrun. eexists _, _. split; [reflexivity |]. intros r2.
    unfold update_active_chunks. simpl. rewrite decide_True by exact Hl.
    reflexivity.
Qed.

End ActiveSet.

(* ================================================================== *)
(** * Objects: built once, one per cell, found again by tile *)

Lemma total_for_each_prefix {S A} (I : list A -> S -> Prop) (l : list A)
    (body : A -> M S unit) (s : S) :
  I [] s ->
  (forall pre a s0, a ∈ l -> I pre s0 ->
     total (body a) s0 (fun _ s' => I (pre ++ [a]) s')) ->
  total (for_each l body) s (fun _ s' => I l s').
Proof.
  intros H0 Hbody.
  assert (Hgen : forall l' pre s0, (forall a, a ∈ l' -> a ∈ l) -> I pre s0 ->
            total (for_each l' body) s0 (fun _ s' => I (pre ++ l') s')).
  { induction l' as [|a l' IH]; intros pre s0 Hsub Hpre; simpl.
    - apply total_ret. rewrite app_nil_r. exact Hpre.
    - apply total_bind.
      eapply total_conseq; [apply Hbody; [apply Hsub; left | exact Hpre] |].
      intros ? s' Hs'. simpl in Hs'.
      replace (pre ++ a :: l') with ((pre ++ [a]) ++ l')
        by (rewrite <- app_assoc; reflexivity).
      apply IH; [| exact Hs'].
      intros a' Ha'. apply Hsub. right. exact Ha'. }
  apply (Hgen l [] s); auto.
Qed.

Lemma concat_lookup_uniform {A} (n : nat) (rows : list (list A))
    (i j : nat) (row : list A) (x : A) :
  Forall (fun r => length r = n) rows ->
  rows !! i = Some row -> row !! j = Some x ->
  concat rows !! (i * n + j)%nat = Some x.
Proof.
  revert i. induction rows as [|r rows IH]; intros i Hlen Hi Hj.
  - discriminate.
  - apply Forall_cons in Hlen as [Hr Hlen]. destruct i as [|i]; simpl in *.
    + injection Hi as ->. rewrite lookup_app_l; [exact Hj |].
      apply lookup_lt_Some in Hj. exact Hj.
    + rewrite lookup_app_r by lia.
      replace (n + i * n + j - length r)%nat with (i * n + j)%nat by lia.
      apply IH; assumption.
Qed.

Lemma concat_length_uniform {A} (n : nat) (rows : list (list A)) :
  Forall (fun r => length r = n) rows ->
  length (concat rows) = (length rows * n)%nat.
Proof.
  induction 1 as [|r rows Hr _ IH]; simpl; [reflexivity |].
  rewrite length_app, IH, Hr. reflexivity.
Qed.

Lemma elem_of_concat {A} (x : A) (rows : list (list A)) :
  x ∈ concat rows -> exists row, x ∈ row /\ row ∈ rows.
Proof.
  induction rows as [|r rows IH]; simpl; intros Hin.
  - apply elem_of_nil in Hin. contradiction.
  - apply elem_of_app in Hin as [Hin|Hin].
    + exists r. split; [exact Hin | left].
    + destruct (IH Hin) as (row & Hx & Hrow). exists row. split; [exact Hx |].
      right. exact Hrow.
Qed.

Lemma range_lookup (n i : Z) :
  0 <= i < n -> range 0 n !! Z.to_nat i = Some i.
Proof.
  intros Hi. unfold range. apply lookup_seqZ. lia.
Qed.

Lemma range_length (n : Z) : length (range 0 n) = Z.to_nat n.
Proof. unfold range. rewrite length_seqZ. f_equal. lia. Qed.

(** Rows of objects related to the cells by [R], read by index. *)
Lemma rows_lookup (R : Z -> Z -> GameObject -> Prop)
    (rows : list (list GameObject)) (y x : Z) :
  Forall2 (fun y row => Forall2 (R y) (range 0 CHUNK_SIZE) row)
          (range 0 CHUNK_SIZE) rows ->
  0 <= y < CHUNK_SIZE -> 0 <= x < CHUNK_SIZE ->
  exists o, concat rows !! Z.to_nat (y * CHUNK_SIZE + x) = Some o /\ R y x o.
Proof.
  intros Hrows Hy Hx.
  destruct (Forall2_lookup_l _ _ _ _ _ Hrows (range_lookup _ _ Hy))
    as (row & Hrow & Hcells).
  destruct (Forall2_lookup_l _ _ _ _ _ Hcells (range_lookup _ _ Hx))
    as (o & Ho & Hat).
  exists o. split; [| exact Hat].
  replace (Z.to_nat (y * CHUNK_SIZE + x))
    with (Z.to_nat y * Z.to_nat CHUNK_SIZE + Z.to_nat x)%nat
    by (unfold CHUNK_SIZE in *; lia).
  apply (concat_lookup_uniform (Z.to_nat CHUNK_SIZE) rows _ _ row);
    [| exact Hrow | exact Ho].
  apply Forall_forall. intros r Hr.
  apply list_elem_of_lookup in Hr as [i Hi].
  destruct (Forall2_lookup_r _ _ _ _ _ Hrows Hi) as (y' & _ & Hc').
  rewrite <- (Forall2_length _ _ _ Hc'). apply range_length.
Qed.

Lemma rows_length (R : Z -> Z -> GameObject -> Prop)
    (rows : list (list GameObject)) :
  Forall2 (fun y row => Forall2 (R y) (range 0 CHUNK_SIZE) row)
          (range 0 CHUNK_SIZE) rows ->
  length (concat rows) = Z.to_nat (CHUNK_SIZE * CHUNK_SIZE).
Proof.
  intros Hrows.
  rewrite (concat_length_uniform (Z.to_nat CHUNK_SIZE)).
  - rewrite <- (Forall2_length _ _ _ Hrows), range_length. reflexivity.
  - apply Forall_forall. intros r Hr.
    apply list_elem_of_lookup in Hr as [i Hi].
    destruct (Forall2_lookup_r _ _ _ _ _ Hrows Hi) as (y' & _ & Hc').
    rewrite <- (Forall2_length _ _ _ Hc'). apply range_length.
Qed.

(** Every object of a built list is the object of some cell. *)
Lemma objects_built_elem (c : Chunk) (objs : list GameObject) (o : GameObject) :
  objects_built c objs -> o ∈ objs ->
  exists y x, 0 <= y < CHUNK_SIZE /\ 0 <= x < CHUNK_SIZE /\ object_at c y x o.
Proof.
  intros [Hlen Hcells] Hin.
  apply list_elem_of_lookup in Hin as [i Hi].
  pose proof (lookup_lt_Some _ _ _ Hi) as Hlt. rewrite Hlen in Hlt.
  pose (y := Z.of_nat i / CHUNK_SIZE). pose (x := Z.of_nat i mod CHUNK_SIZE).
  assert (Hx : 0 <= x < CHUNK_SIZE)
    by (apply Z.mod_pos_bound; unfold CHUNK_SIZE; lia).
  assert (Hi' : Z.of_nat i = y * CHUNK_SIZE + x).
  { unfold y, x. pose proof (Z.div_mod (Z.of_nat i) CHUNK_SIZE).
    unfold CHUNK_SIZE in *. lia. }
  assert (Hy : 0 <= y < CHUNK_SIZE) by (unfold CHUNK_SIZE in *; lia).
  destruct (Hcells y x Hy Hx) as (o' & Ho' & Hat).
  rewrite <- Hi', Nat2Z.id, Hi in Ho'. injection Ho' as <-.
  exists y, x. auto.
Qed.

Lemma objects_built_ext (c c' : Chunk) (objs : list GameObject) :
  chunk_x c' = chunk_x c -> chunk_y c' = chunk_y c -> tiles c' = tiles c ->
  objects_built c objs -> objects_built c' objs.
Proof.
  intros Hx Hy Ht [Hlen Hcells]. split; [exact Hlen |].
  intros y x Hyr Hxr. destruct (Hcells y x Hyr Hxr) as (o & Ho & Hat).
  exists o. split; [exact Ho |].
  unfold object_at, cell in *. rewrite Hx, Hy, Ht. exact Hat.
Qed.

Section Objects.
Context {rng : Type} `{!RandomGen rng}.

Lemma read_tile_cell (h : @Heap rng) (y x : Z) :
  grid_ok (tiles (self h)) ->
  0 <= y < CHUNK_SIZE -> 0 <= x < CHUNK_SIZE ->
  exists t, read_tile y x h = Ok (t, h) /\ cell (self h) y x = Some t.
Proof.
  intros Hgrid Hy Hx. unfold read_tile, py_getitem, cell.
  rewrite py_index_Some
    by (destruct Hgrid as [-> _]; unfold CHUNK_SIZE in *; lia).
  destruct (lookup_lt_is_Some_2 (tiles (self h)) (Z.to_nat y)) as [row Hrow].
  { destruct Hgrid as [-> _]. unfold CHUNK_SIZE in *. lia. }
  rewrite Hrow. simpl.
  assert (Hlen : length row = Z.to_nat CHUNK_SIZE).
  { apply (grid_ok_row _ _ Hgrid). apply list_elem_of_lookup. eauto. }
  rewrite py_index_Some by (rewrite Hlen; unfold CHUNK_SIZE in *; lia).
  destruct (lookup_lt_is_Some_2 row (Z.to_nat x)) as [t Ht].
  { rewrite Hlen. unfold CHUNK_SIZE in *. lia. }
  rewrite Ht. eauto.
Qed.

(** [Chunk.create_game_objects] returns normally, changes nothing of the
    chunk but its object list, and the list has one fresh object per cell,
    row by row. *)
Lemma create_game_objects_rows (c : Chunk) (g : rng) :
  grid_ok (tiles c) ->
  exists rows h',
    create_game_objects {| self := c; mt := g |} = Ok (concat rows, h')
    /\ self h' = set_objects (concat rows) c
    /\ Forall2 (fun y row =>
                  Forall2 (fun x o => object_at c y x o /\ fresh_object o)
                          (range 0 CHUNK_SIZE) row)
               (range 0 CHUNK_SIZE) rows.
Proof.
  intros Hgrid.
  pose (Iin := fun (y : Z) (objs0 : list GameObject) (pre : list Z)
                   (h : @Heap rng) =>
          exists row, self h = set_objects (objs0 ++ row) c
            /\ Forall2 (fun x o => object_at c y x o /\ fresh_object o) pre row).
  pose (Iout := fun (pre : list Z) (h : @Heap rng) =>
          exists rows, self h = set_objects (concat rows) c
            /\ Forall2 (fun y row =>
                  Forall2 (fun x o => object_at c y x o /\ fresh_object o)
                          (range 0 CHUNK_SIZE) row) pre rows).
  assert (Htot : total create_game_objects {| self := c; mt := g |}
            (fun objs h' => exists rows, objs = concat rows
               /\ self h' = set_objects (concat rows) c
               /\ Forall2 (fun y row =>
                     Forall2 (fun x o => object_at c y x o /\ fresh_object o)
                             (range 0 CHUNK_SIZE) row)
                   (range 0 CHUNK_SIZE) rows)).
  { unfold create_game_objects. apply total_bind.
    eexists tt, _. split; [reflexivity |].
    apply total_bind.
    eapply total_conseq.
    - apply (total_for_each_prefix Iout).
      + exists []. split; [reflexivity | constructor].
      + intros pre y h Hy%elem_of_range (rows & Hself & Hrows).
        eapply total_conseq.
        * apply (total_for_each_prefix (Iin y (concat rows))).
          -- exists []. rewrite app_nil_r. split; [exact Hself | constructor].
          -- intros prex x h1 Hx%elem_of_range (row & Hself1 & Hrow).
             destruct (read_tile_cell h1 y x) as (t & Hread & Hcell);
               [rewrite Hself1; exact Hgrid | exact Hy | exact Hx |].
             unfold total, bind, get_world_position. rewrite Hread.
             unfold random_random. destruct (gen_random (mt h1)) as [v g1].
             eexists tt, _. split; [reflexivity |].
             eexists (row ++ [_]). simpl. rewrite Hself1. simpl.
             split; [rewrite app_assoc; reflexivity |].
             apply Forall2_app; [exact Hrow |].
             constructor; [| constructor].
             rewrite Hself1 in Hcell.
             split; [repeat split; try reflexivity; exact Hcell |].
             repeat split.
        * intros ? h1 (row & Hself1 & Hrow). simpl.
          exists (rows ++ [row]). rewrite concat_app. simpl.
          rewrite app_nil_r. split; [exact Hself1 |].
          apply Forall2_app; [exact Hrows |]. constructor; [exact Hrow | constructor].
    - intros ? h1 (rows & Hself & Hrows). simpl.
      eexists _, h1. split; [reflexivity |].
      exists rows. rewrite Hself. simpl. auto. }
  destruct Htot as (objs & h' & Hrun & rows & -> & Hself & Hrows).
  exists rows, h'. auto.
Qed.

Lemma create_game_objects_full (c : Chunk) (g : rng) :
  grid_ok (tiles c) ->
  exists objs h',
    create_game_objects {| self := c; mt := g |} = Ok (objs, h')
    /\ self h' = set_objects objs c
    /\ length objs = Z.to_nat (CHUNK_SIZE * CHUNK_SIZE)
    /\ forall y x, 0 <= y < CHUNK_SIZE -> 0 <= x < CHUNK_SIZE ->
         exists o, objs !! Z.to_nat (y * CHUNK_SIZE + x) = Some o
                   /\ object_at c y x o /\ fresh_object o.
Proof.
  intros Hgrid.
  destruct (create_game_objects_rows c g Hgrid) as (rows & h' & Hrun & Hself & Hrows).
  exists (concat rows), h'. split; [exact Hrun |]. split; [exact Hself |].
  split; [exact (rows_length _ rows Hrows) |].
  intros y x Hy Hx.
  exact (rows_lookup (fun y x o => object_at c y x o /\ fresh_object o)
           rows y x Hrows Hy Hx).
Qed.

(** X8. On a chunk with a full grid, [Chunk.create_game_objects]
    returns normally and stores the list it returns in the chunk.  The list
    has one object per cell, row after row: the object of local cell
    [(x, y)] is at index [y * CHUNK_SIZE + x], stands at the pixel position
    of that tile in the world, is one tile wide and high, has the type of
    that cell, and is as its constructor leaves it: not revealed, no
    translation shown, not mastered, with the colour of its type. *)
Theorem create_game_objects_spec (c : Chunk) (g : rng) :
  grid_ok (tiles c) ->
  exists objs h',
    create_game_objects {| self := c; mt := g |} = Ok (objs, h')
    /\ self h' = set_objects objs c
    /\ length objs = Z.to_nat (CHUNK_SIZE * CHUNK_SIZE)
    /\ forall y x, 0 <= y < CHUNK_SIZE -> 0 <= x < CHUNK_SIZE ->
         exists o, objs !! Z.to_nat (y * CHUNK_SIZE + x) = Some o
                   /\ object_at c y x o /\ fresh_object o.
Proof. apply create_game_objects_full. Qed.

End Objects.

Lemma create_game_objects_spec_witness :
  exists c r,
    Chunk_new 0 0 lcg_module = Ok (c, r)
    /\ grid_ok (tiles c)
    /\ exists objs h',
         create_game_objects {| self := c; mt := rm_state r |} = Ok (objs, h')
         /\ self h' = set_objects objs c
         /\ length objs = Z.to_nat (CHUNK_SIZE * CHUNK_SIZE).
Proof.
  destruct (Chunk_new_total (rng:=Z) 0 0) as (c & Hgrid & Hc).
  destruct (Hc lcg_module) as [r Hr].
  exists c, r. split; [exact Hr |]. split; [exact Hgrid |].
  destruct (create_game_objects_spec c (rm_state r) Hgrid)
    as (objs & h' & Hrun & Hself & Hlen & _).
  exists objs, h'. auto.
Defined.

Lemma World_wf_ok (w : World) : World_wf w -> World_ok w.
Proof. intros Hw k c Hc. apply (Hw k c Hc). Qed.

Lemma World_wf_new : World_wf World_new.
Proof. intros k c Hk. simpl in Hk. rewrite lookup_empty in Hk. discriminate. Qed.

Lemma Active_ok_new : Active_ok World_new.
Proof. intros k Hk. simpl in Hk. set_solver. Qed.

Lemma Chunk_get_tile_cell (c : Chunk) (lx ly : Z) (t : ObjType) :
  0 <= lx < CHUNK_SIZE -> 0 <= ly < CHUNK_SIZE ->
  cell c ly lx = Some t -> Chunk_get_tile c lx ly = Ok (Some t).
Proof.
  intros Hx Hy Hcell. unfold Chunk_get_tile, cell in *.
  destruct (Z.leb_spec 0 lx); [| lia].
  destruct (Z.ltb_spec lx CHUNK_SIZE); [| lia].
  destruct (Z.leb_spec 0 ly); [| lia].
  destruct (Z.ltb_spec ly CHUNK_SIZE); [| lia].
  simpl.
  destruct (tiles c !! Z.to_nat ly) as [row|] eqn:Hrow; [| discriminate].
  simpl in Hcell. unfold py_getitem.
  rewrite py_index_Some by (apply lookup_lt_Some in Hrow; lia).
  rewrite Hrow.
  rewrite py_index_Some by (apply lookup_lt_Some in Hcell; lia).
  rewrite Hcell. reflexivity.
Qed.

Section ObjectsInWorld.
Context {rng : Type} `{!RandomGen rng}.

Lemma get_chunk_wf (w w' : World) (r r' : RandomModule rng) (cx cy : Z)
    (c : Chunk) :
  get_chunk cx cy (w, r) = Ok (c, (w', r')) -> World_wf w -> World_wf w'.
Proof.
  intros Hget Hw.
  destruct (get_chunk_full w r cx cy (World_wf_ok w Hw))
    as (c1 & w1 & r1 & Hget1 & Hreg & Hgrid & _ & _ & Hother & Hhit & Hmiss & _).
  rewrite Hget in Hget1. injection Hget1 as <- <- <-.
  intros k c' Hc'.
  destruct (decide (k = (cx, cy))) as [->|Hne].
  - rewrite Hreg in Hc'. injection Hc' as <-.
    destruct (chunks w !! (cx, cy)) as [c0|] eqn:Hc0.
    + destruct Hhit as [-> _]; [eauto |]. apply (Hw _ _ Hreg).
    + destruct (Hmiss eq_refl) as (_ & Hx & Hy & Hobj).
      split; [exact Hx |]. split; [exact Hy |]. split; [exact Hgrid | auto].
  - rewrite Hother in Hc' by exact Hne. apply (Hw k c' Hc').
Qed.

Lemma ensure_chunks_wf (old : gset (Z * Z)) (keys : list (Z * Z))
    (w w' : World) (r r' : RandomModule rng) :
  for_each keys (fun '(x, y) =>
      if decide ((x, y) ∈ old) then ret tt
      else get_chunk x y ;; ret tt) (w, r) = Ok (tt, (w', r')) ->
  World_wf w -> World_wf w'.
Proof.
  revert w r. induction keys as [|[x y] keys IH]; intros w r Hrun Hw.
  - injection Hrun as <- <-. exact Hw.
  - simpl in Hrun. unfold bind at 1 in Hrun.
    destruct (decide ((x, y) ∈ old)).
    + simpl in Hrun. eapply IH; eauto.
    + unfold bind at 1 in Hrun.
      destruct (get_chunk x y (w, r)) as [[c [w1 r1]]|e] eqn:Hget;
        [| discriminate].
      simpl in Hrun. eapply IH; [exact Hrun |].
      eapply get_chunk_wf; eauto.
Qed.

Lemma update_active_chunks_wf (w w' : World) (r r' : RandomModule rng)
    (pcx pcy : Z) :
  update_active_chunks pcx pcy (w, r) = Ok (tt, (w', r')) ->
  World_wf w -> World_wf w'.
Proof.
  unfold update_active_chunks. intros Hrun Hw.
  destruct (decide (last_player_chunk w = Some (pcx, pcy))).
  - injection Hrun as <- <-. exact Hw.
  - destruct (for_each _ _ _) as [[u [w1 r1]]|e] eqn:Hloop; [| discriminate].
    injection Hrun as <- <-. destruct u.
    apply ensure_chunks_wf in Hloop; [| exact Hw].
    intros k c Hc. apply (Hloop k c Hc).
Qed.

(** All that the loop of [get_objects_in_active_chunks] does. *)
Lemma collect_objects_spec (coords : list (Z * Z)) (acc : list GameObject)
    (w : World) (r : RandomModule rng) :
  World_wf w ->
  (forall k, k ∈ coords -> is_Some (chunks w !! k)) ->
  exists objs w' r',
    collect_objects coords acc (w, r) = Ok (acc ++ objs, (w', r'))
    /\ World_wf w'
    /\ (forall k, is_Some (chunks w' !! k) <-> is_Some (chunks w !! k))
    /\ (forall k c, chunks w !! k = Some c -> objects c <> [] ->
                    chunks w' !! k = Some c)
    /\ (forall k c, chunks w !! k = Some c ->
          exists c', chunks w' !! k = Some c' /\ tiles c' = tiles c)
    /\ (forall k, k ∈ coords ->
          exists c, chunks w' !! k = Some c /\ objects_built c (objects c))
    /\ length objs = (length coords * Z.to_nat (CHUNK_SIZE * CHUNK_SIZE))%nat
    /\ active_chunks w' = active_chunks w
    /\ last_player_chunk w' = last_player_chunk w
    /\ (forall acc2 r2,
          collect_objects coords acc2 (w', r2) = Ok (acc2 ++ objs, (w', r2))).
Proof.
  revert acc w r. induction coords as [|k rest IH]; intros acc w r Hw Hreg.
  - exists [], w, r. simpl. unfold ret. rewrite app_nil_r.
    split; [reflexivity |]. split; [exact Hw |]. split; [tauto |].
    split; [auto |]. split; [eauto |].
    split; [intros k Hk; apply elem_of_nil in Hk; contradiction |].
    split; [reflexivity |]. split; [reflexivity |]. split; [reflexivity |].
    intros acc2 r2. rewrite app_nil_r. reflexivity.
  - destruct (Hreg k) as [c Hc]; [left |].
    pose proof (Hw k c Hc) as (Hcx & Hcy & Hgrid & Hobjs).
    simpl. rewrite Hc.
    destruct (objects c) as [|o os] eqn:Hoc.
    + (* the list is built now *)
      destruct (create_game_objects_full c (rm_state r) Hgrid)
        as (objs & h' & Hrun & Hself & Hlen & Hcells).
      rewrite Hrun.
      set (w1 := set_chunks (<[k := self h']> (chunks w)) w).
      set (r1 := {| rm_state := mt h'; os_entropy := os_entropy r |}).
      assert (Hbuilt : objects_built (self h') (objects (self h'))).
      { rewrite Hself. simpl. split; [exact Hlen |].
        intros y x Hy Hx. destruct (Hcells y x Hy Hx) as (o & Ho & Hat & _).
        exists o. split; [exact Ho | exact Hat]. }
      assert (Hne : objects (self h') <> []).
      { intros Heq. destruct Hbuilt as [Hl _]. rewrite Heq in Hl.
        discriminate Hl. }
      assert (Hw1 : World_wf w1).
      { intros k' c' Hc'. simpl in Hc'.
        destruct (decide (k = k')) as [<-|Hkk].
        - rewrite lookup_insert_eq in Hc'. injection Hc' as <-.
          split; [rewrite Hself; exact Hcx |].
          split; [rewrite Hself; exact Hcy |].
          split; [rewrite Hself; exact Hgrid |].
          right. exact Hbuilt.
        - rewrite lookup_insert_ne in Hc' by exact Hkk. apply (Hw k' c' Hc'). }
      assert (Hreg1 : forall k', k' ∈ rest -> is_Some (chunks w1 !! k')).
      { intros k' Hk'. simpl. destruct (decide (k = k')) as [<-|Hkk].
        - rewrite lookup_insert_eq. eauto.
        - rewrite lookup_insert_ne by exact Hkk. apply Hreg. right. exact Hk'. }
      destruct (IH (acc ++ objs) w1 r1 Hw1 Hreg1)
        as (objs' & w' & r' & Hrest & Hw' & Hdom & Hkeep & Htiles & Hall
            & Hlen' & Hact & Hlast & Hidem).
      exists (objs ++ objs'), w', r'.
      split; [rewrite app_assoc; exact Hrest |].
      split; [exact Hw' |].
      split.
      { intros k'. rewrite Hdom. simpl. destruct (decide (k = k')) as [<-|Hkk].
        - rewrite lookup_insert_eq, Hc. split; eauto.
        - rewrite lookup_insert_ne by exact Hkk. tauto. }
      split.
      { intros k' c' Hc' Hne'. apply Hkeep; [| exact Hne']. simpl.
        destruct (decide (k = k')) as [<-|Hkk].
        - rewrite Hc in Hc'. injection Hc' as <-. congruence.
        - rewrite lookup_insert_ne by exact Hkk. exact Hc'. }
      split.
      { intros k' c' Hc'. destruct (decide (k = k')) as [<-|Hkk].
        - rewrite Hc in Hc'. injection Hc' as <-.
          destruct (Htiles k (self h')) as (c2 & Hc2 & Ht2);
            [simpl; apply lookup_insert_eq |].
          exists c2. split; [exact Hc2 |]. rewrite Ht2, Hself. reflexivity.
        - apply Htiles. simpl. rewrite lookup_insert_ne by exact Hkk. exact Hc'. }
      split.
      { intros k' [->|Hk']%elem_of_cons; [| auto].
        exists (self h'). split; [| exact Hbuilt].
        apply Hkeep; [simpl; apply lookup_insert_eq | exact Hne]. }
      split; [rewrite length_app, Hlen', Hlen; simpl; lia |].
      split; [exact Hact |]. split; [exact Hlast |].
      intros acc2 r2.
      rewrite (Hkeep k (self h'))
        by first [exact Hne | simpl; apply lookup_insert_eq].
      destruct (objects (self h')) as [|o os] eqn:Hos; [congruence |].
      rewrite <- Hos. replace (objects (self h')) with objs
        by (rewrite Hself; reflexivity).
      rewrite Hidem, app_assoc. reflexivity.
    + (* the list was built before *)
      destruct Hobjs as [?|Hbuilt]; [discriminate |].
      assert (Hreg1 : forall k', k' ∈ rest -> is_Some (chunks w !! k'))
        by (intros k' Hk'; apply Hreg; right; exact Hk').
      destruct (IH (acc ++ o :: os) w r Hw Hreg1)
        as (objs' & w' & r' & Hrest & Hw' & Hdom & Hkeep & Htiles & Hall
            & Hlen' & Hact & Hlast & Hidem).
      exists ((o :: os) ++ objs'), w', r'.
      split; [rewrite app_assoc; exact Hrest |].
      split; [exact Hw' |]. split; [exact Hdom |]. split; [exact Hkeep |].
      split; [exact Htiles |].
      assert (Hk : chunks w' !! k = Some c)
        by (apply Hkeep; [exact Hc | rewrite Hoc; discriminate]).
      split.
      { intros k' [->|Hk']%elem_of_cons; [| auto].
        exists c. split; [exact Hk |]. rewrite Hoc. exact Hbuilt. }
      split.
      { rewrite length_app, Hlen'. destruct Hbuilt as [Hl _]. rewrite Hl.
        simpl. lia. }
      split; [exact Hact |]. split; [exact Hlast |].
      intros acc2 r2. rewrite Hk, Hoc, Hidem, app_assoc. reflexivity.
Qed.

End ObjectsInWorld.

Section ObjectLookup.
Context {rng : Type} `{!RandomGen rng}.

Lemma get_objects_full (w : World) (r : RandomModule rng) :
  World_wf w -> Active_ok w ->
  exists objs w' r',
    get_objects_in_active_chunks (w, r) = Ok (objs, (w', r'))
    /\ World_wf w' /\ Active_ok w'
    /\ length objs
       = (size (active_chunks w) * Z.to_nat (CHUNK_SIZE * CHUNK_SIZE))%nat
    /\ (forall k, k ∈ active_chunks w ->
          exists c, chunks w' !! k = Some c /\ objects_built c (objects c))
    /\ (forall k c, chunks w !! k = Some c ->
          exists c', chunks w' !! k = Some c' /\ tiles c' = tiles c)
    /\ (forall r2,
          get_objects_in_active_chunks (w', r2) = Ok (objs, (w', r2))).
Proof.
  intros Hw Ha. unfold get_objects_in_active_chunks.
  destruct (collect_objects_spec (elements (active_chunks w)) [] w r Hw)
    as (objs & w' & r' & Hrun & Hw' & Hdom & _ & Htiles & Hall & Hlen
        & Hact & _ & Hidem).
  { intros k Hk. apply Ha. apply elem_of_elements. exact Hk. }
  exists objs, w', r'. split; [exact Hrun |]. split; [exact Hw' |].
  split.
  { intros k Hk. rewrite Hact in Hk. apply Hdom, Ha, Hk. }
  split; [exact Hlen |].
  split; [intros k Hk; apply Hall, elem_of_elements, Hk |].
  split; [exact Htiles |].
  intros r2. rewrite Hact. apply (Hidem [] r2).
Qed.

(** X9. [World.get_objects_in_active_chunks] returns normally with
    [CHUNK_SIZE * CHUNK_SIZE] objects for each active chunk.  Afterwards
    every active chunk holds one object per cell, no chunk's grid has
    changed, and a second call returns the same list without changing the
    world or the random module: objects are built once per chunk. *)
Theorem get_objects_in_active_chunks_cached (w : World) (r : RandomModule rng) :
  World_wf w -> Active_ok w ->
  exists objs w' r',
    get_objects_in_active_chunks (w, r) = Ok (objs, (w', r'))
    /\ World_wf w' /\ Active_ok w'
    /\ length objs
       = (size (active_chunks w) * Z.to_nat (CHUNK_SIZE * CHUNK_SIZE))%nat
    /\ (forall k, k ∈ active_chunks w ->
          exists c, chunks w' !! k = Some c /\ objects_built c (objects c))
    /\ (forall k c, chunks w !! k = Some c ->
          exists c', chunks w' !! k = Some c' /\ tiles c' = tiles c)
    /\ (forall r2,
          get_objects_in_active_chunks (w', r2) = Ok (objs, (w', r2))).
Proof. apply get_objects_full. Qed.

(** X10. In a chunk whose objects have been built,
    [World.get_object_at_tile] finds an object for every tile of the chunk.
    The object stands at that tile's pixel position and its type is the
    tile that [World.get_tile] returns for the same position. *)
Theorem object_at_tile_matches_grid (w : World) (tx ty : Z) (c : Chunk) :
  World_wf w ->
  chunks w !! (chunk_coord tx, chunk_coord ty) = Some c ->
  objects c <> [] ->
  exists ref o,
    get_object_at_tile tx ty w = Ok (Some ref, w)
    /\ deref w ref = Some o
    /\ go_x o = tx * TILE_SIZE /\ go_y o = ty * TILE_SIZE
    /\ forall r : RandomModule rng,
         World_get_tile tx ty (w, r) = Ok (Some (obj_type o), (w, r)).
Proof.
  intros Hw Hc Hne.
  destruct (Hw _ _ Hc) as (Hcx & Hcy & Hgrid & [?|Hbuilt]); [contradiction |].
  simpl in Hcx, Hcy.
  pose proof (local_coord_range tx) as Hlx.
  pose proof (local_coord_range ty) as Hly.
  pose proof (chunk_local_compose tx) as Htx.
  pose proof (chunk_local_compose ty) as Hty.
  destruct Hbuilt as [Hlen Hcells].
  destruct (Hcells (local_coord ty) (local_coord tx) Hly Hlx)
    as (o0 & Ho0 & Hx0 & Hy0 & _).
  assert (Hpos0 : get_tile_position o0 = (tx, ty)).
  { unfold get_tile_position. rewrite Hx0, Hy0, Hcx, Hcy, Htx, Hty.
    unfold TILE_SIZE. rewrite !Z.div_mul by lia. reflexivity. }
  unfold get_object_at_tile. rewrite Hc.
  destruct (list_find (fun obj => get_tile_position obj = (tx, ty)) (objects c))
    as [[i o]|] eqn:Hfind.
  2: { apply list_find_None in Hfind. rewrite Forall_forall in Hfind.
       exfalso. apply (Hfind o0); [| exact Hpos0].
       apply list_elem_of_lookup. eauto. }
  apply list_find_Some in Hfind as (Hi & Hpos & _).
  destruct (objects_built_elem c (objects c) o (conj Hlen Hcells))
    as (y & x & Hy & Hx & Hgx & Hgy & _ & _ & Hcell).
  { apply list_elem_of_lookup. eauto. }
  unfold get_tile_position in Hpos. rewrite Hgx, Hgy, Hcx, Hcy in Hpos.
  unfold TILE_SIZE in Hpos. rewrite !Z.div_mul in Hpos by lia.
  injection Hpos as Hxe Hye.
  assert (x = local_coord tx) by lia. assert (y = local_coord ty) by lia.
  subst x y.
  eexists _, o. split; [reflexivity |].
  split; [unfold deref; simpl; rewrite Hc; exact Hi |].
  split; [rewrite Hgx, Hcx; unfold TILE_SIZE; lia |].
  split; [rewrite Hgy, Hcy; unfold TILE_SIZE; lia |].
  intros r. unfold World_get_tile, bind, get_chunk. rewrite Hc. unfold lift.
  rewrite (Chunk_get_tile_cell c _ _ _ Hlx Hly Hcell). reflexivity.
Qed.

End ObjectLookup.

Lemma streamed_world_wf :
  World_wf streamed_world /\ Active_ok streamed_world
  /\ exists c, chunks streamed_world !! (0, 0) = Some c /\ objects c <> [].
Proof.
  unfold streamed_world, bind.
  destruct (update_active_chunks_full World_new lcg_module 0 0
              World_ok_new Active_ok_new)
    as (w1 & r1 & Hrun1 & _ & Ha1 & _ & Hact & _); [discriminate |].
  pose proof (update_active_chunks_wf _ _ _ _ _ _ Hrun1 World_wf_new) as Hw1.
  destruct (get_objects_full w1 r1 Hw1 Ha1)
    as (objs & w2 & r2 & Hrun2 & Hw2 & Ha2 & _ & Hbuilt & _).
  rewrite Hrun1, Hrun2.
  destruct (Hbuilt (0, 0)) as (c & Hc & Hlen & _).
  { apply Hact. simpl. lia. }
  split; [exact Hw2 |]. split; [exact Ha2 |].
  exists c. split; [exact Hc |].
  intros Heq. rewrite Heq in Hlen. discriminate Hlen.
Qed.

Lemma get_objects_in_active_chunks_cached_witness :
  World_wf streamed_world /\ Active_ok streamed_world
  /\ exists objs w' r',
       get_objects_in_active_chunks (streamed_world, lcg_module)
       = Ok (objs, (w', r'))
       /\ forall r2,
            get_objects_in_active_chunks (w', r2) = Ok (objs, (w', r2)).
Proof.
  destruct streamed_world_wf as (Hw & Ha & _).
  split; [exact Hw |]. split; [exact Ha |].
  destruct (get_objects_in_active_chunks_cached streamed_world lcg_module Hw Ha)
    as (objs & w' & r' & Hrun & _ & _ & _ & _ & _ & Hidem).
  exists objs, w', r'. auto.
Defined.

Lemma object_at_tile_matches_grid_witness :
  exists c : Chunk,
    World_wf streamed_world
    /\ chunks streamed_world !! (chunk_coord 5, chunk_coord 1) = Some c
    /\ objects c <> []
    /\ exists ref o,
         get_object_at_tile 5 1 streamed_world = Ok (Some ref, streamed_world)
         /\ deref streamed_world ref = Some o
         /\ go_x o = 5 * TILE_SIZE /\ go_y o = 1 * TILE_SIZE.
Proof.
  destruct streamed_world_wf as (Hw & _ & c & Hc & Hne).
  exists c. split; [exact Hw |]. split; [exact Hc |]. split; [exact Hne |].
  destruct (object_at_tile_matches_grid (rng:=Z) streamed_world 5 1 c Hw Hc Hne)
    as (ref & o & Hget & Hd & Hx & Hy & _).
  exists ref, o. auto.
Defined.


Lemma tile_lookup_is_cached_witness :
  World_ok World_new
  /\ exists t w' r',
       World_get_tile 5 1 (World_new, lcg_module) = Ok (Some t, (w', r'))
       /\ forall r2, World_get_tile 5 1 (w', r2) = Ok (Some t, (w', r2)).
Proof.
  split; [exact World_ok_new |].
  destruct (tile_lookup_is_cached World_new lcg_module 5 1 World_ok_new)
    as (t & w' & r' & H1 & H2 & _).
  exists t, w', r'. auto.
Defined.



Lemma update_active_chunks_spec_witness :
  World_ok World_new /\ Active_ok World_new
  /\ last_player_chunk World_new <> Some (0, 0)
  /\ exists w' r',
       update_active_chunks 0 0 (World_new, lcg_module) = Ok (tt, (w', r'))
       /\ World_ok w' /\ Active_ok w'
       /\ (1, 2) ∈ active_chunks w' /\ (2, 2) ∉ active_chunks w'.
Proof.
  split; [exact World_ok_new |]. split; [exact Active_ok_new |].
  split; [discriminate |].
  destruct (update_active_chunks_spec World_new lcg_module 0 0
              World_ok_new Active_ok_new)
    as (w' & r' & Hrun & Hw' & Ha' & _ & Hact & _); [discriminate |].
  exists w', r'. split; [exact Hrun |]. split; [exact Hw' |].
  split; [exact Ha' |].
  split; [apply Hact; simpl; lia |].
  intros Hin. apply Hact in Hin. simpl in Hin. lia.
Defined.

Lemma update_active_chunks_memo_witness :
  World_ok World_new
  /\ exists w' r',
       update_active_chunks 0 0 (World_new, lcg_module) = Ok (tt, (w', r'))
       /\ forall r2, update_active_chunks 0 0 (w', r2) = Ok (tt, (w', r2)).
Proof.
  split; [exact World_ok_new |].
  apply (update_active_chunks_memo World_new lcg_module 0 0 World_ok_new).
Defined.

(* ================================================================== *)
(** * The player in the world *)

Lemma Player_ok_new (x y : Z) : Player_ok (Player.new x y).
Proof. repeat split. Qed.

Section PlayerInWorld.
Context {rng : Type} `{!RandomGen rng}.

(** All of [move] in one equation: the player it returns is the player
    after the first steps, moved if the destination is passable, then
    turned to the pointer and given its target and range. *)
Lemma move_full (dx dy : Z) (sprint : bool) (mouse : Z * Z) (p : Player.t)
    (w : World) (r : RandomModule rng) :
  World_ok w ->
  let new_x := Player.x p + dx in
  let new_y := Player.y p + dy in
  let q := Player.begin_move dx dy sprint p in
  exists (t : ObjType) target d w' r',
    let q' := if passable t
              then Player.set_position new_x new_y (new_x / TILE_SIZE)
                     (new_y / TILE_SIZE) q
              else q in
    Player.move dx dy sprint mouse p (w, r)
    = Ok (Player.set_target target (Some 150) (Player.set_direction d q'),
          (w', r'))
    /\ (forall r2, World_get_tile (new_x / TILE_SIZE) (new_y / TILE_SIZE) (w', r2)
                   = Ok (Some t, (w', r2)))
    /\ World_ok w'
    /\ (forall k c, chunks w !! k = Some c -> chunks w' !! k = Some c).
Proof.
  intros Hw new_x new_y q.
  destruct (begin_move_position dx dy sprint p) as (Hx & Hy & _).
  fold q in Hx, Hy.
  destruct (World_get_tile_full w r (new_x / TILE_SIZE) (new_y / TILE_SIZE) Hw)
    as (t & w' & r' & Htile & Hcached & Hmono & _).
  destruct (World_get_tile_total w r (new_x / TILE_SIZE) (new_y / TILE_SIZE) Hw)
    as (t1 & w1 & r1 & Htile1 & Hpass & _ & Hw1).
  rewrite Htile in Htile1. injection Htile1 as <- <- <-.
  destruct mouse as [mx my].
  set (q' := if passable t
             then Player.set_position new_x new_y (new_x / TILE_SIZE)
                    (new_y / TILE_SIZE) q
             else q).
  assert (Hupd : exists target d,
            Player.update_interaction_target (mx, my) q' (w', r')
            = Ok (Player.set_target target (Some 150) (Player.set_direction d q'),
                  (w', r'))).
  { unfold Player.update_interaction_target, Player.get_facing_tile_position,
      get_object_at_tile.
    destruct (chunks w' !! _) as [c|]; [destruct (list_find _ _) as [[i o]|] |];
      eexists _, _; reflexivity. }
  destruct Hupd as (target & d & Hupd).
  exists t, target, d, w', r'. fold q'.
  split; [| auto].
  unfold Player.move, bind. fold q. rewrite Hx, Hy. fold new_x new_y.
  rewrite Hpass. fold q'. exact Hupd.
Qed.

(** X11. [Player.move] keeps the coordinates a player carries
    consistent: if the tile coordinates are those of the pixel position and
    the chunk coordinates those of the tile before the call, they are so
    after it, whether the player moved or was blocked; the chunk coordinates
    are then also the pixel position divided by the size of a chunk in
    pixels, which is how [Game.update] computes the player's chunk. *)
Theorem move_keeps_coordinates_consistent (dx dy : Z) (sprint : bool)
    (mouse : Z * Z) (p : Player.t) (w : World) (r : RandomModule rng) :
  World_ok w -> Player_ok p ->
  exists p' w' r',
    Player.move dx dy sprint mouse p (w, r) = Ok (p', (w', r'))
    /\ Player_ok p'
    /\ Player.chunk_x p' = Player.x p' / (CHUNK_SIZE * TILE_SIZE)
    /\ Player.chunk_y p' = Player.y p' / (CHUNK_SIZE * TILE_SIZE).
Proof.
  intros Hw (Htx & Hty & Hcx & Hcy).
  destruct (move_full dx dy sprint mouse p w r Hw)
    as (t & target & d & w' & r' & Hmove & _).
  destruct (begin_move_position dx dy sprint p)
    as (Hx & Hy & Htx' & Hty' & Hcx' & Hcy' & _).
  eexists _, w', r'. split; [exact Hmove |].
  assert (Hdd : forall a, a / TILE_SIZE / CHUNK_SIZE = a / (CHUNK_SIZE * TILE_SIZE)).
  { intros a. unfold TILE_SIZE, CHUNK_SIZE. rewrite Z.div_div by lia.
    reflexivity. }
  destruct (passable t); simpl.
  - unfold Player_ok. simpl. rewrite !Hdd. auto.
  - unfold Player_ok. simpl. rewrite Hx, Hy, Htx', Hty', Hcx', Hcy'.
    rewrite Hcx, Hcy, Htx, Hty, !Hdd. auto.
Qed.

(** X12. After [Player.move] the player is either where it was, or at
    the requested position and then the tile under that position is
    passable: no call puts the player on an impassable tile. *)
Theorem move_never_enters_impassable_tile (dx dy : Z) (sprint : bool)
    (mouse : Z * Z) (p : Player.t) (w : World) (r : RandomModule rng) :
  World_ok w ->
  exists p' w' r',
    Player.move dx dy sprint mouse p (w, r) = Ok (p', (w', r'))
    /\ ((Player.x p', Player.y p') = (Player.x p, Player.y p)
        \/ ((Player.x p', Player.y p') = (Player.x p + dx, Player.y p + dy)
            /\ forall r2,
                 is_tile_passable (Player.x p' / TILE_SIZE)
                   (Player.y p' / TILE_SIZE) (w', r2)
                 = Ok (true, (w', r2)))).
Proof.
  intros Hw.
  destruct (move_full dx dy sprint mouse p w r Hw)
    as (t & target & d & w' & r' & Hmove & Hcached & _).
  destruct (begin_move_position dx dy sprint p) as (Hx & Hy & _).
  eexists _, w', r'. split; [exact Hmove |].
  destruct (passable t) eqn:Hpass; simpl.
  - right. split; [reflexivity |]. intros r2.
    unfold is_tile_passable, bind. rewrite Hcached, Hpass. reflexivity.
  - left. rewrite Hx, Hy. reflexivity.
Qed.

Lemma math_sqrt_raises (n : Z) (e : exn) :
  math_sqrt n = Raise e -> e = OverflowError \/ e = ValueError.
Proof.
  unfold math_sqrt, float_of_int.
  destruct (PrimFloat.is_infinity _); [intros [= <-]; auto |].
  destruct (PrimFloat.ltb _ _); [intros [= <-]; auto | discriminate].
Qed.

(** X13. A new player has no [interaction_range]: the attribute is
    first set by [update_interaction_target], which [move] calls.  A click
    handled before the first call of [move] raises [AttributeError] (for
    a pointer within four thousand pixels of the player, so that the
    distance is computed); after any call of [move] the range is 150 and
    no click raises [AttributeError]. *)
Theorem interaction_range_is_set_by_move (x y dx dy : Z) (sprint : bool)
    (mouse : Z * Z) (p : Player.t) (w : World) (r : RandomModule rng) :
  World_ok w ->
  Player.interaction_range (Player.new x y) = None
  /\ (forall click g, Game.player g = Player.new x y ->
        Game.click_distance2 click g < 2 ^ 25 ->
        Game.handle_mouse_interaction click g = Raise AttributeError)
  /\ exists p' w' r',
       Player.move dx dy sprint mouse p (w, r) = Ok (p', (w', r'))
       /\ Player.interaction_range p' = Some 150
       /\ forall click g, Game.player g = p' ->
            Game.handle_mouse_interaction click g <> Raise AttributeError.
Proof.
  intros Hw. split; [reflexivity |]. split.
  { intros click g Hg Hsmall. apply click_without_range; [exact Hsmall |].
    rewrite Hg. reflexivity. }
  destruct (move_full dx dy sprint mouse p w r Hw)
    as (t & target & d & w' & r' & Hmove & _).
  eexists _, w', r'. split; [exact Hmove |]. split; [reflexivity |].
  intros [cx cy] g Hg. unfold Game.handle_mouse_interaction.
  destruct (math_sqrt _) as [dist|e] eqn:Hsqrt;
    [| destruct (math_sqrt_raises _ _ Hsqrt) as [-> | ->]; discriminate].
  rewrite Hg. simpl Player.interaction_range. cbv iota beta.
  destruct (float_le_int _ 150); [| discriminate].
  unfold get_object_at_tile.
  destruct (chunks (Game.world g) !! _) as [c|]; [| discriminate].
  destruct (list_find _ _) as [[i o]|]; [| discriminate].
  destruct (deref _ _) as [obj|]; [| discriminate].
  destruct (revealed obj).
  - destruct (_ !! name (obj_type obj)); discriminate.
  - unfold Player.learn_word, obj_getitem.
    repeat match goal with
           | |- context [if ?b then _ else _] => destruct b
           end;
      try discriminate;
      repeat match goal with
             | |- context [match ?x !! ?k with _ => _ end] => destruct (x !! k)
             end;
      try discriminate;
      repeat match goal with
             | |- context [if ?b then _ else _] => destruct b
             end; discriminate.
Qed.

Lemma move_result_direction (dx dy : Z) (sprint : bool) (mouse : Z * Z)
    (p p' : Player.t) (s s' : @WState rng) :
  Player.move dx dy sprint mouse p s = Ok (p', s') ->
  Player.direction p' = DIRECTION_UP \/ Player.direction p' = DIRECTION_DOWN
  \/ Player.direction p' = DIRECTION_LEFT
  \/ Player.direction p' = DIRECTION_RIGHT.
Proof.
  unfold Player.move, bind.
  destruct (is_tile_passable _ _ s) as [[ok [w1 r1]]|]; [| discriminate].
  destruct mouse as [mx my].
  unfold Player.update_interaction_target, Player.get_facing_tile_position.
  destruct (get_object_at_tile _ _ w1) as [[tg w2]|]; [| discriminate].
  intros [= <- _]. simpl. unfold Player.pointer_direction.
  repeat match goal with
         | |- context [if ?b then _ else _] => destruct b
         end; auto.
Qed.

(** X14. [Player.move] keeps the walking animation in range: from a
    frame in [0, 4) and a counter below [animation_speed], it leaves a frame
    in [0, 4) and a counter below the unchanged [animation_speed].  A call
    with a zero delta stops the animation and resets both; any other call
    either advances the counter by one, or, when the counter reaches
    [animation_speed], resets it and steps to the next of the four frames.
    The speed is the sprint or the normal speed as asked, and the facing
    left by the call is one of the four directions. *)
Theorem move_keeps_animation_in_range (dx dy : Z) (sprint : bool)
    (mouse : Z * Z) (p : Player.t) (w : World) (r : RandomModule rng) :
  World_ok w ->
  0 <= Player.animation_frame p < 4 ->
  0 <= Player.animation_counter p < Player.animation_speed p ->
  exists p' w' r',
    Player.move dx dy sprint mouse p (w, r) = Ok (p', (w', r'))
    /\ Player.animation_speed p' = Player.animation_speed p
    /\ 0 <= Player.animation_frame p' < 4
    /\ 0 <= Player.animation_counter p' < Player.animation_speed p'
    /\ (dx = 0 -> dy = 0 ->
        Player.is_moving p' = false
        /\ Player.animation_frame p' = 0 /\ Player.animation_counter p' = 0)
    /\ (dx <> 0 \/ dy <> 0 ->
        Player.is_moving p' = true
        /\ ((Player.animation_frame p' = Player.animation_frame p
             /\ Player.animation_counter p' = Player.animation_counter p + 1)
            \/ (Player.animation_frame p'
                = (Player.animation_frame p + 1) mod 4
                /\ Player.animation_counter p' = 0
                /\ Player.animation_counter p + 1 = Player.animation_speed p)))
    /\ Player.speed p'
       = (if sprint then Player.sprint_speed p else Player.normal_speed p)
    /\ (Player.direction p' = DIRECTION_UP
        \/ Player.direction p' = DIRECTION_DOWN
        \/ Player.direction p' = DIRECTION_LEFT
        \/ Player.direction p' = DIRECTION_RIGHT).
Proof.
  intros Hw Hf Hc.
  destruct (move_full dx dy sprint mouse p w r Hw)
    as (t & target & d & w' & r' & Hmove & _).
  pose proof (move_result_direction _ _ _ _ _ _ _ _ Hmove) as Hdir.
  eexists _, w', r'. split; [exact Hmove |].
  split; [| split; [| split; [| split; [| split; [| split]]]]];
    try exact Hdir; clear Hmove Hdir;
    destruct (passable t); simpl; unfold Player.begin_move;
    destruct (Z.eqb_spec dx 0) as [Hdx|Hdx];
    destruct (Z.eqb_spec dy 0) as [Hdy|Hdy]; simpl;
    try destruct (Z.leb_spec (Player.animation_speed p)
                             (Player.animation_counter p + 1));
    simpl; try reflexivity; try lia;
    try (pose proof (Z.mod_pos_bound (Player.animation_frame p + 1) 4); lia);
    try (intros; exfalso; lia);
    try (intros _; split; [reflexivity |]; first [left; split; [reflexivity | lia] | right; split; [reflexivity |]; split; [reflexivity | lia]]);
    try (intros _ _; auto).
Qed.

End PlayerInWorld.

(* ================================================================== *)
(** * The ledger over many reveals *)

(** All of [learn_word] in one equation. *)
Lemma learn_word_shape (obj : ObjType) (language : string) (p p' : Player.t)
    (e : WordData) :
  Player.learn_word obj language p = Ok (e, p') ->
  exists sc,
    p' = Player.set_progress sc
           (<[language := <[name obj := e]>
                (Player.language_words language (Player.words_learned p))]>
              (Player.words_learned p)) p
    /\ match ledger_entry p language (name obj) with
       | None => views e = 1 /\ wd_mastered e = false /\ sc = Player.score p + 10
       | Some e0 =>
           views e = views e0 + 1
           /\ word e = word e0 /\ wd_english e = wd_english e0
           /\ wd_mastered e
              = ((5 <=? views e0 + 1) && negb (wd_mastered e0)) || wd_mastered e0
           /\ Player.score p <= sc <= Player.score p + 50
       end.
Proof.
  unfold Player.learn_word.
  destruct (obj_getitem obj language) as [w|]; [| discriminate].
  rewrite language_words_lookup.
  destruct (ledger_entry p language (name obj)) as [e0|].
  - destruct (5 <=? views e0 + 1); destruct (wd_mastered e0); simpl;
      intros [= <- <-]; eexists; (split; [reflexivity |]); simpl;
      repeat split; lia.
  - intros [= <- <-]. eexists. split; [reflexivity |]. simpl. auto.
Qed.

Lemma ledger_entry_learned (p : Player.t) (sc : Z) (language nm : string)
    (e : WordData) (l n : string) :
  ledger_entry
    (Player.set_progress sc
       (<[language := <[nm := e]>
            (Player.language_words language (Player.words_learned p))]>
          (Player.words_learned p)) p) l n
  = if decide (l = language /\ n = nm) then Some e else ledger_entry p l n.
Proof.
  unfold ledger_entry at 1. simpl.
  destruct (decide (l = language)) as [->|Hl].
  - rewrite lookup_insert_eq. simpl.
    destruct (decide (n = nm)) as [->|Hn].
    + rewrite lookup_insert_eq, decide_True by auto. reflexivity.
    + rewrite lookup_insert_ne by congruence.
      rewrite decide_False by tauto. apply language_words_lookup.
  - rewrite lookup_insert_ne by congruence.
    rewrite decide_False by tauto. reflexivity.
Qed.

(** X15. A successful [Player.learn_word] returns the entry that the
    ledger then holds for the word and language, leaves every other entry of
    every language as it was, raises the score by at most 50 and never
    lowers it, and does not move or turn the player. *)
Theorem learn_word_touches_one_entry (obj : ObjType) (language : string)
    (p p' : Player.t) (e : WordData) :
  Player.learn_word obj language p = Ok (e, p') ->
  ledger_entry p' language (name obj) = Some e
  /\ (forall l n, ~ (l = language /\ n = name obj) ->
        ledger_entry p' l n = ledger_entry p l n)
  /\ Player.score p <= Player.score p' <= Player.score p + 50
  /\ (Player.x p', Player.y p', Player.direction p', Player.interaction_range p')
     = (Player.x p, Player.y p, Player.direction p, Player.interaction_range p).
Proof.
  intros Hl. destruct (learn_word_shape _ _ _ _ _ Hl) as (sc & -> & Hcase).
  split; [rewrite ledger_entry_learned, decide_True by auto; reflexivity |].
  split.
  { intros l n Hne. rewrite ledger_entry_learned, decide_False by exact Hne.
    reflexivity. }
  split; [| reflexivity].
  simpl. destruct (ledger_entry p language (name obj)); lia.
Qed.

Lemma learn_word_step_monotone (obj : ObjType) (language : string)
    (p p' : Player.t) (e : WordData) :
  Player.learn_word obj language p = Ok (e, p') ->
  Player.score p <= Player.score p'
  /\ forall l n e0, ledger_entry p l n = Some e0 ->
       exists e', ledger_entry p' l n = Some e'
                  /\ views e0 <= views e'
                  /\ (wd_mastered e0 = true -> wd_mastered e' = true)
                  /\ word e' = word e0 /\ wd_english e' = wd_english e0.
Proof.
  intros Hl. destruct (learn_word_shape _ _ _ _ _ Hl) as (sc & -> & Hcase).
  split; [simpl; destruct (ledger_entry p language (name obj)); lia |].
  intros l n e0 He0. rewrite ledger_entry_learned.
  destruct (decide (l = language /\ n = name obj)) as [[-> ->]|Hne].
  - rewrite He0 in Hcase. destruct Hcase as (Hv & Hw & He & Hm & _).
    exists e. split; [reflexivity |]. split; [lia |].
    split; [| auto]. intros Hm0. rewrite Hm, Hm0. apply orb_true_r.
  - exists e0. split; [exact He0 |]. split; [lia | auto].
Qed.

(** X16. Over any sequence of reveals the score never decreases, no
    ledger entry disappears, its view count never decreases, a mastered
    entry stays mastered, and the word and its English stored at the first
    reveal are never rewritten. *)
Theorem mastery_is_monotone (reveals : list (ObjType * string))
    (p p' : Player.t) :
  learn_all reveals p = Ok p' ->
  Player.score p <= Player.score p'
  /\ forall l n e0, ledger_entry p l n = Some e0 ->
       exists e', ledger_entry p' l n = Some e'
                  /\ views e0 <= views e'
                  /\ (wd_mastered e0 = true -> wd_mastered e' = true)
                  /\ word e' = word e0 /\ wd_english e' = wd_english e0.
Proof.
  revert p. induction reveals as [|[obj language] rest IH]; intros p Hrun.
  - injection Hrun as <-. split; [lia |]. intros l n e0 He0.
    exists e0. split; [exact He0 |]. split; [lia | auto].
  - simpl in Hrun.
    destruct (Player.learn_word obj language p) as [[e p1]|] eqn:Hl;
      [| discriminate].
    destruct (learn_word_step_monotone _ _ _ _ _ Hl) as [Hs1 He1].
    destruct (IH p1 Hrun) as [Hs2 He2].
    split; [lia |]. intros l n e0 He0.
    destruct (He1 l n e0 He0) as (e1 & H1 & Hv1 & Hm1 & Hw1 & Hen1).
    destruct (He2 l n e1 H1) as (e2 & H2 & Hv2 & Hm2 & Hw2 & Hen2).
    exists e2. split; [exact H2 |]. split; [lia |].
    split; [auto |]. split; congruence.
Qed.

Lemma Ledger_ok_new (x y : Z) : Ledger_ok (Player.new x y).
Proof.
  intros l n e He. unfold ledger_entry in He. simpl in He.
  rewrite lookup_empty in He. discriminate.
Qed.

Lemma learn_word_Ledger_ok (obj : ObjType) (language : string)
    (p p' : Player.t) (e : WordData) :
  Player.learn_word obj language p = Ok (e, p') ->
  Ledger_ok p -> Ledger_ok p'.
Proof.
  intros Hl Hok. destruct (learn_word_shape _ _ _ _ _ Hl) as (sc & -> & Hcase).
  intros l n e1. rewrite ledger_entry_learned.
  destruct (decide (l = language /\ n = name obj)) as [[-> ->]|Hne];
    [| apply Hok].
  intros [= <-].
  destruct (ledger_entry p language (name obj)) as [e0|] eqn:He0.
  - destruct (Hok _ _ _ He0) as [Hv Hm].
    destruct Hcase as (Hv' & _ & _ & Hm' & _).
    split; [lia |]. rewrite Hm', Hv'.
    destruct (wd_mastered e0).
    + rewrite orb_true_r.
      assert (5 <= views e0) by (apply Hm; reflexivity).
      split; [intros _; lia | reflexivity].
    + rewrite orb_false_r, andb_true_r. apply Z.leb_le.
  - destruct Hcase as (-> & -> & _). split; [lia |]. split; [discriminate | lia].
Qed.

(** X17. Starting from a new player, after any sequence of reveals every
    ledger entry has been viewed at least once and is mastered exactly when
    it has been viewed five times or more. *)
Theorem mastered_iff_five_views (reveals : list (ObjType * string))
    (x y : Z) (p' : Player.t) :
  learn_all reveals (Player.new x y) = Ok p' -> Ledger_ok p'.
Proof.
  intros Hrun.
  assert (Hgen : forall p, Ledger_ok p -> learn_all reveals p = Ok p' ->
                           Ledger_ok p').
  { clear Hrun. induction reveals as [|[obj language] rest IH]; intros p Hok Hrun.
    - injection Hrun as <-. exact Hok.
    - simpl in Hrun.
      destruct (Player.learn_word obj language p) as [[e p1]|] eqn:Hl;
        [| discriminate].
      apply (IH p1); [| exact Hrun].
      eapply learn_word_Ledger_ok; eauto. }
  apply (Hgen (Player.new x y)); [apply Ledger_ok_new | exact Hrun].
Qed.

(* ================================================================== *)
(** * Clicks on objects *)

Lemma list_find_insert_pos {A} (P : A -> Prop) `{!forall x, Decision (P x)}
    (l : list A) (i : nat) (x y : A) :
  list_find P l = Some (i, x) -> P y ->
  list_find P (<[i := y]> l) = Some (i, y).
Proof.
  intros Hfind Hy. apply list_find_Some in Hfind as (Hi & Hx & Hbefore).
  apply list_find_Some. split.
  { apply list_lookup_insert_eq. apply lookup_lt_Some in Hi. exact Hi. }
  split; [exact Hy |].
  intros j z Hj Hlt. rewrite list_lookup_insert_ne in Hj by lia.
  eapply Hbefore; eauto.
Qed.

Lemma deref_update_obj (w : World) (ref : ObjRef) (o : GameObject)
    (f : GameObject -> GameObject) :
  deref w ref = Some o ->
  deref (update_obj ref f w) ref = Some (f o)
  /\ forall ref', ref' <> ref -> deref (update_obj ref f w) ref' = deref w ref'.
Proof.
  unfold deref, update_obj. intros Hd.
  destruct (chunks w !! ref_chunk ref) as [c|] eqn:Hc; [| discriminate].
  simpl in Hd. rewrite Hd. simpl. split.
  - rewrite lookup_insert_eq. simpl.
    apply list_lookup_insert_eq. apply lookup_lt_Some in Hd. exact Hd.
  - intros ref' Hne.
    destruct (decide (ref_chunk ref = ref_chunk ref')) as [Heq|Hck].
    + rewrite <- Heq, lookup_insert_eq, Hc. simpl.
      apply list_lookup_insert_ne. intros Hi. apply Hne.
      destruct ref, ref'. simpl in *. congruence.
    + rewrite lookup_insert_ne by exact Hck. reflexivity.
Qed.

Lemma get_object_at_tile_update_obj (w : World) (tx ty : Z) (ref : ObjRef)
    (o : GameObject) (f : GameObject -> GameObject) :
  get_object_at_tile tx ty w = Ok (Some ref, w) ->
  deref w ref = Some o ->
  get_tile_position (f o) = get_tile_position o ->
  get_object_at_tile tx ty (update_obj ref f w)
  = Ok (Some ref, update_obj ref f w).
Proof.
  unfold get_object_at_tile, deref, update_obj. intros Hget Hd Hpos.
  destruct (chunks w !! (chunk_coord tx, chunk_coord ty)) as [c|] eqn:Hc;
    [| discriminate].
  destruct (list_find _ (objects c)) as [[i o']|] eqn:Hfind; [| discriminate].
  injection Hget as <-. simpl in *. rewrite Hc in *. simpl in Hd.
  rewrite Hd. simpl. rewrite lookup_insert_eq. simpl.
  pose proof Hfind as Hfind'.
  apply list_find_Some in Hfind' as (Hi & Ho' & _).
  assert (o' = o) by congruence. subst o'.
  rewrite (list_find_insert_pos _ _ _ _ (f o) Hfind)
    by (rewrite Hpos; exact Ho').
  reflexivity.
Qed.

(** A click within 150 pixels of the player's centre passes the distance
    test of the handler. *)
Lemma click_in_range_150 (mouse : Z * Z) (g : Game.t) :
  Game.click_distance2 mouse g <= 150 * 150 ->
  exists dist,
    math_sqrt (Game.click_distance2 mouse g) = Ok dist
    /\ float_le_int dist 150 = true.
Proof.
  intros Hin.
  destruct (math_sqrt_150 (Game.click_distance2 mouse g)) as (d & Hd & Hle).
  { split; [apply click_distance2_nonneg |].
    assert (150 * 150 < 2 ^ 25) by reflexivity. lia. }
  exists d. split; [exact Hd |]. rewrite Hle. apply Z.leb_le, Hin.
Qed.

(** All of a click in range on a revealed object. *)
Lemma click_revealed_full (mouse : Z * Z) (g : Game.t)
    (ref : ObjRef) (obj : GameObject) :
  Player.interaction_range (Game.player g) = Some 150 ->
  Game.click_distance2 mouse g <= 150 * 150 ->
  get_object_at_tile ((mouse.1 + Game.camera_x g) / TILE_SIZE)
                     ((mouse.2 + Game.camera_y g) / TILE_SIZE) (Game.world g)
  = Ok (Some ref, Game.world g) ->
  deref (Game.world g) ref = Some obj ->
  revealed obj = true ->
  exists g',
    Game.handle_mouse_interaction mouse g = Ok g'
    /\ Player.score (Game.player g') = Player.score (Game.player g)
    /\ (forall l n, ledger_entry (Game.player g') l n
                    = ledger_entry (Game.player g) l n)
    /\ deref (Game.world g') ref = Some (toggle_translation obj)
    /\ (forall ref', ref' <> ref ->
          deref (Game.world g') ref' = deref (Game.world g) ref')
    /\ Game.target_language g' = Game.target_language g.
Proof.
  intros Hrg Hin Hget Hd Hrev.
  destruct (click_in_range_150 _ _ Hin) as (dist & Hsqrt & Hle).
  destruct mouse as [mx my]. simpl in Hget.
  destruct (deref_update_obj (Game.world g) ref obj toggle_translation Hd)
    as [Hd1 Hd2].
  assert (Hledger : forall l n,
    ledger_entry
      (Player.set_progress (Player.score (Game.player g))
         (<[Game.target_language g :=
              Player.language_words (Game.target_language g)
                (Player.words_learned (Game.player g))]>
            (Player.words_learned (Game.player g))) (Game.player g)) l n
    = ledger_entry (Game.player g) l n).
  { intros l n. unfold ledger_entry, Player.language_words. simpl.
    destruct (decide (l = Game.target_language g)) as [->|Hl].
    - rewrite lookup_insert_eq.
      destruct (Player.words_learned (Game.player g) !! Game.target_language g);
        simpl; [reflexivity | apply lookup_empty].
    - rewrite lookup_insert_ne by congruence. reflexivity. }
  unfold Game.handle_mouse_interaction.
  rewrite Hsqrt, Hrg, Hle, Hget, Hd, Hrev.
  destruct (_ !! name (obj_type obj));
    (eexists; split; [reflexivity |]; simpl; auto 10).
Qed.

(** X18. A click within range on an object that is already revealed
    only toggles which language that object shows: the score and every
    ledger entry are unchanged (the word is not learned again), no other
    object changes, and the target language is kept. *)
Theorem click_on_revealed_object (mouse : Z * Z) (g : Game.t)
    (ref : ObjRef) (obj : GameObject) :
  Player.interaction_range (Game.player g) = Some 150 ->
  Game.click_distance2 mouse g <= 150 * 150 ->
  get_object_at_tile ((mouse.1 + Game.camera_x g) / TILE_SIZE)
                     ((mouse.2 + Game.camera_y g) / TILE_SIZE) (Game.world g)
  = Ok (Some ref, Game.world g) ->
  deref (Game.world g) ref = Some obj ->
  revealed obj = true ->
  exists g',
    Game.handle_mouse_interaction mouse g = Ok g'
    /\ Player.score (Game.player g') = Player.score (Game.player g)
    /\ (forall l n, ledger_entry (Game.player g') l n
                    = ledger_entry (Game.player g) l n)
    /\ deref (Game.world g') ref = Some (toggle_translation obj)
    /\ (forall ref', ref' <> ref ->
          deref (Game.world g') ref' = deref (Game.world g) ref')
    /\ Game.target_language g' = Game.target_language g.
Proof. apply click_revealed_full. Qed.

(** X19. An object counts once.  The first click within range on an
    unrevealed object reveals it and records the word with
    [Player.learn_word]; a second click on it adds neither score nor views
    and only toggles the translation of the now revealed object. *)
Theorem object_is_learned_once (mouse : Z * Z) (g : Game.t)
    (ref : ObjRef) (obj : GameObject) (w0 : PyVal) :
  Player.interaction_range (Game.player g) = Some 150 ->
  Game.click_distance2 mouse g <= 150 * 150 ->
  get_object_at_tile ((mouse.1 + Game.camera_x g) / TILE_SIZE)
                     ((mouse.2 + Game.camera_y g) / TILE_SIZE) (Game.world g)
  = Ok (Some ref, Game.world g) ->
  deref (Game.world g) ref = Some obj ->
  revealed obj = false ->
  obj_getitem (obj_type obj) (Game.target_language g) = Ok w0 ->
  exists g1 g2 e,
    Game.handle_mouse_interaction mouse g = Ok g1
    /\ Player.learn_word (obj_type obj) (Game.target_language g) (Game.player g)
       = Ok (e, Game.player g1)
    /\ deref (Game.world g1) ref = Some (set_revealed true obj)
    /\ Game.handle_mouse_interaction mouse g1 = Ok g2
    /\ Player.score (Game.player g2) = Player.score (Game.player g1)
    /\ (forall l n, ledger_entry (Game.player g2) l n
                    = ledger_entry (Game.player g1) l n)
    /\ deref (Game.world g2) ref
       = Some (toggle_translation (set_revealed true obj)).
Proof.
  intros Hrg Hin Hget Hd Hrev Hw0.
  destruct (click_in_range_150 _ _ Hin) as (dist & Hsqrt & Hle).
  destruct (deref_update_obj (Game.world g) ref obj (set_revealed true) Hd)
    as [Hd1 _].
  assert (Hlearn : exists e p1,
            Player.learn_word (obj_type obj) (Game.target_language g)
              (Game.player g) = Ok (e, p1)).
  { unfold Player.learn_word. rewrite Hw0.
    destruct (_ !! name (obj_type obj)) as [e0|]; [| eauto].
    destruct ((5 <=? views e0 + 1) && negb (wd_mastered e0));
      [| destruct (negb (wd_mastered e0))]; eauto. }
  destruct Hlearn as (e & p1 & Hlearn).
  destruct (learn_word_shape _ _ _ _ _ Hlearn) as (sc & Hp1 & _).
  set (g1 := {| Game.player := p1;
                Game.world := update_obj ref (set_revealed true) (Game.world g);
                Game.target_language := Game.target_language g;
                Game.show_word_display := true;
                Game.word_display_timer := 432;
                Game.current_word_data :=
                  Some (Game.target_language g, name (obj_type obj));
                Game.word_display_showing_translation := false;
                Game.camera_x := Game.camera_x g;
                Game.camera_y := Game.camera_y g |}).
  assert (H1 : Game.handle_mouse_interaction mouse g = Ok g1).
  { unfold Game.handle_mouse_interaction. destruct mouse as [mx my].
    simpl in Hget. rewrite Hsqrt, Hrg, Hle, Hget, Hd, Hrev, Hlearn.
    reflexivity. }
  destruct (click_revealed_full mouse g1 ref (set_revealed true obj))
    as (g2 & H2 & Hsc & Hled & Hd2 & _).
  - subst p1. simpl. exact Hrg.
  - replace (Game.click_distance2 mouse g1) with (Game.click_distance2 mouse g);
      [exact Hin |].
    unfold Game.click_distance2. destruct mouse. subst p1. reflexivity.
  - simpl. apply (get_object_at_tile_update_obj _ _ _ _ obj);
      [exact Hget | exact Hd | reflexivity].
  - exact Hd1.
  - reflexivity.
  - exists g1, g2, e. auto 10.
Qed.

(** X20. Objects exist only once they have been built for drawing: a
    click on a tile whose chunk is not registered, or is registered with no
    objects built yet, leaves the whole game as it was, in range or not
    (for a player that has its range and a pointer within four thousand
    pixels of it). *)
Theorem click_before_objects_exist (mouse : Z * Z) (g : Game.t) :
  Player.interaction_range (Game.player g) = Some 150 ->
  Game.click_distance2 mouse g < 2 ^ 25 ->
  (forall c,
      chunks (Game.world g)
        !! (chunk_coord ((mouse.1 + Game.camera_x g) / TILE_SIZE),
            chunk_coord ((mouse.2 + Game.camera_y g) / TILE_SIZE)) = Some c ->
      objects c = []) ->
  Game.handle_mouse_interaction mouse g = Ok g.
Proof.
  intros Hrg Hsmall Hobjs.
  destruct (math_sqrt_150 (Game.click_distance2 mouse g)) as (dist & Hsqrt & _).
  { split; [apply click_distance2_nonneg | exact Hsmall]. }
  destruct mouse as [mx my]. simpl in Hobjs.
  unfold Game.handle_mouse_interaction. rewrite Hsqrt, Hrg.
  assert (Hget : get_object_at_tile ((mx + Game.camera_x g) / TILE_SIZE)
                   ((my + Game.camera_y g) / TILE_SIZE) (Game.world g)
                 = Ok (None, Game.world g)).
  { unfold get_object_at_tile.
    destruct (chunks (Game.world g) !! _) as [c|] eqn:Hc; [| reflexivity].
    rewrite (Hobjs c eq_refl). reflexivity. }
  rewrite Hget. destruct g. simpl.
  destruct (float_le_int dist 150); reflexivity.
Qed.

Lemma object_is_learned_once_witness :
  match deref (Game.world streamed_game)
              {| ref_chunk := (0, 0); ref_index := 0 |} with
  | Some obj =>
      Player.interaction_range (Game.player streamed_game) = Some 150
      /\ Game.click_distance2 (420, 320) streamed_game <= 150 * 150
      /\ get_object_at_tile
           (((420, 320).1 + Game.camera_x streamed_game) / TILE_SIZE)
           (((420, 320).2 + Game.camera_y streamed_game) / TILE_SIZE)
           (Game.world streamed_game)
         = Ok (Some {| ref_chunk := (0, 0); ref_index := 0 |},
               Game.world streamed_game)
      /\ revealed obj = false
      /\ obj_getitem (obj_type obj) (Game.target_language streamed_game)
         = Ok (VStr "hierba")
      /\ exists g1 g2,
           Game.handle_mouse_interaction (420, 320) streamed_game = Ok g1
           /\ Game.handle_mouse_interaction (420, 320) g1 = Ok g2
           /\ Player.score (Game.player g2) = Player.score (Game.player g1)
  | None => False
  end.
Proof.
  assert (H3 : get_object_at_tile
                 (((420, 320).1 + Game.camera_x streamed_game) / TILE_SIZE)
                 (((420, 320).2 + Game.camera_y streamed_game) / TILE_SIZE)
                 (Game.world streamed_game)
               = Ok (Some {| ref_chunk := (0, 0); ref_index := 0 |},
                     Game.world streamed_game))
    by (vm_compute; reflexivity).
  assert (H4 : exists obj,
             deref (Game.world streamed_game)
                   {| ref_chunk := (0, 0); ref_index := 0 |} = Some obj
             /\ revealed obj = false
             /\ obj_getitem (obj_type obj) (Game.target_language streamed_game)
                = Ok (VStr "hierba")).
  { eexists. split; [vm_compute; reflexivity |]. split; reflexivity. }
  destruct H4 as (obj & H4 & H5 & H6). rewrite H4.
  assert (H2 : Game.click_distance2 (420, 320) streamed_game <= 150 * 150)
    by (vm_compute; discriminate).
  split; [reflexivity |]. split; [exact H2 |]. split; [exact H3 |].
  split; [exact H5 |]. split; [exact H6 |].
  destruct (object_is_learned_once (420, 320) streamed_game
              {| ref_chunk := (0, 0); ref_index := 0 |} obj (VStr "hierba")
              eq_refl H2 H3 H4 H5 H6)
    as (g1 & g2 & e & Hc1 & _ & _ & Hc2 & Hsc & _).
  exists g1, g2. auto.
Defined.

Lemma click_on_revealed_object_witness :
  match deref (Game.world clicked_game)
              {| ref_chunk := (0, 0); ref_index := 0 |} with
  | Some obj =>
      Player.interaction_range (Game.player clicked_game) = Some 150
      /\ Game.click_distance2 (420, 320) clicked_game <= 150 * 150
      /\ get_object_at_tile
           (((420, 320).1 + Game.camera_x clicked_game) / TILE_SIZE)
           (((420, 320).2 + Game.camera_y clicked_game) / TILE_SIZE)
           (Game.world clicked_game)
         = Ok (Some {| ref_chunk := (0, 0); ref_index := 0 |},
               Game.world clicked_game)
      /\ revealed obj = true
      /\ exists g',
           Game.handle_mouse_interaction (420, 320) clicked_game = Ok g'
           /\ Player.score (Game.player g') = Player.score (Game.player clicked_game)
  | None => False
  end.
Proof.
  assert (H1 : Player.interaction_range (Game.player clicked_game) = Some 150)
    by (vm_compute; reflexivity).
  assert (H2 : Game.click_distance2 (420, 320) clicked_game <= 150 * 150)
    by (vm_compute; discriminate).
  assert (H3 : get_object_at_tile
                 (((420, 320).1 + Game.camera_x clicked_game) / TILE_SIZE)
                 (((420, 320).2 + Game.camera_y clicked_game) / TILE_SIZE)
                 (Game.world clicked_game)
               = Ok (Some {| ref_chunk := (0, 0); ref_index := 0 |},
                     Game.world clicked_game))
    by (vm_compute; reflexivity).
  assert (H4 : exists obj,
             deref (Game.world clicked_game)
                   {| ref_chunk := (0, 0); ref_index := 0 |} = Some obj
             /\ revealed obj = true).
  { eexists. split; [vm_compute; reflexivity | reflexivity]. }
  destruct H4 as (obj & H4 & H5). rewrite H4.
  split; [exact H1 |]. split; [exact H2 |]. split; [exact H3 |].
  split; [exact H5 |].
  destruct (click_on_revealed_object (420, 320) clicked_game
              {| ref_chunk := (0, 0); ref_index := 0 |} obj H1 H2 H3 H4 H5)
    as (g' & Hc & Hsc & _).
  exists g'. auto.
Defined.

(* ================================================================== *)
(** * Saving and loading *)

Lemma load_words_fold (language : string) (words : list (string * json))
    (ledger : gmap string (gmap string json)) :
  Loader.load_words language words ledger
  = match words with
    | [] => ledger
    | _ :: _ =>
        <[language := fold_left (fun m '(w, data) => <[w := data]> m) words
                        (default ∅ (ledger !! language))]> ledger
    end.
Proof.
  unfold Loader.load_words.
  revert ledger. induction words as [|[w data] rest IH]; intros ledger;
    [reflexivity |].
  simpl. rewrite IH. destruct rest as [|wd rest]; [reflexivity |].
  rewrite lookup_insert_eq. simpl. apply insert_insert_eq.
Qed.

Lemma fold_insert_list_to_map (l : list (string * json))
    (m0 : gmap string json) :
  NoDup l.*1 ->
  fold_left (fun m '(w, data) => <[w := data]> m) l m0 = list_to_map l ∪ m0.
Proof.
  revert m0. induction l as [|[k v] l IH]; intros m0 Hnd; simpl.
  - rewrite (left_id_L ∅ (∪)). reflexivity.
  - apply NoDup_cons in Hnd as [Hk Hnd]. rewrite IH by exact Hnd.
    rewrite <- insert_union_l. apply eq_sym, insert_union_r.
    apply not_elem_of_list_to_map_1. exact Hk.
Qed.

Lemma load_words_map_to_list (language : string) (words : gmap string json)
    (ledger : gmap string (gmap string json)) :
  ledger !! language = None ->
  Loader.load_words language (map_to_list words) ledger
  = match nonempty_words words with
    | Some d => <[language := d]> ledger
    | None => ledger
    end.
Proof.
  intros Hnone. rewrite load_words_fold. unfold nonempty_words.
  destruct (map_to_list words) as [|wd rest] eqn:Hl.
  - apply map_to_list_empty_iff in Hl. subst words.
    rewrite decide_True by apply map_size_empty. reflexivity.
  - rewrite decide_False.
    2: { intros Hs. apply map_size_empty_iff in Hs. subst words.
         rewrite map_to_list_empty in Hl. discriminate. }
    rewrite <- Hl, Hnone. simpl.
    rewrite fold_insert_list_to_map by apply NoDup_fst_map_to_list.
    rewrite list_to_map_to_list, (right_id_L ∅ (∪)). reflexivity.
Qed.

Lemma load_ledger_list (L : list (string * gmap string json))
    (acc : gmap string (gmap string json)) :
  NoDup L.*1 ->
  (forall k, k ∈ L.*1 -> acc !! k = None) ->
  exists m,
    Loader.load_ledger
      (prod_map id (fun words => JObj (map_to_list words)) <$> L) acc = Ok m
    /\ forall k, m !! k = match (list_to_map L : gmap string _) !! k with
                          | Some d => nonempty_words d
                          | None => acc !! k
                          end.
Proof.
  revert acc. induction L as [|[k0 d0] L IH]; intros acc Hnd Hacc.
  - exists acc. split; [reflexivity |]. intros k. simpl.
    rewrite lookup_empty. reflexivity.
  - apply NoDup_cons in Hnd as [Hk0 Hnd]. simpl.
    rewrite load_words_map_to_list by (apply Hacc; left).
    set (acc1 := match nonempty_words d0 with
                 | Some d => <[k0 := d]> acc
                 | None => acc
                 end).
    assert (Hacc1 : forall k, k ∈ L.*1 -> acc1 !! k = None).
    { intros k Hk. assert (k <> k0) by (intros ->; contradiction).
      unfold acc1. destruct (nonempty_words d0).
      - rewrite lookup_insert_ne by congruence. apply Hacc. right. exact Hk.
      - apply Hacc. right. exact Hk. }
    destruct (IH acc1 Hnd Hacc1) as (m & Hm & Hlook).
    exists m. split; [exact Hm |]. intros k. rewrite Hlook.
    destruct (decide (k = k0)) as [->|Hne].
    + rewrite lookup_insert_eq.
      rewrite (not_elem_of_list_to_map_1 L k0 Hk0).
      unfold acc1. destruct (nonempty_words d0).
      * apply lookup_insert_eq.
      * apply Hacc. left.
    + rewrite lookup_insert_ne by congruence.
      destruct (list_to_map L !! k); [reflexivity |].
      unfold acc1. destruct (nonempty_words d0); [| reflexivity].
      apply lookup_insert_ne. congruence.
Qed.

Lemma load_ledger_json (ledger : gmap string (gmap string json)) :
  exists fields,
    ledger_json ledger = JObj fields
    /\ Loader.load_ledger fields ∅ = Ok (omap nonempty_words ledger).
Proof.
  unfold ledger_json. eexists. split; [reflexivity |].
  rewrite map_to_list_fmap.
  destruct (load_ledger_list (map_to_list ledger) ∅)
    as (m & Hm & Hlook).
  - apply NoDup_fst_map_to_list.
  - intros k _. apply lookup_empty.
  - rewrite Hm. f_equal. apply map_eq. intros k.
    rewrite Hlook, list_to_map_to_list, lookup_omap, lookup_empty.
    destruct (ledger !! k); reflexivity.
Qed.

(** X21. Loading what [Game.save_progress] wrote, for a player whose
    position is numeric, succeeds and restores the score, the position, the
    language and the window mode.  The ledger comes back entry for entry,
    except that a language saved with no words is dropped: the loader only
    creates a language when it copies a word into it. *)
Theorem save_then_load (p : Loader.LoadedPlayer) (language window_mode : json)
    (g : Loader.t) :
  is_number (Loader.pos_x p) = true ->
  is_number (Loader.pos_y p) = true ->
  Loader.load_progress (Parsed (save_data p language window_mode)) g
  = Ok {| Loader.player :=
            Some {| Loader.pos_x := Loader.pos_x p;
                    Loader.pos_y := Loader.pos_y p;
                    Loader.score := Loader.score p;
                    Loader.words_learned :=
                      omap nonempty_words (Loader.words_learned p) |};
          Loader.target_language := language;
          Loader.window_mode := window_mode |}.
Proof.
  intros Hx Hy.
  destruct (load_ledger_json (Loader.words_learned p)) as (fields & Hj & Hload).
  unfold Loader.load_progress, Loader.load_saved, save_data. rewrite Hj. simpl.
  rewrite Hx, Hy. simpl. rewrite Hload. reflexivity.
Qed.

(** X22. Whenever [Game.load_progress] succeeds on parsed data, the
    data is a dict with a ["score"] and a ["words_learned"] dict; the
    player's score is the stored one, the position is numeric, and without
    a ["settings"] entry the language and window mode are left as they
    were. *)
Theorem load_success_needs_score_and_ledger (d : json) (g g' : Loader.t) :
  Loader.load_progress (Parsed d) g = Ok g' ->
  exists fields sc langs p',
    d = JObj fields
    /\ assoc "score" fields = Some sc
    /\ assoc "words_learned" fields = Some (JObj langs)
    /\ Loader.player g' = Some p'
    /\ Loader.score p' = sc
    /\ is_number (Loader.pos_x p') = true
    /\ is_number (Loader.pos_y p') = true
    /\ (assoc "settings" fields = None ->
        Loader.target_language g' = Loader.target_language g
        /\ Loader.window_mode g' = Loader.window_mode g).
Proof.
  unfold Loader.load_progress, Loader.load_saved.
  destruct d as [| | | | | |fields]; try discriminate. simpl.
  destruct (json_get (default (JObj []) (assoc "position" fields)) "x" (JInt 0))
    as [px|]; [| discriminate].
  destruct (json_get (default (JObj []) (assoc "position" fields)) "y" (JInt 0))
    as [py|]; [| discriminate].
  destruct (is_number px) eqn:Hpx; [| discriminate].
  destruct (is_number py) eqn:Hpy; [| discriminate]. simpl.
  destruct (assoc "score" fields) as [sc|] eqn:Hsc; [| discriminate].
  destruct (assoc "words_learned" fields) as [wl|] eqn:Hwl; [| discriminate].
  destruct wl as [| | | | | |langs]; try discriminate. simpl.
  destruct (Loader.load_ledger langs ∅) as [ledger|]; [| discriminate].
  destruct (assoc "settings" fields) as [settings|] eqn:Hset.
  - destruct (json_get settings "language" (JStr "spanish")) as [lang|];
      [| discriminate].
    destruct (json_get settings "window_mode" _) as [wm|]; [| discriminate].
    intros [= <-]. eexists fields, sc, langs, _. simpl.
    split; [reflexivity |]. split; [exact Hsc |]. split; [exact Hwl |].
    split; [reflexivity |]. simpl. split; [reflexivity |].
    split; [exact Hpx |]. split; [exact Hpy | congruence].
  - intros [= <-]. eexists fields, sc, langs, _. simpl.
    split; [reflexivity |]. split; [exact Hsc |]. split; [exact Hwl |].
    split; [reflexivity |]. simpl. split; [reflexivity |].
    split; [exact Hpx |]. split; [exact Hpy | auto].
Qed.

(* ================================================================== *)
(** * The frame update *)

Section FrameUpdate.
Context {rng : Type} `{!RandomGen rng}.

Lemma update_active_chunks_total (w : World) (r : RandomModule rng)
    (pcx pcy : Z) :
  World_ok w -> Active_ok w ->
  exists w' r',
    update_active_chunks pcx pcy (w, r) = Ok (tt, (w', r'))
    /\ World_ok w' /\ Active_ok w'
    /\ (last_player_chunk w' = Some (pcx, pcy)).
Proof.
  intros Hw Ha.
  destruct (decide (last_player_chunk w = Some (pcx, pcy))) as [Heq|Hne].
  - exists w, r. unfold update_active_chunks. rewrite decide_True by exact Heq.
    auto.
  - destruct (update_active_chunks_full w r pcx pcy Hw Ha Hne)
      as (w' & r' & Hrun & Hw' & Ha' & Hl & _).
    exists w', r'. auto.
Qed.

(** All of [Game.update] in one equation. *)
Lemma Game_update_full (sw sh : Z) (g : Game.t) (r : RandomModule rng) :
  World_ok (Game.world g) -> Active_ok (Game.world g) ->
  exists w' r' show timer,
    Game_update sw sh g r
    = Ok ({| Game.player :=
               Player_set_camera (Player.x (Game.player g) - sw / 2)
                 (Player.y (Game.player g) - sh / 2) (Game.player g);
             Game.world := w';
             Game.target_language := Game.target_language g;
             Game.show_word_display := show;
             Game.word_display_timer := timer;
             Game.current_word_data := Game.current_word_data g;
             Game.word_display_showing_translation :=
               Game.word_display_showing_translation g;
             Game.camera_x := Player.x (Game.player g) - sw / 2;
             Game.camera_y := Player.y (Game.player g) - sh / 2 |}, r')
    /\ World_ok w' /\ Active_ok w'
    /\ last_player_chunk w'
       = Some (Player.x (Game.player g) / (CHUNK_SIZE * TILE_SIZE),
               Player.y (Game.player g) / (CHUNK_SIZE * TILE_SIZE))
    /\ (Game.show_word_display g = true -> 0 < Game.word_display_timer g ->
        timer = Game.word_display_timer g - 1
        /\ show = (0 <? Game.word_display_timer g - 1))
    /\ (Game.show_word_display g = false ->
        show = false /\ timer = Game.word_display_timer g).
Proof.
  intros Hw Ha. unfold Game_update.
  destruct (update_active_chunks_total (Game.world g) r
              (Player.x (Game.player g) / (CHUNK_SIZE * TILE_SIZE))
              (Player.y (Game.player g) / (CHUNK_SIZE * TILE_SIZE)) Hw Ha)
    as (w' & r' & Hrun & Hw' & Ha' & Hl).
  simpl Player.x. simpl Player.y. rewrite Hrun.
  destruct (Game.show_word_display g) eqn:Hshow; simpl.
  - destruct (Z.ltb_spec 0 (Game.word_display_timer g)).
    + destruct (Z.leb_spec (Game.word_display_timer g - 1) 0).
      * eexists _, _, _, _. split; [reflexivity |].
        split; [exact Hw' |]. split; [exact Ha' |]. split; [exact Hl |].
        split; [| discriminate]. intros _ _. split; [reflexivity |].
        symmetry. apply Z.ltb_ge. lia.
      * eexists _, _, _, _. split; [reflexivity |].
        split; [exact Hw' |]. split; [exact Ha' |]. split; [exact Hl |].
        split; [| discriminate]. intros _ _. split; [reflexivity |].
        symmetry. apply Z.ltb_lt. lia.
    + eexists _, _, _, _. split; [reflexivity |].
      split; [exact Hw' |]. split; [exact Ha' |]. split; [exact Hl |].
      split; [intros _ ?; lia | discriminate].
  - eexists _, _, _, _. split; [reflexivity |].
    split; [exact Hw' |]. split; [exact Ha' |]. split; [exact Hl |].
    split; [discriminate | auto].
Qed.

(** X23. [Game.update] centres the camera on the player.  Afterwards the
    distance of a click from the player's centre depends only on where the
    click is on the screen, not on where the player is in the world; the
    tile the player faces is computed with the same camera offsets as the
    tile a click lands on; and the chunk the world records for the player is
    the chunk of the player's tile. *)
Theorem update_centres_the_camera (sw sh : Z) (g : Game.t)
    (r : RandomModule rng) :
  World_ok (Game.world g) -> Active_ok (Game.world g) ->
  exists g' r',
    Game_update sw sh g r = Ok (g', r')
    /\ (forall mouse,
          Game.click_distance2 mouse g'
          = (mouse.1 - sw / 2 - Player.width (Game.player g) / 2) ^ 2
            + (mouse.2 - sh / 2 - Player.height (Game.player g) / 2) ^ 2)
    /\ (forall mouse,
          (Player.get_facing_tile_position mouse (Game.player g')).1
          = ((mouse.1 + Game.camera_x g') / TILE_SIZE,
             (mouse.2 + Game.camera_y g') / TILE_SIZE))
    /\ last_player_chunk (Game.world g')
       = Some (Player.x (Game.player g) / TILE_SIZE / CHUNK_SIZE,
               Player.y (Game.player g) / TILE_SIZE / CHUNK_SIZE)
    /\ World_ok (Game.world g') /\ Active_ok (Game.world g').
Proof.
  intros Hw Ha.
  destruct (Game_update_full sw sh g r Hw Ha)
    as (w' & r' & show & timer & Hrun & Hw' & Ha' & Hl & _).
  eexists _, r'. split; [exact Hrun |].
  split.
  { intros [mx my]. unfold Game.click_distance2. simpl. f_equal; f_equal; lia. }
  split; [intros [mx my]; reflexivity |].
  split; [| auto].
  simpl. rewrite Hl. unfold TILE_SIZE, CHUNK_SIZE.
  rewrite !Z.div_div by lia. reflexivity.
Qed.

Lemma updates_countdown (n : nat) (sw sh : Z) (g : Game.t)
    (r : RandomModule rng) :
  World_ok (Game.world g) -> Active_ok (Game.world g) ->
  Game.show_word_display g = true ->
  Z.of_nat n < Game.word_display_timer g ->
  exists g' r',
    updates n sw sh g r = Ok (g', r')
    /\ World_ok (Game.world g') /\ Active_ok (Game.world g')
    /\ Game.show_word_display g' = true
    /\ Game.word_display_timer g' = Game.word_display_timer g - Z.of_nat n.
Proof.
  revert g r. induction n as [|n IH]; intros g r Hw Ha Hshow Ht.
  - exists g, r. simpl. unfold ret. split; [reflexivity |].
    split; [exact Hw |]. split; [exact Ha |]. split; [exact Hshow | lia].
  - destruct (Game_update_full sw sh g r Hw Ha)
      as (w1 & r1 & show & timer & Hrun & Hw1 & Ha1 & _ & Hcount & _).
    destruct (Hcount Hshow) as [-> ->]; [lia |].
    simpl. unfold bind. rewrite Hrun.
    match goal with |- context [updates n sw sh ?g1 r1] =>
      destruct (IH g1 r1) as (g' & r' & Hrest & Hw' & Ha' & Hs' & Ht')
    end; simpl; auto.
    + apply Z.ltb_lt. lia.
    + lia.
    + exists g', r'. split; [exact Hrest |].
      split; [exact Hw' |]. split; [exact Ha' |]. split; [exact Hs' |].
      simpl in Ht'. lia.
Qed.

(** X24. A word display with [n > 0] frames on its timer is still shown
    after [n - 1] calls of [Game.update] and is hidden by the [n]th, which
    leaves the timer at zero. *)
Theorem word_display_lasts_timer_frames (sw sh : Z) (g : Game.t)
    (r : RandomModule rng) :
  World_ok (Game.world g) -> Active_ok (Game.world g) ->
  Game.show_word_display g = true ->
  0 < Game.word_display_timer g ->
  exists g1 r1 g2 r2,
    updates (Z.to_nat (Game.word_display_timer g - 1)) sw sh g r = Ok (g1, r1)
    /\ Game.show_word_display g1 = true
    /\ Game_update sw sh g1 r1 = Ok (g2, r2)
    /\ Game.show_word_display g2 = false
    /\ Game.word_display_timer g2 = 0.
Proof.
  intros Hw Ha Hshow Ht.
  destruct (updates_countdown (Z.to_nat (Game.word_display_timer g - 1))
              sw sh g r Hw Ha Hshow) as (g1 & r1 & Hrun & Hw1 & Ha1 & Hs1 & Ht1);
    [lia |].
  destruct (Game_update_full sw sh g1 r1 Hw1 Ha1)
    as (w2 & r2 & show & timer & Hrun2 & _ & _ & _ & Hcount & _).
  destruct (Hcount Hs1) as [-> ->]; [lia |].
  eexists g1, r1, _, r2. split; [exact Hrun |]. split; [exact Hs1 |].
  split; [exact Hrun2 |]. simpl.
  split; [apply Z.ltb_ge; lia | lia].
Qed.

End FrameUpdate.

(* ================================================================== *)
(** * The theorems at work *)

Lemma move_keeps_coordinates_consistent_witness :
  World_ok World_new /\ Player_ok (Player.new (-290) 390)
  /\ exists p' w' r',
       Player.move 3 0 false (0, 0) (Player.new (-290) 390)
         (World_new, lcg_module) = Ok (p', (w', r'))
       /\ Player_ok p'.
Proof.
  split; [exact World_ok_new |]. split; [apply Player_ok_new |].
  destruct (move_keeps_coordinates_consistent 3 0 false (0, 0)
              (Player.new (-290) 390) World_new lcg_module
              World_ok_new (Player_ok_new _ _))
    as (p' & w' & r' & Hmove & Hok & _).
  exists p', w', r'. auto.
Defined.

Lemma move_never_enters_impassable_tile_witness :
  World_ok World_new
  /\ exists p' w' r',
       Player.move 3 0 false (0, 0) (Player.new (-290) 390)
         (World_new, lcg_module) = Ok (p', (w', r'))
       /\ ((Player.x p', Player.y p') = (-290, 390)
           \/ ((Player.x p', Player.y p') = (-290 + 3, 390 + 0)
               /\ forall r2,
                    is_tile_passable (Player.x p' / TILE_SIZE)
                      (Player.y p' / TILE_SIZE) (w', r2)
                    = Ok (true, (w', r2)))).
Proof.
  split; [exact World_ok_new |].
  apply (move_never_enters_impassable_tile 3 0 false (0, 0)
           (Player.new (-290) 390) World_new lcg_module World_ok_new).
Defined.

Lemma interaction_range_is_set_by_move_witness :
  World_ok World_new
  /\ Player.interaction_range (Player.new 0 0) = None
  /\ exists p' w' r',
       Player.move 3 0 false (0, 0) (Player.new 0 0) (World_new, lcg_module)
       = Ok (p', (w', r'))
       /\ Player.interaction_range p' = Some 150.
Proof.
  split; [exact World_ok_new |].
  destruct (interaction_range_is_set_by_move 0 0 3 0 false (0, 0)
              (Player.new 0 0) World_new lcg_module World_ok_new)
    as (Hnone & _ & p' & w' & r' & Hmove & Hrange & _).
  split; [exact Hnone |]. exists p', w', r'. auto.
Defined.

Lemma learn_word_touches_one_entry_witness :
  match Player.learn_word (mk_obj "tree" "tree" "árbol" "arbre" FOREST_GREEN false)
          "spanish" (Player.new 0 0) with
  | Ok (e, p') =>
      ledger_entry p' "spanish" "tree" = Some e
      /\ ledger_entry p' "french" "tree" = None
      /\ Player.score p' <= 50
  | Raise _ => False
  end.
Proof.
  destruct (Player.learn_word _ "spanish" (Player.new 0 0)) as [[e p']|]
    eqn:Hl; [| vm_compute in Hl; discriminate].
  destruct (learn_word_touches_one_entry _ _ _ _ _ Hl)
    as (He & Hframe & Hscore & _).
  split; [exact He |]. split.
  - rewrite Hframe; [reflexivity | intros [? _]; discriminate].
  - simpl in Hscore. lia.
Defined.

Lemma mastery_is_monotone_witness :
  match learn_all some_reveals (Player.new 0 0) with
  | Ok p' => Player.score (Player.new 0 0) <= Player.score p'
  | Raise _ => False
  end.
Proof.
  destruct (learn_all some_reveals (Player.new 0 0)) as [p'|] eqn:Hl;
    [| vm_compute in Hl; discriminate].
  apply (mastery_is_monotone _ _ _ Hl).
Defined.

Lemma mastered_iff_five_views_witness :
  match learn_all some_reveals (Player.new 0 0) with
  | Ok p' => Ledger_ok p'
  | Raise _ => False
  end.
Proof.
  destruct (learn_all some_reveals (Player.new 0 0)) as [p'|] eqn:Hl;
    [| vm_compute in Hl; discriminate].
  apply (mastered_iff_five_views _ _ _ _ Hl).
Defined.

Lemma save_then_load_witness :
  is_number (Loader.pos_x saved_player) = true
  /\ is_number (Loader.pos_y saved_player) = true
  /\ Loader.load_progress
       (Parsed (save_data saved_player (JStr "french") (JInt 0))) Loader.initial
     = Ok {| Loader.player :=
               Some {| Loader.pos_x := Loader.pos_x saved_player;
                       Loader.pos_y := Loader.pos_y saved_player;
                       Loader.score := Loader.score saved_player;
                       Loader.words_learned :=
                         omap nonempty_words
                           (Loader.words_learned saved_player) |};
             Loader.target_language := JStr "french";
             Loader.window_mode := JInt 0 |}
  /\ omap nonempty_words (Loader.words_learned saved_player) !! "french" = None.
Proof.
  split; [reflexivity |]. split; [reflexivity |].
  split; [| vm_compute; reflexivity].
  apply (save_then_load saved_player (JStr "french") (JInt 0) Loader.initial);
    reflexivity.
Defined.

Lemma load_success_needs_score_and_ledger_witness :
  exists g',
    Loader.load_progress (Parsed save_without_position) Loader.initial = Ok g'
    /\ exists p', Loader.player g' = Some p' /\ Loader.score p' = JInt 12.
Proof.
  eexists. split; [reflexivity |].
  destruct (load_success_needs_score_and_ledger save_without_position
              Loader.initial _ eq_refl)
    as (fields & sc & langs & p' & Hd & Hsc & _ & Hp & Hscore & _).
  exists p'. split; [exact Hp |]. rewrite Hscore.
  injection Hd as <-. simpl in Hsc. congruence.
Defined.

Lemma update_centres_the_camera_witness :
  World_ok (Game.world game_at_origin) /\ Active_ok (Game.world game_at_origin)
  /\ exists g' r',
       Game_update 800 600 game_at_origin lcg_module = Ok (g', r')
       /\ Game.click_distance2 (416, 316) g' = 0.
Proof.
  split; [exact World_ok_new |]. split; [exact Active_ok_new |].
  destruct (update_centres_the_camera 800 600 game_at_origin lcg_module
              World_ok_new Active_ok_new)
    as (g' & r' & Hrun & Hdist & _).
  exists g', r'. split; [exact Hrun |]. rewrite Hdist. reflexivity.
Defined.

Lemma word_display_lasts_timer_frames_witness :
  World_ok (Game.world displaying_game) /\ Active_ok (Game.world displaying_game)
  /\ Game.show_word_display displaying_game = true
  /\ 0 < Game.word_display_timer displaying_game
  /\ exists g1 r1 g2 r2,
       updates 2 800 600 displaying_game lcg_module = Ok (g1, r1)
       /\ Game.show_word_display g1 = true
       /\ Game_update 800 600 g1 r1 = Ok (g2, r2)
       /\ Game.show_word_display g2 = false.
Proof.
  split; [exact World_ok_new |]. split; [exact Active_ok_new |].
  split; [reflexivity |]. split; [reflexivity |].
  destruct (word_display_lasts_timer_frames 800 600 displaying_game lcg_module
              World_ok_new Active_ok_new eq_refl eq_refl)
    as (g1 & r1 & g2 & r2 & H1 & H2 & H3 & H4 & _).
  exists g1, r1, g2, r2. auto.
Defined.

(* ================================================================== *)
(** * What placement never overwrites *)

Section Placement.
Context {rng : Type} `{!RandomGen rng}.

Lemma hoare_ret {A} (P : Chunk -> Prop) (a : A) (Q : A -> Chunk -> Prop) :
  (forall c, P c -> Q a c) -> hoare (rng:=rng) P (ret a) Q.
Proof. intros HPQ h Hg HP. apply total_ret. auto. Qed.

Lemma hoare_bind {A B} (P : Chunk -> Prop) (m : M (@Heap rng) A)
    (k : A -> M Heap B) Q R :
  hoare P m Q -> (forall a, hoare (Q a) (k a) R) -> hoare P (bind m k) R.
Proof.
  intros Hm Hk h Hg HP. apply total_bind.
  eapply total_conseq; [apply (Hm h Hg HP) |].
  intros a h' [Hg' HQ]. apply (Hk a h' Hg' HQ).
Qed.

Lemma hoare_pre {A} (P P' : Chunk -> Prop) (m : M (@Heap rng) A) Q :
  (forall c, P' c -> P c) -> hoare P m Q -> hoare P' m Q.
Proof. intros HP Hm h Hg HP'. apply (Hm h Hg). auto. Qed.

Lemma hoare_bind_assoc {A B C} (P : Chunk -> Prop) (m : M (@Heap rng) A)
    (f : A -> M Heap B) (k : B -> M Heap C) R :
  hoare P (bind m (fun a => bind (f a) k)) R -> hoare P (bind (bind m f) k) R.
Proof.
  intros H h Hg HP. destruct (H h Hg HP) as (c & h' & Hrun & HR).
  exists c, h'. split; [| exact HR].
  unfold bind in *. destruct (m h) as [[a s]|]; exact Hrun.
Qed.

Lemma hoare_bind_ret {A B} (P : Chunk -> Prop) (a : A)
    (k : A -> M (@Heap rng) B) R :
  hoare P (k a) R -> hoare P (bind (ret a) k) R.
Proof. intros H. exact H. Qed.

Lemma hoare_bind_pure {A B} (P : Chunk -> Prop) (m : M (@Heap rng) A)
    (phi : A -> Prop) (k : A -> M Heap B) R :
  pure_op m phi -> (forall a, phi a -> hoare P (k a) R) ->
  hoare P (bind m k) R.
Proof.
  intros Hm Hk h Hg HP. destruct (Hm h) as (a & g & Hrun & Hphi).
  unfold total, bind. rewrite Hrun. apply (Hk a Hphi); assumption.
Qed.

Lemma hoare_pure {A} (P : Chunk -> Prop) (m : M (@Heap rng) A)
    (phi : A -> Prop) :
  pure_op m phi -> hoare P m (fun _ c => P c).
Proof.
  intros Hm h Hg HP. destruct (Hm h) as (a & g & Hrun & _).
  exists a, {| self := self h; mt := g |}. auto.
Qed.

Lemma hoare_for_each {A} (P : Chunk -> Prop) (l : list A)
    (body : A -> M (@Heap rng) unit) :
  (forall a, a ∈ l -> hoare P (body a) (fun _ c => P c)) ->
  hoare P (for_each l body) (fun _ c => P c).
Proof.
  intros Hbody h Hg HP.
  apply (total_for_each (fun h => grid_ok (tiles (self h)) /\ P (self h)));
    [auto |].
  intros a s0 Hin [Hg0 HP0]. apply (Hbody a Hin s0 Hg0 HP0).
Qed.

Lemma hoare_for_break {A} (P : Chunk -> Prop) (l : list A)
    (body : A -> M (@Heap rng) bool) :
  (forall a, a ∈ l -> hoare P (body a) (fun _ c => P c)) ->
  hoare P (for_break l body) (fun _ c => P c).
Proof.
  intros Hbody h Hg HP.
  apply (total_for_break (fun h => grid_ok (tiles (self h)) /\ P (self h)));
    [auto |].
  intros a s0 Hin [Hg0 HP0]. apply (Hbody a Hin s0 Hg0 HP0).
Qed.

Lemma pure_random_random : pure_op (rng:=rng) random_random (fun _ => True).
Proof.
  intros h. unfold random_random. destruct (gen_random (mt h)) as [u g]. eauto.
Qed.

Lemma pure_random_randint (a b : Z) :
  a <= b -> pure_op (rng:=rng) (random_randint a b) (fun k => a <= k <= b).
Proof.
  intros Hab h. unfold random_randint.
  destruct (Z.leb_spec (b - a + 1) 0) as [?|Hpos]; [lia |].
  pose proof (randbelow_range (b - a + 1) (mt h) Hpos) as Hr.
  destruct (randbelow (b - a + 1) (mt h)) as [k g]. simpl in Hr.
  eexists _, _. split; [reflexivity | lia].
Qed.

Lemma pure_lift {A} (r : Result A) (a : A) :
  r = Ok a -> pure_op (rng:=rng) (lift r) (fun x => x = a).
Proof. intros -> h. exists a, (mt h). destruct h. auto. Qed.

Lemma hoare_bind_tile_name {B} (P : Chunk -> Prop) (y x : Z)
    (k : string -> M (@Heap rng) B) R :
  0 <= y < CHUNK_SIZE -> 0 <= x < CHUNK_SIZE ->
  (forall nm,
      hoare (fun c => P c /\ exists t, cell c y x = Some t /\ name t = nm)
            (k nm) R) ->
  hoare P (bind (tile_name y x) k) R.
Proof.
  intros Hy Hx Hk h Hg HP.
  destruct (read_tile_cell h y x Hg Hy Hx) as (t & Hread & Hcell).
  unfold total, tile_name, bind. rewrite Hread. simpl.
  apply (Hk (name t) h Hg). eauto.
Qed.

Lemma tile_name_pure_post (P : Chunk -> Prop) (y x : Z) :
  0 <= y < CHUNK_SIZE -> 0 <= x < CHUNK_SIZE ->
  hoare (rng:=rng) P (tile_name y x) (fun _ c => P c).
Proof.
  intros Hy Hx h Hg HP.
  destruct (read_tile_cell h y x Hg Hy Hx) as (t & Hread & Hcell).
  unfold total, tile_name, bind. rewrite Hread. simpl.
  exists (name t), h. auto.
Qed.

(** The effect of [write_tile] on the cells. *)
Lemma write_tile_cell (h : @Heap rng) (y x : Z) (v : ObjType) :
  grid_ok (tiles (self h)) ->
  0 <= y < CHUNK_SIZE -> 0 <= x < CHUNK_SIZE ->
  exists h',
    write_tile y x v h = Ok (tt, h')
    /\ grid_ok (tiles (self h'))
    /\ cell (self h') y x = Some v
    /\ forall y' x', 0 <= y' < CHUNK_SIZE -> 0 <= x' < CHUNK_SIZE ->
         (y', x') <> (y, x) -> cell (self h') y' x' = cell (self h) y' x'.
Proof.
  intros Hgrid Hy Hx. unfold write_tile.
  rewrite py_index_Some
    by (destruct Hgrid as [-> _]; unfold CHUNK_SIZE in *; lia).
  destruct (lookup_lt_is_Some_2 (tiles (self h)) (Z.to_nat y)) as [row Hrow].
  { destruct Hgrid as [-> _]. unfold CHUNK_SIZE in *. lia. }
  rewrite Hrow.
  assert (Hlen : length row = Z.to_nat CHUNK_SIZE).
  { apply (grid_ok_row _ _ Hgrid). apply list_elem_of_lookup. eauto. }
  unfold py_setitem.
  rewrite py_index_Some by (rewrite Hlen; unfold CHUNK_SIZE in *; lia).
  eexists. split; [reflexivity |]. unfold cell. simpl.
  destruct Hgrid as [Hl Hrows].
  split; [split |]; [| | split].
  - rewrite length_insert. exact Hl.
  - apply Forall_insert; [exact Hrows |]. rewrite length_insert. exact Hlen.
  - rewrite list_lookup_insert_eq by (rewrite Hl; unfold CHUNK_SIZE in *; lia).
    simpl. apply list_lookup_insert_eq. rewrite Hlen.
    unfold CHUNK_SIZE in *. lia.
  - intros y' x' Hy' Hx' Hne.
    destruct (decide (y' = y)) as [->|Hyy].
    + rewrite list_lookup_insert_eq
        by (rewrite Hl; unfold CHUNK_SIZE in *; lia).
      rewrite Hrow. simpl. apply list_lookup_insert_ne.
      intros Heq. apply Hne. f_equal. lia.
    + rewrite list_lookup_insert_ne by lia. reflexivity.
Qed.

Section Protected.
Variable c0 : Chunk.

Lemma hoare_bind_write {B} (y x : Z) (v : ObjType) (nm : string)
    (k : unit -> M (@Heap rng) B) R :
  0 <= y < CHUNK_SIZE -> 0 <= x < CHUNK_SIZE ->
  nm <> "water" -> nm <> "path" -> nm <> "house" ->
  hoare (protects c0) (k tt) R ->
  hoare (fun c => protects c0 c /\ exists t, cell c y x = Some t /\ name t = nm)
        (bind (write_tile y x v) k) R.
Proof.
  intros Hy Hx Hw Hp Hh Hk h Hg (Hprot & t0 & Hcell & Hnm).
  destruct (write_tile_cell h y x v Hg Hy Hx) as (h' & Hrun & Hg' & _ & Hother).
  unfold total, bind. rewrite Hrun. apply (Hk h' Hg').
  intros y' x' t Hy' Hx' Ht Hpt.
  destruct (decide ((y', x') = (y, x))) as [[= -> ->]|Hne].
  - exfalso. rewrite (Hprot y x t Hy Hx Ht Hpt) in Hcell.
    injection Hcell as ->. unfold protected in Hpt. rewrite Hnm in Hpt.
    destruct Hpt as [?|[?|?]]; contradiction.
  - rewrite (Hother y' x' Hy' Hx' Hne). apply Hprot; assumption.
Qed.

Lemma hoare_write (y x : Z) (v : ObjType) (nm : string) :
  0 <= y < CHUNK_SIZE -> 0 <= x < CHUNK_SIZE ->
  nm <> "water" -> nm <> "path" -> nm <> "house" ->
  hoare (rng:=rng)
        (fun c => protects c0 c /\ exists t, cell c y x = Some t /\ name t = nm)
        (write_tile y x v) (fun _ c => protects c0 c).
Proof.
  intros Hy Hx Hw Hp Hh h Hg HP.
  destruct (hoare_bind_write y x v nm (fun _ => ret tt)
              (fun _ c => protects c0 c) Hy Hx Hw Hp Hh) with (h := h)
    as (u & h' & Hrun & HR); auto.
  { apply hoare_ret. auto. }
  destruct u. exists tt, h'. split; [| exact HR].
  unfold bind, ret in Hrun. destruct (write_tile y x v h) as [[[] s]|];
    [exact Hrun | discriminate].
Qed.

Ltac hbounds := unfold CHUNK_SIZE in *; lia.

Lemma nearby_hoare (P : Chunk -> Prop) (nm : string) (y x : Z) :
  hoare (rng:=rng) P (nearby nm y x) (fun _ c => P c).
Proof.
  unfold nearby.
  apply hoare_for_break. intros ny Hny%elem_of_range.
  apply hoare_for_break. intros nx Hnx%elem_of_range.
  eapply hoare_bind; [apply tile_name_pure_post; hbounds |].
  intros n. apply hoare_ret. auto.
Qed.

Ltac hname :=
  let E := fresh in
  intros E; subst;
  match goal with
  | H : _ = true |- _ => vm_compute in H; discriminate H
  | H : _ = false |- _ => vm_compute in H; discriminate H
  end.

Ltac hstep :=
  cbv beta zeta; simpl negb;
  lazymatch goal with
  | |- hoare _ (bind (lift (obj_named _)) _) _ =>
      eapply hoare_bind_pure; [eapply pure_lift; reflexivity | intros ? _]
  | |- hoare _ (bind (random_randint _ _) _) _ =>
      eapply hoare_bind_pure; [apply pure_random_randint; hbounds | intros ? ?]
  | |- hoare _ (bind random_random _) _ =>
      eapply hoare_bind_pure; [apply pure_random_random | intros ? _]
  | |- hoare _ (bind (nearby _ _ _) _) _ =>
      eapply hoare_bind; [apply nearby_hoare | intros ?]
  | |- hoare _ (bind (tile_name _ _) _) _ =>
      apply hoare_bind_tile_name; [hbounds | hbounds | intros ?]
  | |- hoare _ (bind (write_tile _ _ _) _) _ =>
      eapply hoare_bind_write; [hbounds | hbounds | hname | hname | hname |]
  | |- hoare _ (bind (bind _ _) _) _ => apply hoare_bind_assoc
  | |- hoare _ (bind (ret _) _) _ => apply hoare_bind_ret
  | |- hoare _ (bind (if ?c then _ else _) _) _ => destruct c eqn:?
  | |- hoare _ (bind (for_each _ _) _) _ =>
      eapply hoare_bind;
      [apply hoare_for_each; intros ? ?%elem_of_range | intros ?]
  | |- hoare _ (bind (for_break _ _) _) _ =>
      eapply hoare_bind;
      [apply hoare_for_break; intros ? ?%elem_of_range | intros ?]
  | |- hoare _ (for_each _ _) _ =>
      apply hoare_for_each; intros ? ?%elem_of_range
  | |- hoare _ (for_break _ _) _ =>
      apply hoare_for_break; intros ? ?%elem_of_range
  | |- hoare _ (if ?c then _ else _) _ => destruct c eqn:?
  | |- hoare _ (ret _) _ =>
      let H := fresh in
      apply hoare_ret; intros ? H; first [exact H | exact (proj1 H) | exact (proj1 (proj1 H))]
  | |- hoare _ (write_tile _ _ _) _ =>
      eapply hoare_write; [hbounds | hbounds | hname | hname | hname]
  end.

Lemma generate_trees_protects :
  hoare (rng:=rng) (protects c0) generate_trees (fun _ c => protects c0 c).
Proof. unfold generate_trees. repeat hstep. Qed.

Lemma generate_houses_protects :
  hoare (rng:=rng) (protects c0) generate_houses (fun _ c => protects c0 c).
Proof. unfold generate_houses. repeat hstep. Qed.

Lemma generate_forest_elements_protects :
  hoare (rng:=rng) (protects c0) generate_forest_elements
        (fun _ c => protects c0 c).
Proof. unfold generate_forest_elements. repeat hstep. Qed.

Lemma generate_animals_protects :
  hoare (rng:=rng) (protects c0) generate_animals (fun _ c => protects c0 c).
Proof. unfold generate_animals. repeat hstep. Qed.

End Protected.

(** X25. The steps that place trees, houses and flowers, logs and
    bushes, and animals each return normally on any full grid and never
    overwrite a water, path or house tile: every such cell is the same cell
    afterwards. *)
Theorem placement_never_overwrites (c : Chunk) (g : rng)
    (m : M (@Heap rng) unit) :
  grid_ok (tiles c) ->
  m = generate_trees \/ m = generate_houses
  \/ m = generate_forest_elements \/ m = generate_animals ->
  exists h',
    m {| self := c; mt := g |} = Ok (tt, h')
    /\ grid_ok (tiles (self h'))
    /\ forall y x t,
         0 <= y < CHUNK_SIZE -> 0 <= x < CHUNK_SIZE ->
         cell c y x = Some t ->
         name t = "water" \/ name t = "path" \/ name t = "house" ->
         cell (self h') y x = Some t.
Proof.
  intros Hgrid Hm.
  assert (Hh : hoare (protects c) m (fun _ c' => protects c c')).
  { destruct Hm as [-> | [-> | [-> | ->]]].
    - apply generate_trees_protects.
    - apply generate_houses_protects.
    - apply generate_forest_elements_protects.
    - apply generate_animals_protects. }
  destruct (Hh {| self := c; mt := g |} Hgrid) as (u & h' & Hrun & Hg' & Hp).
  { intros y x t _ _ Ht _. exact Ht. }
  destruct u. exists h'. split; [exact Hrun |]. split; [exact Hg' |]. exact Hp.
Qed.

End Placement.

Lemma placement_never_overwrites_witness :
  exists c r,
    Chunk_new 0 0 lcg_module = Ok (c, r)
    /\ grid_ok (tiles c)
    /\ exists h',
         generate_houses {| self := c; mt := rm_state r |} = Ok (tt, h')
         /\ grid_ok (tiles (self h'))
         /\ forall y x t,
              0 <= y < CHUNK_SIZE -> 0 <= x < CHUNK_SIZE ->
              cell c y x = Some t ->
              name t = "water" \/ name t = "path" \/ name t = "house" ->
              cell (self h') y x = Some t.
Proof.
  destruct (Chunk_new_total (rng:=Z) 0 0) as (c & Hgrid & Hc).
  destruct (Hc lcg_module) as [r Hr].
  exists c, r. split; [exact Hr |]. split; [exact Hgrid |].
  apply (placement_never_overwrites c (rm_state r) generate_houses Hgrid).
  right. left. reflexivity.
Defined.

Lemma move_keeps_animation_in_range_witness :
  World_ok World_new
  /\ 0 <= Player.animation_frame (Player.new 0 0) < 4
  /\ 0 <= Player.animation_counter (Player.new 0 0)
     < Player.animation_speed (Player.new 0 0)
  /\ exists p' w' r',
       Player.move 3 0 true (0, 0) (Player.new 0 0) (World_new, lcg_module)
       = Ok (p', (w', r'))
       /\ 0 <= Player.animation_frame p' < 4
       /\ 0 <= Player.animation_counter p' < Player.animation_speed p'.
Proof.
  split; [exact World_ok_new |].
  split; [simpl; lia |]. split; [simpl; lia |].
  destruct (move_keeps_animation_in_range 3 0 true (0, 0) (Player.new 0 0)
              World_new lcg_module World_ok_new)
    as (p' & w' & r' & Hmove & _ & Hf & Hc & _); [simpl; lia | simpl; lia |].
  exists p', w', r'. auto.
Defined.

Lemma click_before_objects_exist_witness :
  Player.interaction_range (Game.player unbuilt_game) = Some 150
  /\ Game.click_distance2 (420, 320) unbuilt_game < 2 ^ 25
  /\ (exists c, chunks (Game.world unbuilt_game) !! (0, 0) = Some c
                /\ objects c = [])
  /\ Game.handle_mouse_interaction (420, 320) unbuilt_game = Ok unbuilt_game.
Proof.
  split; [reflexivity |]. split; [reflexivity |]. split.
  - vm_compute. eexists. split; reflexivity.
  - apply (click_before_objects_exist (420, 320) unbuilt_game);
      [reflexivity | reflexivity |].
    intros c Hc. vm_compute in Hc. injection Hc as <-. reflexivity.
Defined.
